(** * Runtime host bridge of oasis-core (package [registry])

    A shallow embedding of the request handler ([runtimeHostHandler]), of the
    runtime host node ([RuntimeHostNode]) and of the notifier
    ([runtimeHostNotifier]), followed by the properties of the specification
    that these definitions decide.

    Conventions.
    - A Go [(value, error)] return is a pair of options ([ret]); [nil] is [None].
    - A Go [error] is identified by its message; wrapping with [%w] prepends text.
    - A collaborator reached through a Go interface is a record of functions; its
      own state is not part of the bridge and is not modelled.
    - A [context.Context] only matters where the bridge itself inspects it
      ([WaitHostedRuntime], the watch loops); collaborator calls are modelled by
      their result under the context they were given. *)

From Stdlib Require Import ZArith List Bool String DecimalString Lia.
Import ListNotations.

Set Implicit Arguments.

(** ** Go values *)

Definition bytes : Type := list Byte.byte.

Definition error : Type := string.

(** Result of a call into a collaborator: a value or a non-nil error. *)
Inductive result (A : Type) : Type :=
| Ok (a : A)
| Err (e : error).

Arguments Ok {A} a.
Arguments Err {A} e.

(** A Go [(value, error)] return pair. *)
Definition ret (A : Type) : Type := (option A * option error)%type.

(** [fmt.Errorf(msg + ": %w", err)]. *)
Definition wrap (msg : string) (err : error) : error :=
  String.append msg (String.append ": " err).

(** [int64(x)] for [x : uint64], and [uint64(x)] for [x : int64]. *)
Definition int64_of_uint64 (x : Z) : Z := ((x + 2 ^ 63) mod 2 ^ 64 - 2 ^ 63)%Z.

Definition uint64_of_int64 (x : Z) : Z := (x mod 2 ^ 64)%Z.

(** [cbor.FixSliceForSerde]: a nil slice becomes an empty one; both are the
    empty list here. *)
Definition FixSliceForSerde (b : bytes) : bytes := b.

(** The effect of running a statement that may panic. *)
Inductive outcome (A : Type) : Type :=
| Done (a : A)
| Panic (msg : string).

Arguments Done {A} a.
Arguments Panic {A} msg.

(** A [chan struct{}] on which nothing is ever sent: it is open or closed. *)
Inductive signal : Type := Open | Closed.

(** [close(ch)]: closing a closed channel panics. *)
Definition close (ch : signal) : outcome signal :=
  match ch with
  | Open => Done Closed
  | Closed => Panic "close of closed channel"
  end.

(** [<-ch] is ready exactly when the channel is closed. *)
Definition ready (ch : signal) : bool :=
  match ch with
  | Open => false
  | Closed => true
  end.

(** A [select] without default over cases that each return: every ready case
    may be chosen; no ready case means the goroutine stays blocked. The result
    lists the returns that can happen, in the order of the cases. *)
Definition select (A : Type) (cases : list (bool * A)) : list A :=
  map snd (filter fst cases).

(** A [context.Context]: [None] while live, [Some err] once [Done()] is closed,
    with [err] what [Err()] returns. *)
Definition Context : Type := option error.

Definition ctx_done (ctx : Context) : bool :=
  match ctx with
  | Some _ => true
  | None => false
  end.

Definition ctx_Err (ctx : Context) : option error := ctx.

(** ** Collaborator types (consensus results, storage, transaction pool) *)

Module consensusResults.

Variant StakingEvent : Type := StakingEv (raw : bytes).
Variant RegistryEvent : Type := RegistryEv (raw : bytes).
Variant RootHashEvent : Type := RootHashEv (raw : bytes).
Variant GovernanceEvent : Type := GovernanceEv (raw : bytes).

(** [results.Event]: one optional field per backend. *)
Record Event : Type := {
  Staking : option StakingEvent;
  Registry : option RegistryEvent;
  RootHash : option RootHashEvent;
  Governance : option GovernanceEvent
}.

End consensusResults.

Module txpool.

(** [txpool.TxQueueMeta]: a queued transaction; [Raw] is its wire form. *)
Record TxQueueMeta : Type := {
  Raw : bytes;
  Hash : bytes
}.

(** [txpool.TransactionPool], as far as the handler uses it. *)
Record TransactionPool : Type := {
  GetSchedulingExtra : Z -> Z -> list TxQueueMeta
}.

End txpool.

Module quote.

(** [quote.Policy]: the quote policy document; its content is not inspected. *)
Variant Policy : Type := MkPolicy (raw : bytes).

End quote.

(** ** Protocol messages (package [protocol]) *)

Module protocol.

(** Modelled from the spec: the [protocol] package is not under src/. Its
    message types are declared here with the fields the handler reads and
    writes (spec section 6). The endpoint name of an RPC call is compared with
    the constant [EnclaveRPCEndpoint]; every other name is [OtherRPCEndpoint]. *)
Variant RPCEndpoint : Type :=
| EnclaveRPCEndpoint
| OtherRPCEndpoint (name : string).

(** Modelled from the spec: storage endpoints are exactly runtime and consensus
    (spec section 6); [HostStorageEndpointOther] stands for every other value
    of the underlying integer. *)
Variant HostStorageEndpoint : Type :=
| HostStorageEndpointRuntime
| HostStorageEndpointConsensus
| HostStorageEndpointOther (tag : Z).

(** Modelled from the spec: the four consensus event kinds of spec section 6;
    [EventKindOther] stands for every other value of the underlying integer. *)
Variant EventKind : Type :=
| EventKindStaking
| EventKindRegistry
| EventKindRootHash
| EventKindGovernance
| EventKindOther (tag : Z).

Module HostRPCCallRequest.
Record t : Type := {
  Endpoint : RPCEndpoint;
  Request : bytes;
  Kind : Z;
  PeerFeedback : option bytes
}.
End HostRPCCallRequest.

Module HostRPCCallResponse.
Record t : Type := { Response : bytes }.
End HostRPCCallResponse.

Module HostStorageSyncRequest.
Record t : Type := {
  Endpoint : HostStorageEndpoint;
  SyncGet : option bytes;
  SyncGetPrefixes : option bytes;
  SyncIterate : option bytes
}.
End HostStorageSyncRequest.

Module HostStorageSyncResponse.
Record t : Type := { ProofResponse : bytes }.
End HostStorageSyncResponse.

Module HostLocalStorageGetRequest.
Record t : Type := { Key : bytes }.
End HostLocalStorageGetRequest.

Module HostLocalStorageGetResponse.
Record t : Type := { Value : bytes }.
End HostLocalStorageGetResponse.

Module HostLocalStorageSetRequest.
Record t : Type := { Key : bytes; Value : bytes }.
End HostLocalStorageSetRequest.

Module Empty.
Variant t : Type := Build.
End Empty.

Module HostFetchConsensusBlockRequest.
Record t : Type := { Height : Z }.
End HostFetchConsensusBlockRequest.

Module HostFetchConsensusBlockResponse.
Record t : Type := { Block : bytes }.
End HostFetchConsensusBlockResponse.

Module HostFetchConsensusEventsRequest.
Record t : Type := { Height : Z; Kind : EventKind }.
End HostFetchConsensusEventsRequest.

Module HostFetchConsensusEventsResponse.
Record t : Type := { Events : list consensusResults.Event }.
End HostFetchConsensusEventsResponse.

Module HostFetchGenesisHeightRequest.
Variant t : Type := Build.
End HostFetchGenesisHeightRequest.

Module HostFetchGenesisHeightResponse.
Record t : Type := { Height : Z }.
End HostFetchGenesisHeightResponse.

(** Modelled from the spec: [fetchTxBatch{offset,limit}] (spec section 6), both
    numeric (spec section 8). *)
Module HostFetchTxBatchRequest.
Record t : Type := { Offset : Z; Limit : Z }.
End HostFetchTxBatchRequest.

Module HostFetchTxBatchResponse.
Record t : Type := { Batch : list bytes }.
End HostFetchTxBatchResponse.

Module HostProveFreshnessRequest.
Record t : Type := { Blob : bytes }.
End HostProveFreshnessRequest.

Module HostProveFreshnessResponse.
Record t : Type := { SignedTx : bytes; Proof : bytes }.
End HostProveFreshnessResponse.

Module HostIdentityRequest.
Variant t : Type := Build.
End HostIdentityRequest.

Module HostIdentityResponse.
Record t : Type := { NodeID : bytes }.
End HostIdentityResponse.

Module RuntimeKeyManagerPolicyUpdateRequest.
Record t : Type := { SignedPolicyRaw : bytes }.
End RuntimeKeyManagerPolicyUpdateRequest.

Module RuntimeKeyManagerQuotePolicyUpdateRequest.
Record t : Type := { Policy : quote.Policy }.
End RuntimeKeyManagerQuotePolicyUpdateRequest.

(** [protocol.Body]: the envelope, one pointer field per message variant. Of
    the variants the runtime sends, the ten host requests and their responses
    are listed, in the order in which [Handle] tests them; of those the host
    sends, the two policy updates of the notifier. *)
Module Body.

Record t : Type := Build {
  HostRPCCallRequest : option HostRPCCallRequest.t;
  HostRPCCallResponse : option HostRPCCallResponse.t;
  HostStorageSyncRequest : option HostStorageSyncRequest.t;
  HostStorageSyncResponse : option HostStorageSyncResponse.t;
  HostLocalStorageGetRequest : option HostLocalStorageGetRequest.t;
  HostLocalStorageGetResponse : option HostLocalStorageGetResponse.t;
  HostLocalStorageSetRequest : option HostLocalStorageSetRequest.t;
  HostLocalStorageSetResponse : option Empty.t;
  HostFetchConsensusBlockRequest : option HostFetchConsensusBlockRequest.t;
  HostFetchConsensusBlockResponse : option HostFetchConsensusBlockResponse.t;
  HostFetchConsensusEventsRequest : option HostFetchConsensusEventsRequest.t;
  HostFetchConsensusEventsResponse : option HostFetchConsensusEventsResponse.t;
  HostFetchGenesisHeightRequest : option HostFetchGenesisHeightRequest.t;
  HostFetchGenesisHeightResponse : option HostFetchGenesisHeightResponse.t;
  HostFetchTxBatchRequest : option HostFetchTxBatchRequest.t;
  HostFetchTxBatchResponse : option HostFetchTxBatchResponse.t;
  HostProveFreshnessRequest : option HostProveFreshnessRequest.t;
  HostProveFreshnessResponse : option HostProveFreshnessResponse.t;
  HostIdentityRequest : option HostIdentityRequest.t;
  HostIdentityResponse : option HostIdentityResponse.t;
  RuntimeKeyManagerPolicyUpdateRequest : option RuntimeKeyManagerPolicyUpdateRequest.t;
  RuntimeKeyManagerQuotePolicyUpdateRequest : option RuntimeKeyManagerQuotePolicyUpdateRequest.t
}.

(** The zero value [protocol.Body{}]: every pointer field is nil. *)
Definition empty : t :=
  Build None None None None None None None None None None None None None None None None None None None None None None.

Definition setHostRPCCallResponse (x : option HostRPCCallResponse.t) (b : t) : t :=
  match b with Build a0 _ a2 a3 a4 a5 a6 a7 a8 a9 a10 a11 a12 a13 a14 a15 a16 a17 a18 a19 a20 a21 =>
    Build a0 x a2 a3 a4 a5 a6 a7 a8 a9 a10 a11 a12 a13 a14 a15 a16 a17 a18 a19 a20 a21
  end.

Definition setHostStorageSyncResponse (x : option HostStorageSyncResponse.t) (b : t) : t :=
  match b with Build a0 a1 a2 _ a4 a5 a6 a7 a8 a9 a10 a11 a12 a13 a14 a15 a16 a17 a18 a19 a20 a21 =>
    Build a0 a1 a2 x a4 a5 a6 a7 a8 a9 a10 a11 a12 a13 a14 a15 a16 a17 a18 a19 a20 a21
  end.

Definition setHostLocalStorageGetResponse (x : option HostLocalStorageGetResponse.t) (b : t) : t :=
  match b with Build a0 a1 a2 a3 a4 _ a6 a7 a8 a9 a10 a11 a12 a13 a14 a15 a16 a17 a18 a19 a20 a21 =>
    Build a0 a1 a2 a3 a4 x a6 a7 a8 a9 a10 a11 a12 a13 a14 a15 a16 a17 a18 a19 a20 a21
  end.

Definition setHostLocalStorageSetResponse (x : option Empty.t) (b : t) : t :=
  match b with Build a0 a1 a2 a3 a4 a5 a6 _ a8 a9 a10 a11 a12 a13 a14 a15 a16 a17 a18 a19 a20 a21 =>
    Build a0 a1 a2 a3 a4 a5 a6 x a8 a9 a10 a11 a12 a13 a14 a15 a16 a17 a18 a19 a20 a21
  end.

Definition setHostFetchConsensusBlockResponse (x : option HostFetchConsensusBlockResponse.t) (b : t) : t :=
  match b with Build a0 a1 a2 a3 a4 a5 a6 a7 a8 _ a10 a11 a12 a13 a14 a15 a16 a17 a18 a19 a20 a21 =>
    Build a0 a1 a2 a3 a4 a5 a6 a7 a8 x a10 a11 a12 a13 a14 a15 a16 a17 a18 a19 a20 a21
  end.

Definition setHostFetchConsensusEventsResponse (x : option HostFetchConsensusEventsResponse.t) (b : t) : t :=
  match b with Build a0 a1 a2 a3 a4 a5 a6 a7 a8 a9 a10 _ a12 a13 a14 a15 a16 a17 a18 a19 a20 a21 =>
    Build a0 a1 a2 a3 a4 a5 a6 a7 a8 a9 a10 x a12 a13 a14 a15 a16 a17 a18 a19 a20 a21
  end.

Definition setHostFetchGenesisHeightResponse (x : option HostFetchGenesisHeightResponse.t) (b : t) : t :=
  match b with Build a0 a1 a2 a3 a4 a5 a6 a7 a8 a9 a10 a11 a12 _ a14 a15 a16 a17 a18 a19 a20 a21 =>
    Build a0 a1 a2 a3 a4 a5 a6 a7 a8 a9 a10 a11 a12 x a14 a15 a16 a17 a18 a19 a20 a21
  end.

Definition setHostFetchTxBatchResponse (x : option HostFetchTxBatchResponse.t) (b : t) : t :=
  match b with Build a0 a1 a2 a3 a4 a5 a6 a7 a8 a9 a10 a11 a12 a13 a14 _ a16 a17 a18 a19 a20 a21 =>
    Build a0 a1 a2 a3 a4 a5 a6 a7 a8 a9 a10 a11 a12 a13 a14 x a16 a17 a18 a19 a20 a21
  end.

Definition setHostProveFreshnessResponse (x : option HostProveFreshnessResponse.t) (b : t) : t :=
  match b with Build a0 a1 a2 a3 a4 a5 a6 a7 a8 a9 a10 a11 a12 a13 a14 a15 a16 _ a18 a19 a20 a21 =>
    Build a0 a1 a2 a3 a4 a5 a6 a7 a8 a9 a10 a11 a12 a13 a14 a15 a16 x a18 a19 a20 a21
  end.

Definition setHostIdentityResponse (x : option HostIdentityResponse.t) (b : t) : t :=
  match b with Build a0 a1 a2 a3 a4 a5 a6 a7 a8 a9 a10 a11 a12 a13 a14 a15 a16 a17 a18 _ a20 a21 =>
    Build a0 a1 a2 a3 a4 a5 a6 a7 a8 a9 a10 a11 a12 a13 a14 a15 a16 a17 a18 x a20 a21
  end.

Definition setRuntimeKeyManagerPolicyUpdateRequest (x : option RuntimeKeyManagerPolicyUpdateRequest.t) (b : t) : t :=
  match b with Build a0 a1 a2 a3 a4 a5 a6 a7 a8 a9 a10 a11 a12 a13 a14 a15 a16 a17 a18 a19 _ a21 =>
    Build a0 a1 a2 a3 a4 a5 a6 a7 a8 a9 a10 a11 a12 a13 a14 a15 a16 a17 a18 a19 x a21
  end.

Definition setRuntimeKeyManagerQuotePolicyUpdateRequest (x : option RuntimeKeyManagerQuotePolicyUpdateRequest.t) (b : t) : t :=
  match b with Build a0 a1 a2 a3 a4 a5 a6 a7 a8 a9 a10 a11 a12 a13 a14 a15 a16 a17 a18 a19 a20 _ =>
    Build a0 a1 a2 a3 a4 a5 a6 a7 a8 a9 a10 a11 a12 a13 a14 a15 a16 a17 a18 a19 a20 x
  end.

End Body.
(** [protocol.Handler], given by its [Handle] method. *)
Definition Handler : Type := Body.t -> ret Body.t.

(** [protocol.Notifier]: an interface value handed out by the factory. *)
Variant Notifier : Type := NotifierRef (id : nat).

End protocol.

Module version.

Record Version : Type := { Major : Z; Minor : Z; Patch : Z }.

Definition decimal (z : Z) : string := NilZero.string_of_int (Z.to_int z).

(** [Version.String]: the three components separated by dots. *)
Definition String (v : Version) : string :=
  String.append (decimal (Major v))
    (String.append "." (String.append (decimal (Minor v))
       (String.append "." (decimal (Patch v))))).

End version.

(** [common.Namespace]: a runtime identifier. *)
Definition Namespace : Type := bytes.

Module host.

(** [host.Config]: the bundle to run and the handler serving its requests. *)
Record Config : Type := {
  Bundle : bytes;
  MessageHandler : option protocol.Handler
}.

(** [host.Runtime]: an interface value (a provisioned runtime or an
    aggregate of them). *)
Variant Runtime : Type := RuntimeRef (id : nat).

(** [host.RichRuntime] wraps a [host.Runtime]. *)
Variant RichRuntime : Type := NewRichRuntime (rt : Runtime).

Record Provisioner : Type := {
  NewRuntime : Config -> result Runtime
}.

(** [host.Event]: one optional field per lifecycle event. *)
Record Event : Type := {
  Started : option bytes;
  FailedToStart : option error;
  Stopped : option unit;
  Updated : option bytes
}.

End host.


(** ** Collaborator interfaces of the handler *)

Module runtimeKeymanager.

(** [runtimeKeymanager.Client]. *)
Record Client : Type := {
  CallEnclave : bytes -> Z -> option bytes -> result bytes
}.

End runtimeKeymanager.

Module syncer.

(** [syncer.ReadSyncer]: the three read methods; each returns a proof. *)
Record ReadSyncer : Type := {
  SyncGet : bytes -> result bytes;
  SyncGetPrefixes : bytes -> result bytes;
  SyncIterate : bytes -> result bytes
}.

End syncer.

Module localstorage.

(** The runtime's private key/value store; [Set_] is Go's [Set]. *)
Record LocalStorage : Type := {
  Get : bytes -> result bytes;
  Set_ : bytes -> bytes -> option error
}.

End localstorage.

Module identity.

Record Signer : Type := { Public : bytes }.

Record Identity : Type := { NodeSigner : Signer }.

End identity.

Module staking.
Record Backend : Type := {
  GetEvents : Z -> result (list consensusResults.StakingEvent)
}.
End staking.

Module registryBackend.
Record Backend : Type := {
  GetEvents : Z -> result (list consensusResults.RegistryEvent)
}.
End registryBackend.

Module roothash.
Record Backend : Type := {
  GetEvents : Z -> result (list consensusResults.RootHashEvent)
}.
End roothash.

Module governance.
Record Backend : Type := {
  GetEvents : Z -> result (list consensusResults.GovernanceEvent)
}.
End governance.

Module consensus.

(** [consensus.LightClient.GetLightBlock] returns the block and peer feedback. *)
Record LightClient : Type := {
  GetLightBlock : Z -> result (bytes * bytes)
}.

(** The transaction built by [registry.NewProveFreshnessTx nonce fee blob]. *)
Record Transaction : Type := {
  Nonce : Z;
  Fee : option bytes;
  Body : bytes
}.

Record GenesisDocument : Type := { Height : Z }.

(** [consensus.Backend], as far as the handler uses it.
    [SignAndSubmitTxWithProof] is the package function of that name applied to
    this backend; it returns the signed transaction and the inclusion proof. *)
Record Backend : Type := {
  State : syncer.ReadSyncer;
  Staking : staking.Backend;
  Registry : registryBackend.Backend;
  RootHash : roothash.Backend;
  Governance : governance.Backend;
  GetGenesisDocument : result GenesisDocument;
  SignAndSubmitTxWithProof : identity.Signer -> Transaction -> result (bytes * bytes)
}.

End consensus.

(** [registry.NewProveFreshnessTx]. *)
Definition NewProveFreshnessTx (nonce : Z) (fee : option bytes) (blob : bytes)
  : consensus.Transaction :=
  {| consensus.Nonce := nonce; consensus.Fee := fee; consensus.Body := blob |}.

(** The [Runtime] interface of package [registry]: [Storage] may be nil; [Host]
    returns the host configuration of every version and the provisioner. *)
Record Runtime : Type := {
  ID : Namespace;
  Host : result (list (version.Version * host.Config) * host.Provisioner);
  Storage : option syncer.ReadSyncer;
  LocalStorage : localstorage.LocalStorage
}.

(** [RuntimeHostHandlerEnvironment]. *)
Record RuntimeHostHandlerEnvironment : Type := {
  GetKeyManagerClient : result runtimeKeymanager.Client;
  GetTxPool : result txpool.TransactionPool;
  GetNodeIdentity : result identity.Identity;
  GetLightClient : result consensus.LightClient
}.

(** ** The request handler *)

Definition errMethodNotSupported : error := "method not supported"%string.

Definition errEndpointNotSupported : error := "endpoint not supported"%string.

Module runtimeHostHandler.
Record t : Type := {
  env : RuntimeHostHandlerEnvironment;
  runtime : Runtime;
  consensus : consensus.Backend
}.
End runtimeHostHandler.

Section Handlers.

Variable h : runtimeHostHandler.t.

Definition handleHostRPCCall (rq : protocol.HostRPCCallRequest.t)
  : ret protocol.HostRPCCallResponse.t :=
  match protocol.HostRPCCallRequest.Endpoint rq with
  | protocol.EnclaveRPCEndpoint =>
      (* Call into the remote key manager. *)
      match GetKeyManagerClient (runtimeHostHandler.env h) with
      | Err err => (None, Some err)
      | Ok kmCli =>
          match runtimeKeymanager.CallEnclave kmCli
                  (protocol.HostRPCCallRequest.Request rq)
                  (protocol.HostRPCCallRequest.Kind rq)
                  (protocol.HostRPCCallRequest.PeerFeedback rq) with
          | Err err => (None, Some err)
          | Ok res =>
              (Some {| protocol.HostRPCCallResponse.Response := FixSliceForSerde res |},
               None)
          end
      end
  | protocol.OtherRPCEndpoint _ => (None, Some errEndpointNotSupported)
  end.

Definition handleHostStorageSync (rq : protocol.HostStorageSyncRequest.t)
  : ret protocol.HostStorageSyncResponse.t :=
  let rs : result syncer.ReadSyncer :=
    match protocol.HostStorageSyncRequest.Endpoint rq with
    | protocol.HostStorageEndpointRuntime =>
        match Storage (runtimeHostHandler.runtime h) with
        | Some rs => Ok rs
        | None => Err errEndpointNotSupported
        end
    | protocol.HostStorageEndpointConsensus => Ok (consensus.State (runtimeHostHandler.consensus h))
    | protocol.HostStorageEndpointOther _ => Err errEndpointNotSupported
    end in
  match rs with
  | Err err => (None, Some err)
  | Ok rs =>
      let rsp : result (result bytes) :=
        match protocol.HostStorageSyncRequest.SyncGet rq,
              protocol.HostStorageSyncRequest.SyncGetPrefixes rq,
              protocol.HostStorageSyncRequest.SyncIterate rq with
        | Some q, _, _ => Ok (syncer.SyncGet rs q)
        | None, Some q, _ => Ok (syncer.SyncGetPrefixes rs q)
        | None, None, Some q => Ok (syncer.SyncIterate rs q)
        | None, None, None => Err errMethodNotSupported
        end in
      match rsp with
      | Err err => (None, Some err)
      | Ok (Err err) => (None, Some err)
      | Ok (Ok rsp) =>
          (Some {| protocol.HostStorageSyncResponse.ProofResponse := rsp |}, None)
      end
  end.

Definition handleHostLocalStorageGet (rq : protocol.HostLocalStorageGetRequest.t)
  : ret protocol.HostLocalStorageGetResponse.t :=
  match localstorage.Get (LocalStorage (runtimeHostHandler.runtime h))
          (protocol.HostLocalStorageGetRequest.Key rq) with
  | Err err => (None, Some err)
  | Ok value => (Some {| protocol.HostLocalStorageGetResponse.Value := value |}, None)
  end.

Definition handleHostLocalStorageSet (rq : protocol.HostLocalStorageSetRequest.t)
  : ret protocol.Empty.t :=
  match localstorage.Set_ (LocalStorage (runtimeHostHandler.runtime h))
          (protocol.HostLocalStorageSetRequest.Key rq)
          (protocol.HostLocalStorageSetRequest.Value rq) with
  | Some err => (None, Some err)
  | None => (Some protocol.Empty.Build, None)
  end.

Definition handleHostFetchConsensusBlock (rq : protocol.HostFetchConsensusBlockRequest.t)
  : ret protocol.HostFetchConsensusBlockResponse.t :=
  match GetLightClient (runtimeHostHandler.env h) with
  | Err err => (None, Some err)
  | Ok lc =>
      match consensus.GetLightBlock lc
              (int64_of_uint64 (protocol.HostFetchConsensusBlockRequest.Height rq)) with
      | Err err => (None, Some (wrap "light block fetch failure" err))
      | Ok (blk, _) =>
          (Some {| protocol.HostFetchConsensusBlockResponse.Block := blk |}, None)
      end
  end.

(** The four loops of [handleHostFetchConsensusEvents]: one tagged event is
    appended per backend event, front to back. *)
Definition tagStaking (sev : consensusResults.StakingEvent) : consensusResults.Event :=
  {| consensusResults.Staking := Some sev; consensusResults.Registry := None;
     consensusResults.RootHash := None; consensusResults.Governance := None |}.

Definition tagRegistry (rev : consensusResults.RegistryEvent) : consensusResults.Event :=
  {| consensusResults.Staking := None; consensusResults.Registry := Some rev;
     consensusResults.RootHash := None; consensusResults.Governance := None |}.

Definition tagRootHash (rev : consensusResults.RootHashEvent) : consensusResults.Event :=
  {| consensusResults.Staking := None; consensusResults.Registry := None;
     consensusResults.RootHash := Some rev; consensusResults.Governance := None |}.

Definition tagGovernance (gev : consensusResults.GovernanceEvent) : consensusResults.Event :=
  {| consensusResults.Staking := None; consensusResults.Registry := None;
     consensusResults.RootHash := None; consensusResults.Governance := Some gev |}.

(** [for _, x := range xs { evs = append(evs, f x) }] starting from [evs]. *)
Fixpoint appendEach (A B : Type) (f : A -> B) (xs : list A) (evs : list B) : list B :=
  match xs with
  | [] => evs
  | x :: xs' => appendEach f xs' (evs ++ [f x])%list
  end.

Definition handleHostFetchConsensusEvents (rq : protocol.HostFetchConsensusEventsRequest.t)
  : ret protocol.HostFetchConsensusEventsResponse.t :=
  let height := int64_of_uint64 (protocol.HostFetchConsensusEventsRequest.Height rq) in
  let evs : result (list consensusResults.Event) :=
    match protocol.HostFetchConsensusEventsRequest.Kind rq with
    | protocol.EventKindStaking =>
        match staking.GetEvents (consensus.Staking (runtimeHostHandler.consensus h)) height with
        | Err err => Err err
        | Ok sevs => Ok (appendEach tagStaking sevs [])
        end
    | protocol.EventKindRegistry =>
        match registryBackend.GetEvents (consensus.Registry (runtimeHostHandler.consensus h)) height with
        | Err err => Err err
        | Ok revs => Ok (appendEach tagRegistry revs [])
        end
    | protocol.EventKindRootHash =>
        match roothash.GetEvents (consensus.RootHash (runtimeHostHandler.consensus h)) height with
        | Err err => Err err
        | Ok revs => Ok (appendEach tagRootHash revs [])
        end
    | protocol.EventKindGovernance =>
        match governance.GetEvents (consensus.Governance (runtimeHostHandler.consensus h)) height with
        | Err err => Err err
        | Ok gevs => Ok (appendEach tagGovernance gevs [])
        end
    | protocol.EventKindOther _ => Err errMethodNotSupported
    end in
  match evs with
  | Err err => (None, Some err)
  | Ok evs => (Some {| protocol.HostFetchConsensusEventsResponse.Events := evs |}, None)
  end.

Definition handleHostFetchGenesisHeight (rq : protocol.HostFetchGenesisHeightRequest.t)
  : ret protocol.HostFetchGenesisHeightResponse.t :=
  match consensus.GetGenesisDocument (runtimeHostHandler.consensus h) with
  | Err err => (None, Some err)
  | Ok doc =>
      (Some {| protocol.HostFetchGenesisHeightResponse.Height :=
                 uint64_of_int64 (consensus.Height doc) |}, None)
  end.

Definition handleHostFetchTxBatch (rq : protocol.HostFetchTxBatchRequest.t)
  : ret protocol.HostFetchTxBatchResponse.t :=
  match GetTxPool (runtimeHostHandler.env h) with
  | Err err => (None, Some err)
  | Ok txPool =>
      let batch := txpool.GetSchedulingExtra txPool
                     (protocol.HostFetchTxBatchRequest.Offset rq)
                     (protocol.HostFetchTxBatchRequest.Limit rq) in
      let raw := appendEach txpool.Raw batch [] in
      (Some {| protocol.HostFetchTxBatchResponse.Batch := raw |}, None)
  end.

Definition handleHostProveFreshness (rq : protocol.HostProveFreshnessRequest.t)
  : ret protocol.HostProveFreshnessResponse.t :=
  match GetNodeIdentity (runtimeHostHandler.env h) with
  | Err err => (None, Some err)
  | Ok identity =>
      let tx := NewProveFreshnessTx 0 None (protocol.HostProveFreshnessRequest.Blob rq) in
      match consensus.SignAndSubmitTxWithProof (runtimeHostHandler.consensus h)
              (identity.NodeSigner identity) tx with
      | Err err => (None, Some err)
      | Ok (sigTx, proof) =>
          (Some {| protocol.HostProveFreshnessResponse.SignedTx := sigTx;
                   protocol.HostProveFreshnessResponse.Proof := proof |}, None)
      end
  end.

Definition handleHostIdentity (rq : protocol.HostIdentityRequest.t)
  : ret protocol.HostIdentityResponse.t :=
  match GetNodeIdentity (runtimeHostHandler.env h) with
  | Err err => (None, Some err)
  | Ok identity =>
      (Some {| protocol.HostIdentityResponse.NodeID :=
                 identity.Public (identity.NodeSigner identity) |}, None)
  end.

(** [rsp.X, err = h.handleX(ctx, rq.X)]: the handler's pair is stored as it is,
    the value in field [X] of [rsp]. *)
Definition assign (A : Type) (set : option A -> protocol.Body.t -> protocol.Body.t)
  (r : ret A) (rsp : protocol.Body.t) : protocol.Body.t * option error :=
  (set (fst r) rsp, snd r).

(** Implements [protocol.Handler]. *)
Definition Handle (rq : protocol.Body.t) : ret protocol.Body.t :=
  let rsp := protocol.Body.empty in
  let '(rsp, err) :=
    match protocol.Body.HostRPCCallRequest rq with
    | Some r => assign protocol.Body.setHostRPCCallResponse (handleHostRPCCall r) rsp
    | None =>
    match protocol.Body.HostStorageSyncRequest rq with
    | Some r => assign protocol.Body.setHostStorageSyncResponse (handleHostStorageSync r) rsp
    | None =>
    match protocol.Body.HostLocalStorageGetRequest rq with
    | Some r =>
        assign protocol.Body.setHostLocalStorageGetResponse (handleHostLocalStorageGet r) rsp
    | None =>
    match protocol.Body.HostLocalStorageSetRequest rq with
    | Some r =>
        assign protocol.Body.setHostLocalStorageSetResponse (handleHostLocalStorageSet r) rsp
    | None =>
    match protocol.Body.HostFetchConsensusBlockRequest rq with
    | Some r =>
        assign protocol.Body.setHostFetchConsensusBlockResponse
          (handleHostFetchConsensusBlock r) rsp
    | None =>
    match protocol.Body.HostFetchConsensusEventsRequest rq with
    | Some r =>
        assign protocol.Body.setHostFetchConsensusEventsResponse
          (handleHostFetchConsensusEvents r) rsp
    | None =>
    match protocol.Body.HostFetchGenesisHeightRequest rq with
    | Some r =>
        assign protocol.Body.setHostFetchGenesisHeightResponse
          (handleHostFetchGenesisHeight r) rsp
    | None =>
    match protocol.Body.HostFetchTxBatchRequest rq with
    | Some r => assign protocol.Body.setHostFetchTxBatchResponse (handleHostFetchTxBatch r) rsp
    | None =>
    match protocol.Body.HostProveFreshnessRequest rq with
    | Some r =>
        assign protocol.Body.setHostProveFreshnessResponse (handleHostProveFreshness r) rsp
    | None =>
    match protocol.Body.HostIdentityRequest rq with
    | Some r => assign protocol.Body.setHostIdentityResponse (handleHostIdentity r) rsp
    | None => (rsp, Some errMethodNotSupported)
    end end end end end end end end end end in
  match err with
  | Some err => (None, Some err)
  | None => (Some rsp, None)
  end.

End Handlers.

(** [NewRuntimeHostHandler]. *)
Definition NewRuntimeHostHandler (env : RuntimeHostHandlerEnvironment) (runtime : Runtime)
  (consensus : consensus.Backend) : protocol.Handler :=
  Handle {| runtimeHostHandler.env := env;
            runtimeHostHandler.runtime := runtime;
            runtimeHostHandler.consensus := consensus |}.

(** ** The runtime host node *)

(** [RuntimeHostHandlerFactory]. *)
Module RuntimeHostHandlerFactory.
Record t : Type := {
  GetRuntime : Runtime;
  NewRuntimeHostHandler : protocol.Handler;
  NewRuntimeHostNotifier : host.Runtime -> protocol.Notifier
}.
End RuntimeHostHandlerFactory.

(** [RuntimeHostNode]. The embedded mutex is not a field: every locked region
    of the source is one step of the functions below. [agg] holds the
    aggregate that [multi.New] returned. *)
Module RuntimeHostNode.
Record t : Type := {
  factory : RuntimeHostHandlerFactory.t;
  notifier : option protocol.Notifier;
  agg : option host.Runtime;
  runtime : option host.RichRuntime;
  runtimeNotify : signal
}.
End RuntimeHostNode.

(** [NewRuntimeHostNode]: nothing provisioned, the latch open. *)
Definition NewRuntimeHostNode (factory : RuntimeHostHandlerFactory.t) : ret RuntimeHostNode.t :=
  (Some {| RuntimeHostNode.factory := factory;
           RuntimeHostNode.notifier := None;
           RuntimeHostNode.agg := None;
           RuntimeHostNode.runtime := None;
           RuntimeHostNode.runtimeNotify := Open |}, None).

Section Provisioning.

(** [multi.New]: builds the aggregate of the provisioned versions. *)
Variable multi_New : Namespace -> list (version.Version * host.Runtime) -> result host.Runtime.

(** The loop over [cfgs], in the order in which the map is ranged over; [rts]
    is the map filled so far. *)
Fixpoint provisionVersions (provisioner : host.Provisioner) (msgHandler : protocol.Handler)
  (cfgs : list (version.Version * host.Config)) (rts : list (version.Version * host.Runtime))
  : result (list (version.Version * host.Runtime)) :=
  match cfgs with
  | [] => Ok rts
  | (version, cfg) :: cfgs' =>
      let rtCfg := {| host.Bundle := host.Bundle cfg;
                      host.MessageHandler := Some msgHandler |} in
      match host.NewRuntime provisioner rtCfg with
      | Err err =>
          Err (wrap (String.append "failed to provision runtime version "
                       (version.String version)) err)
      | Ok rt => provisionVersions provisioner msgHandler cfgs' (rts ++ [(version, rt)])%list
      end
  end.

(** [ProvisionHostedRuntime] up to the locked region: what is about to be
    installed, or the error returned before anything is touched. *)
Definition provision (n : RuntimeHostNode.t)
  : result (host.Runtime * host.RichRuntime * protocol.Notifier) :=
  let runtime := RuntimeHostHandlerFactory.GetRuntime (RuntimeHostNode.factory n) in
  match Host runtime with
  | Err err => Err (wrap "failed to get runtime host" err)
  | Ok (cfgs, provisioner) =>
      let msgHandler :=
        RuntimeHostHandlerFactory.NewRuntimeHostHandler (RuntimeHostNode.factory n) in
      match provisionVersions provisioner msgHandler cfgs [] with
      | Err err => Err err
      | Ok rts =>
          match multi_New (ID runtime) rts with
          | Err err => Err (wrap "failed to provision aggregate runtime" err)
          | Ok agg =>
              let notifier :=
                RuntimeHostHandlerFactory.NewRuntimeHostNotifier
                  (RuntimeHostNode.factory n) agg in
              let rr := host.NewRichRuntime agg in
              Ok (agg, rr, notifier)
          end
      end
  end.

(** The locked region of [ProvisionHostedRuntime]. *)
Definition install (n : RuntimeHostNode.t)
  (agg : host.Runtime) (rr : host.RichRuntime) (notifier : protocol.Notifier)
  : RuntimeHostNode.t :=
  {| RuntimeHostNode.factory := RuntimeHostNode.factory n;
     RuntimeHostNode.notifier := Some notifier;
     RuntimeHostNode.agg := Some agg;
     RuntimeHostNode.runtime := Some rr;
     RuntimeHostNode.runtimeNotify := RuntimeHostNode.runtimeNotify n |}.

(** [close(n.runtimeNotify)]. *)
Definition closeRuntimeNotify (n : RuntimeHostNode.t) : outcome RuntimeHostNode.t :=
  match close (RuntimeHostNode.runtimeNotify n) with
  | Panic msg => Panic msg
  | Done ch =>
      Done {| RuntimeHostNode.factory := RuntimeHostNode.factory n;
              RuntimeHostNode.notifier := RuntimeHostNode.notifier n;
              RuntimeHostNode.agg := RuntimeHostNode.agg n;
              RuntimeHostNode.runtime := RuntimeHostNode.runtime n;
              RuntimeHostNode.runtimeNotify := ch |}
  end.

(** [ProvisionHostedRuntime]: the node afterwards, and what the call returns
    (runtime, notifier, error) unless it panics. On a panic the node is left as
    the locked region wrote it. *)
Definition ProvisionHostedRuntime (n : RuntimeHostNode.t)
  : RuntimeHostNode.t
    * outcome (option host.RichRuntime * option protocol.Notifier * option error) :=
  match provision n with
  | Err err => (n, Done (None, None, Some err))
  | Ok (agg, rr, notifier) =>
      let n := install n agg rr notifier in
      match closeRuntimeNotify n with
      | Panic msg => (n, Panic msg)
      | Done n => (n, Done (Some rr, Some notifier, None))
      end
  end.

End Provisioning.

(** [GetHostedRuntime]: the provisioned hosted runtime, if any. *)
Definition GetHostedRuntime (n : RuntimeHostNode.t) : option host.RichRuntime :=
  RuntimeHostNode.runtime n.

(** [WaitHostedRuntime]: the returns its [select] allows; the empty list means
    the caller stays blocked in the [select]. *)
Definition WaitHostedRuntime (n : RuntimeHostNode.t) (ctx : Context)
  : list (ret host.RichRuntime) :=
  select
    [ (ctx_done ctx, (None, ctx_Err ctx));
      (ready (RuntimeHostNode.runtimeNotify n), (GetHostedRuntime n, None)) ].

(** ** The notifier: lifecycle *)

(** The fields of [runtimeHostNotifier] that [Start] and [Stop] touch. *)
Module runtimeHostNotifier.
Record t : Type := {
  stopCh : signal;
  started : bool
}.
End runtimeHostNotifier.

(** The goroutines that [Start] launches. *)
Variant goroutine : Type :=
| watchPolicyUpdates
| watchConsensusLightBlocks.

(** [NewRuntimeHostNotifier]. *)
Definition NewRuntimeHostNotifier : runtimeHostNotifier.t :=
  {| runtimeHostNotifier.stopCh := Open; runtimeHostNotifier.started := false |}.

(** [Start]: the notifier afterwards, the goroutines launched by this call and
    the error returned. *)
Definition Start (n : runtimeHostNotifier.t)
  : runtimeHostNotifier.t * list goroutine * option error :=
  if runtimeHostNotifier.started n then (n, [], None)
  else
    ({| runtimeHostNotifier.stopCh := runtimeHostNotifier.stopCh n;
        runtimeHostNotifier.started := true |},
     [watchPolicyUpdates; watchConsensusLightBlocks], None).

(** [Stop]. *)
Definition Stop (n : runtimeHostNotifier.t) : outcome runtimeHostNotifier.t :=
  match close (runtimeHostNotifier.stopCh n) with
  | Panic msg => Panic msg
  | Done ch =>
      Done {| runtimeHostNotifier.stopCh := ch;
              runtimeHostNotifier.started := runtimeHostNotifier.started n |}
  end.

(** ** The notifier: key manager policy watch *)

Module keymanager.

(** [keymanager.SignedPolicySGX]: a signed policy document, not inspected. *)
Variant SignedPolicySGX : Type := MkSignedPolicySGX (raw : bytes).

(** [keymanager.Status]: the status of one key manager; [Policy] may be nil. *)
Record Status : Type := {
  ID : Namespace;
  IsInitialized : bool;
  Policy : option SignedPolicySGX
}.

End keymanager.

Module node.

Variant TEEHardware : Type :=
| TEEHardwareInvalid
| TEEHardwareIntelSGX
| TEEHardwareReserved.

(** [node.SGXConstraints]: [Policy] is a pointer and may be nil. *)
Record SGXConstraints : Type := {
  Enclaves : list bytes;
  Policy : option quote.Policy
}.

End node.

Module registry.

(** [registry.VersionInfo]: one deployment; [TEE] holds the encoded hardware
    constraints. *)
Record VersionInfo : Type := {
  Version : version.Version;
  ValidFrom : Z;
  TEE : bytes
}.

(** [registry.Runtime]: a runtime descriptor. *)
Record Runtime : Type := {
  ID : Namespace;
  TEEHardware : node.TEEHardware;
  KeyManager : option Namespace;
  Deployments : list VersionInfo
}.

End registry.

(** [Namespace.Equal] on two namespaces. *)
Definition Namespace_Equal (a b : Namespace) : bool :=
  if list_eq_dec Byte.byte_eq_dec a b then true else false.

(** [protocol.RuntimeInfoResponse], as far as the watch reads it. *)
Record Features : Type := { KeyManagerQuotePolicyUpdates : bool }.

Record RuntimeInfoResponse : Type := { Features_ : Features }.

(** What the [select] of [watchKmPolicyUpdates] can receive. An epoch comes
    with the answer that [Registry().GetRuntime] gives when it is queried for
    the key manager at that moment. *)
Variant kmEvent : Type :=
| ctxDone
| onStatus (newSt : keymanager.Status)
| onEpoch (epoch : Z) (dsc : result registry.Runtime)
| onHostEvent (ev : host.Event).

(** The three variables of [watchKmPolicyUpdates]. *)
Record kmVars : Type := {
  st : option keymanager.Status;
  sc : option node.SGXConstraints;
  vi : option registry.VersionInfo
}.

Definition kmVars0 : kmVars := {| st := None; sc := None; vi := None |}.

(** What one turn of a loop does next. *)
Variant control : Type := Continue | Return.

(** The last status for key manager [kmRtID] among the events received, if
    any; [acc] is the one known before. *)
Definition lastStatus (kmRtID : Namespace) (events : list kmEvent)
  (acc : option keymanager.Status) : option keymanager.Status :=
  fold_left
    (fun acc e =>
       match e with
       | onStatus newSt =>
           if Namespace_Equal (keymanager.ID newSt) kmRtID then Some newSt else acc
       | _ => acc
       end)
    events acc.

Section PolicyWatch.

(** The codec, and the two descriptor methods of package [registry/api] that
    the loop calls; [VersionInfo.Equal] accepts nil on both sides. *)
Variable cbor_Marshal : option keymanager.SignedPolicySGX -> bytes.
Variable cbor_Unmarshal : bytes -> result node.SGXConstraints.
Variable ActiveDeployment : registry.Runtime -> Z -> option registry.VersionInfo.
Variable VersionInfo_Equal : option registry.VersionInfo -> option registry.VersionInfo -> bool.

(** The request that [updateKeyManagerPolicy] sends. *)
Definition policyUpdate (policy : option keymanager.SignedPolicySGX) : protocol.Body.t :=
  let raw := cbor_Marshal policy in
  protocol.Body.setRuntimeKeyManagerPolicyUpdateRequest
    (Some {| protocol.RuntimeKeyManagerPolicyUpdateRequest.SignedPolicyRaw := raw |})
    protocol.Body.empty.

(** The request that [updateKeyManagerQuotePolicy] sends. *)
Definition quotePolicyUpdate (policy : quote.Policy) : protocol.Body.t :=
  protocol.Body.setRuntimeKeyManagerQuotePolicyUpdateRequest
    (Some {| protocol.RuntimeKeyManagerQuotePolicyUpdateRequest.Policy := policy |})
    protocol.Body.empty.

(** [updateKeyManagerPolicy]: one [host.Call]; its error is only logged. The
    result is the list of requests sent to the hosted runtime. *)
Definition updateKeyManagerPolicy (policy : option keymanager.SignedPolicySGX)
  : list protocol.Body.t :=
  [policyUpdate policy].

(** [updateKeyManagerQuotePolicy]: [*policy] is evaluated to build the request. *)
Definition updateKeyManagerQuotePolicy (policy : option quote.Policy)
  : outcome (list protocol.Body.t) :=
  match policy with
  | None => Panic "nil pointer dereference"
  | Some p => Done [quotePolicyUpdate p]
  end.

(** One turn of the loop of [watchKmPolicyUpdates] on the received event: what
    the loop does next, its variables, the requests sent during the turn. *)
Definition kmTurn (rtInfo : RuntimeInfoResponse) (kmRtID : Namespace)
  (s : kmVars) (e : kmEvent) : outcome (control * kmVars * list protocol.Body.t) :=
  match e with
  | ctxDone => Done (Return, s, [])
  | onStatus newSt =>
      (* Ignore status updates for a different key manager. *)
      if negb (Namespace_Equal (keymanager.ID newSt) kmRtID) then Done (Continue, s, [])
      else
        let s := {| st := Some newSt; sc := sc s; vi := vi s |} in
        Done (Continue, s, updateKeyManagerPolicy (keymanager.Policy newSt))
  | onEpoch epoch dsc =>
      (* Skip quote policy updates if the runtime doesn't support them. *)
      if negb (KeyManagerQuotePolicyUpdates (Features_ rtInfo)) then Done (Continue, s, [])
      else
        match dsc with
        | Err _ => Done (Continue, s, [])
        | Ok dsc =>
            (* Quote polices can only be set on SGX hardwares. *)
            match registry.TEEHardware dsc with
            | node.TEEHardwareIntelSGX =>
                let newVi := ActiveDeployment dsc epoch in
                if VersionInfo_Equal newVi (vi s) then Done (Continue, s, [])
                else
                  let s := {| st := st s; sc := sc s; vi := newVi |} in
                  match vi s with
                  | None => Panic "nil pointer dereference"
                  | Some v =>
                      (* Parse SGX constraints. *)
                      match cbor_Unmarshal (registry.TEE v) with
                      | Err _ => Done (Continue, s, [])
                      | Ok newSc =>
                          let s := {| st := st s; sc := Some newSc; vi := vi s |} in
                          match updateKeyManagerQuotePolicy (node.Policy newSc) with
                          | Panic msg => Panic msg
                          | Done calls => Done (Continue, s, calls)
                          end
                      end
                  end
            | _ => Done (Continue, s, [])
            end
        end
  | onHostEvent ev =>
      match host.Started ev, host.Updated ev with
      | None, None => Done (Continue, s, [])
      | _, _ =>
          (* Make sure that we actually have policies. *)
          let calls1 :=
            match st s with
            | Some st => updateKeyManagerPolicy (keymanager.Policy st)
            | None => []
            end in
          match sc s with
          | Some sc =>
              match updateKeyManagerQuotePolicy (node.Policy sc) with
              | Panic msg => Panic msg
              | Done calls2 => Done (Continue, s, calls1 ++ calls2)%list
              end
          | None => Done (Continue, s, calls1)
          end
      end
  end.

(** The loop on the events received so far: [Continue] means that it is back
    in the [select]; [calls] are the requests sent before. *)
Fixpoint kmLoop (rtInfo : RuntimeInfoResponse) (kmRtID : Namespace)
  (s : kmVars) (calls : list protocol.Body.t) (events : list kmEvent)
  : outcome (control * kmVars * list protocol.Body.t) :=
  match events with
  | [] => Done (Continue, s, calls)
  | e :: events' =>
      match kmTurn rtInfo kmRtID s e with
      | Panic msg => Panic msg
      | Done (Return, s', out) => Done (Return, s', (calls ++ out)%list)
      | Done (Continue, s', out) => kmLoop rtInfo kmRtID s' (calls ++ out)%list events'
      end
  end.

(** What the three set-up calls of [watchKmPolicyUpdates] return. *)
Record kmSetup : Type := {
  WatchEpochs : option error;
  WatchEvents : option error;
  GetInfo : result RuntimeInfoResponse
}.

(** [watchKmPolicyUpdates] on the events that its subscriptions deliver. *)
Definition watchKmPolicyUpdates (kmRtID : option Namespace) (setup : kmSetup)
  (events : list kmEvent) : outcome (control * kmVars * list protocol.Body.t) :=
  match kmRtID with
  | None => Done (Return, kmVars0, [])
  | Some kmRtID =>
      match WatchEpochs setup with
      | Some _ => Done (Return, kmVars0, [])
      | None =>
          match WatchEvents setup with
          | Some _ => Done (Return, kmVars0, [])
          | None =>
              match GetInfo setup with
              | Err _ => Done (Return, kmVars0, [])
              | Ok rtInfo => kmLoop rtInfo kmRtID kmVars0 [] events
              end
          end
      end
  end.

(** The constraints [c] were decoded from the active deployment that the
    registry reported at one of the epochs among [seen]. *)
Definition observedConstraints (seen : list kmEvent) (c : node.SGXConstraints) : Prop :=
  exists epoch dsc v,
    In (onEpoch epoch (Ok dsc)) seen
    /\ ActiveDeployment dsc epoch = Some v
    /\ cbor_Unmarshal (registry.TEE v) = Ok c.

(** What the loop variables hold after the events [seen]. *)
Definition kmInv (kmRtID : Namespace) (seen : list kmEvent) (s : kmVars) : Prop :=
  st s = lastStatus kmRtID seen None
  /\ forall c, sc s = Some c ->
       (exists p, node.Policy c = Some p) /\ observedConstraints seen c.

End PolicyWatch.

(** ** Observations used to state the properties *)

(** The ten host methods, in the order in which [Handle] tests them. *)
Variant method : Type :=
| HostRPCCall
| HostStorageSync
| HostLocalStorageGet
| HostLocalStorageSet
| HostFetchConsensusBlock
| HostFetchConsensusEvents
| HostFetchGenesisHeight
| HostFetchTxBatch
| HostProveFreshness
| HostIdentity.

Definition method_eqb (a b : method) : bool :=
  match a, b with
  | HostRPCCall, HostRPCCall
  | HostStorageSync, HostStorageSync
  | HostLocalStorageGet, HostLocalStorageGet
  | HostLocalStorageSet, HostLocalStorageSet
  | HostFetchConsensusBlock, HostFetchConsensusBlock
  | HostFetchConsensusEvents, HostFetchConsensusEvents
  | HostFetchGenesisHeight, HostFetchGenesisHeight
  | HostFetchTxBatch, HostFetchTxBatch
  | HostProveFreshness, HostProveFreshness
  | HostIdentity, HostIdentity => true
  | _, _ => false
  end.

(** [tag] if the pointer field is not nil. *)
Definition populated (A T : Type) (field : option A) (tag : T) : list T :=
  match field with
  | Some _ => [tag]
  | None => []
  end.

(** The request variants that an envelope populates, in dispatch order. *)
Definition requestVariants (b : protocol.Body.t) : list method :=
  (populated (protocol.Body.HostRPCCallRequest b) HostRPCCall
   ++ populated (protocol.Body.HostStorageSyncRequest b) HostStorageSync
   ++ populated (protocol.Body.HostLocalStorageGetRequest b) HostLocalStorageGet
   ++ populated (protocol.Body.HostLocalStorageSetRequest b) HostLocalStorageSet
   ++ populated (protocol.Body.HostFetchConsensusBlockRequest b) HostFetchConsensusBlock
   ++ populated (protocol.Body.HostFetchConsensusEventsRequest b) HostFetchConsensusEvents
   ++ populated (protocol.Body.HostFetchGenesisHeightRequest b) HostFetchGenesisHeight
   ++ populated (protocol.Body.HostFetchTxBatchRequest b) HostFetchTxBatch
   ++ populated (protocol.Body.HostProveFreshnessRequest b) HostProveFreshness
   ++ populated (protocol.Body.HostIdentityRequest b) HostIdentity)%list.

(** The response variants that an envelope populates. *)
Definition responseVariants (b : protocol.Body.t) : list method :=
  (populated (protocol.Body.HostRPCCallResponse b) HostRPCCall
   ++ populated (protocol.Body.HostStorageSyncResponse b) HostStorageSync
   ++ populated (protocol.Body.HostLocalStorageGetResponse b) HostLocalStorageGet
   ++ populated (protocol.Body.HostLocalStorageSetResponse b) HostLocalStorageSet
   ++ populated (protocol.Body.HostFetchConsensusBlockResponse b) HostFetchConsensusBlock
   ++ populated (protocol.Body.HostFetchConsensusEventsResponse b) HostFetchConsensusEvents
   ++ populated (protocol.Body.HostFetchGenesisHeightResponse b) HostFetchGenesisHeight
   ++ populated (protocol.Body.HostFetchTxBatchResponse b) HostFetchTxBatch
   ++ populated (protocol.Body.HostProveFreshnessResponse b) HostProveFreshness
   ++ populated (protocol.Body.HostIdentityResponse b) HostIdentity)%list.

(** [field] if it belongs to method [m], nil otherwise. *)
Definition keep (A : Type) (m tag : method) (field : option A) : option A :=
  if method_eqb m tag then field else None.

(** The envelope [b] with every request variant but that of [m] cleared. *)
Definition onlyRequest (m : method) (b : protocol.Body.t) : protocol.Body.t :=
  match b with
  | protocol.Body.Build q0 p0 q1 p1 q2 p2 q3 p3 q4 p4 q5 p5 q6 p6 q7 p7 q8 p8 q9 p9 k1 k2 =>
      protocol.Body.Build
        (keep m HostRPCCall q0) p0
        (keep m HostStorageSync q1) p1
        (keep m HostLocalStorageGet q2) p2
        (keep m HostLocalStorageSet q3) p3
        (keep m HostFetchConsensusBlock q4) p4
        (keep m HostFetchConsensusEvents q5) p5
        (keep m HostFetchGenesisHeight q6) p6
        (keep m HostFetchTxBatch q7) p7
        (keep m HostProveFreshness q8) p8
        (keep m HostIdentity q9) p9
        k1 k2
  end.

(** What a consensus event carries: the populated fields with their content. *)
Variant payload : Type :=
| ofStaking (ev : consensusResults.StakingEvent)
| ofRegistry (ev : consensusResults.RegistryEvent)
| ofRootHash (ev : consensusResults.RootHashEvent)
| ofGovernance (ev : consensusResults.GovernanceEvent).

Definition payloads (ev : consensusResults.Event) : list payload :=
  (match consensusResults.Staking ev with Some e => [ofStaking e] | None => [] end
   ++ match consensusResults.Registry ev with Some e => [ofRegistry e] | None => [] end
   ++ match consensusResults.RootHash ev with Some e => [ofRootHash e] | None => [] end
   ++ match consensusResults.Governance ev with Some e => [ofGovernance e] | None => [] end)%list.

(** A Go return pair carrying a value or an error, never both and never
    neither. *)
Definition eitherOr (A : Type) (r : ret A) : Prop :=
  (exists x, r = (Some x, None)) \/ (exists err, r = (None, Some err)).

(** What [Handle] returns, by the first populated request variant. *)
Definition handled (h : runtimeHostHandler.t) (rq : protocol.Body.t)
  (r : ret protocol.Body.t) : Prop :=
  (exists err, r = (None, Some err))
  \/ (exists rsp m, r = (Some rsp, None)
                    /\ hd_error (requestVariants rq) = Some m
                    /\ responseVariants rsp = [m]).




(** The event is a cancellation, a status or a host event. *)
Definition notEpoch (e : kmEvent) : bool :=
  match e with
  | onEpoch _ _ => false
  | _ => true
  end.

(** Modelled from the spec: the transaction pool ([txpool]) is not under src/.
    Spec section 4.1: a windowed pull using an offset and a limit, in pool
    order; spec section 8: offset 5 and limit 3 select positions 5, 6, 7. *)
Definition windowPool (txs : list txpool.TxQueueMeta) : txpool.TransactionPool :=
  {| txpool.GetSchedulingExtra :=
       fun offset limit => firstn (Z.to_nat limit) (skipn (Z.to_nat offset) txs) |}.

(** ** Concrete collaborators for examples *)

Module Example.

Definition b (n : N) : bytes :=
  match Byte.of_N n with
  | Some x => [x]
  | None => []
  end.

Definition echoSyncer : syncer.ReadSyncer :=
  {| syncer.SyncGet := fun q => Ok q;
     syncer.SyncGetPrefixes := fun q => Ok q;
     syncer.SyncIterate := fun q => Ok q |}.

Definition store : localstorage.LocalStorage :=
  {| localstorage.Get := fun key => Ok key;
     localstorage.Set_ := fun _ _ => None |}.

Definition tx (n : N) : txpool.TxQueueMeta :=
  {| txpool.Raw := b n; txpool.Hash := b (n + 100) |}.

Definition pool10 : list txpool.TxQueueMeta :=
  map tx [0; 1; 2; 3; 4; 5; 6; 7; 8; 9]%N.

Definition backend : consensus.Backend :=
  {| consensus.State := echoSyncer;
     consensus.Staking :=
       {| staking.GetEvents := fun _ =>
            Ok [consensusResults.StakingEv (b 1); consensusResults.StakingEv (b 2)] |};
     consensus.Registry :=
       {| registryBackend.GetEvents := fun _ =>
            Ok [consensusResults.RegistryEv (b 3); consensusResults.RegistryEv (b 4)] |};
     consensus.RootHash :=
       {| roothash.GetEvents := fun _ =>
            Ok [consensusResults.RootHashEv (b 5); consensusResults.RootHashEv (b 6)] |};
     consensus.Governance :=
       {| governance.GetEvents := fun _ =>
            Ok [consensusResults.GovernanceEv (b 7); consensusResults.GovernanceEv (b 8)] |};
     consensus.GetGenesisDocument := Ok {| consensus.Height := 1 |};
     consensus.SignAndSubmitTxWithProof := fun _ tx => Ok (consensus.Body tx, b 9) |}.

Definition provisioner : host.Provisioner :=
  {| host.NewRuntime := fun _ => Ok (host.RuntimeRef 1) |}.

Definition v1 : version.Version :=
  {| version.Major := 1; version.Minor := 0; version.Patch := 0 |}.

Definition rt : Runtime :=
  {| ID := b 42;
     Host := Ok ([(v1, {| host.Bundle := b 0; host.MessageHandler := None |})], provisioner);
     Storage := Some echoSyncer;
     LocalStorage := store |}.

Definition environment : RuntimeHostHandlerEnvironment :=
  {| GetKeyManagerClient := Ok {| runtimeKeymanager.CallEnclave := fun rq _ _ => Ok rq |};
     GetTxPool := Ok (windowPool pool10);
     GetNodeIdentity := Ok {| identity.NodeSigner := {| identity.Public := b 7 |} |};
     GetLightClient := Ok {| consensus.GetLightBlock := fun _ => Ok (b 1, b 2) |} |}.

Definition handler : runtimeHostHandler.t :=
  {| runtimeHostHandler.env := environment;
     runtimeHostHandler.runtime := rt;
     runtimeHostHandler.consensus := backend |}.

(** An envelope with two request variants: local storage get and set. *)
Definition getAndSet : protocol.Body.t :=
  protocol.Body.Build None None None None
    (Some {| protocol.HostLocalStorageGetRequest.Key := b 1 |}) None
    (Some {| protocol.HostLocalStorageSetRequest.Key := b 1;
             protocol.HostLocalStorageSetRequest.Value := b 2 |}) None
    None None None None None None None None None None None None None None.

Definition factory : RuntimeHostHandlerFactory.t :=
  {| RuntimeHostHandlerFactory.GetRuntime := rt;
     RuntimeHostHandlerFactory.NewRuntimeHostHandler :=
       NewRuntimeHostHandler environment rt backend;
     RuntimeHostHandlerFactory.NewRuntimeHostNotifier := fun _ => protocol.NotifierRef 1 |}.

Definition multi_New (id : Namespace) (rts : list (version.Version * host.Runtime))
  : result host.Runtime :=
  Ok (host.RuntimeRef 100).

Definition node0 : RuntimeHostNode.t :=
  {| RuntimeHostNode.factory := factory;
     RuntimeHostNode.notifier := None;
     RuntimeHostNode.agg := None;
     RuntimeHostNode.runtime := None;
     RuntimeHostNode.runtimeNotify := Open |}.

Definition marshal (policy : option keymanager.SignedPolicySGX) : bytes :=
  match policy with
  | Some (keymanager.MkSignedPolicySGX raw) => raw
  | None => b 246
  end.

Definition unmarshal (data : bytes) : result node.SGXConstraints :=
  match data with
  | [] => Err "EOF"%string
  | _ => Ok {| node.Enclaves := []; node.Policy := Some (quote.MkPolicy data) |}
  end.

Definition activeDeployment (dsc : registry.Runtime) (epoch : Z)
  : option registry.VersionInfo :=
  fold_left
    (fun active d =>
       if (registry.ValidFrom d >? epoch)%Z then active
       else match active with
            | Some a => if (registry.ValidFrom a >=? registry.ValidFrom d)%Z
                        then active else Some d
            | None => Some d
            end)
    (registry.Deployments dsc) None.

Definition versionInfoEqual (a b : option registry.VersionInfo) : bool :=
  match a, b with
  | None, None => true
  | Some x, Some y =>
      (version.Major (registry.Version x) =? version.Major (registry.Version y))%Z
      && (version.Minor (registry.Version x) =? version.Minor (registry.Version y))%Z
      && (version.Patch (registry.Version x) =? version.Patch (registry.Version y))%Z
      && (registry.ValidFrom x =? registry.ValidFrom y)%Z
      && Namespace_Equal (registry.TEE x) (registry.TEE y)
  | _, _ => false
  end.

Definition rtInfo : RuntimeInfoResponse :=
  {| Features_ := {| KeyManagerQuotePolicyUpdates := true |} |}.

Definition kmRtID : Namespace := b 9.

Definition status : keymanager.Status :=
  {| keymanager.ID := kmRtID;
     keymanager.IsInitialized := true;
     keymanager.Policy := Some (keymanager.MkSignedPolicySGX (b 11)) |}.

Definition deployment (tee : bytes) : registry.VersionInfo :=
  {| registry.Version := v1; registry.ValidFrom := 0; registry.TEE := tee |}.

(** The key manager's descriptor, with one deployment whose constraints are [tee]. *)
Definition descriptor (tee : bytes) : registry.Runtime :=
  {| registry.ID := kmRtID;
     registry.TEEHardware := node.TEEHardwareIntelSGX;
     registry.KeyManager := None;
     registry.Deployments := [deployment tee] |}.

Definition setup : kmSetup :=
  {| WatchEpochs := None; WatchEvents := None; GetInfo := Ok rtInfo |}.

Definition restarted : host.Event :=
  {| host.Started := Some (b 1); host.FailedToStart := None;
     host.Stopped := None; host.Updated := None |}.

End Example.


(** ** The write log service of the storage gRPC server (package [storage]) *)

(** [bytes.Equal]. *)
Definition bytes_Equal (a b : bytes) : bool :=
  if list_eq_dec Byte.byte_eq_dec a b then true else false.

Module api.

(** [api.LogEntry] and [pb.LogEntry]: a key and a value. *)
Record LogEntry : Type := { Key : bytes; Value : bytes }.

(** What an [api.WriteLogIterator] does on the next [Next] and [Value]: it has
    an entry, or [Next] fails, or [Next] reports an entry and [Value] fails.
    An iterator is the list of these; at its end [Next] reports no more. *)
Variant iterStep : Type :=
| itEntry (entry : LogEntry)
| itNextErr (err : error)
| itValueErr (err : error).

Definition WriteLogIterator : Type := list iterStep.

(** [common.Namespace], named before a field of that name is declared. *)
Definition common_Namespace : Type := Namespace.

(** [api.Root]: the namespace, round and hash of a storage root. *)
Record Root : Type := { Namespace : Namespace; Round : Z; Hash : bytes }.

(** [api.ApplyOp]: one step of a batch; the roots are hashes. *)
Record ApplyOp : Type := {
  SrcRound : Z;
  SrcRoot : bytes;
  DstRoot : bytes;
  WriteLog : list LogEntry
}.

(** [api.Backend], as far as [ApplyBatch] and the two streaming methods use
    it; [Initialized] is the channel that is closed once the backend is ready;
    [ApplyBatch] takes the namespace, the destination round and the steps and
    returns receipts. *)
Record Backend : Type := {
  Initialized : signal;
  ApplyBatch : common_Namespace -> Z -> list ApplyOp -> result (list bytes);
  GetDiff : Root -> Root -> result WriteLogIterator;
  GetCheckpoint : Root -> result WriteLogIterator
}.

End api.

Module storage.

(** The chunk size of write log entries for [GetCheckpoint] and [GetDiff]. *)
Definition WriteLogIteratorChunkSize : Z := 10.

(** [pb.SyncOptions]; [Limit] is a [uint64]. *)
Record SyncOptions : Type := { OffsetKey : bytes; Limit : Z }.

(** The getters of a [*pb.SyncOptions], which accept nil. *)
Definition GetOffsetKey (o : option SyncOptions) : bytes :=
  match o with
  | Some x => OffsetKey x
  | None => []
  end.

Definition GetLimit (o : option SyncOptions) : Z :=
  match o with
  | Some x => Limit x
  | None => 0%Z
  end.

(** [pb.WriteLogResponse]. *)
Record WriteLogResponse : Type := { Final : bool; Log : list api.LogEntry }.

(** [&pb.LogEntry{Key: entry.Key, Value: entry.Value}]. *)
Definition toPb (entry : api.LogEntry) : api.LogEntry :=
  {| api.Key := api.Key entry; api.Value := api.Value entry |}.

(** [writeLogService]. [send] is given the responses that were sent before. *)
Record writeLogService : Type := {
  opts : option SyncOptions;
  iterator : api.WriteLogIterator;
  send : list WriteLogResponse -> WriteLogResponse -> option error
}.

(** The two nested loops of [SendWriteLogIterator], as one recursion on the
    iterator. [entryArray] is the chunk of the current turn of the outer loop,
    [sent] the responses sent so far. A [break] of the inner loop is followed
    by the [send] of the outer loop; after it the outer loop either stops
    ([final] or [done]) or starts the inner loop again with an empty chunk. *)
Fixpoint sendChunks (s : writeLogService) (it : api.WriteLogIterator)
  (skipping : bool) (totalSent : Z) (entryArray : list api.LogEntry)
  (sent : list WriteLogResponse) : list WriteLogResponse * option error :=
  match it with
  | [] =>
      (* !more: final = true; break *)
      let resp := {| Final := true; Log := entryArray |} in
      match send s sent resp with
      | Some err => (sent, Some err)
      | None => ((sent ++ [resp])%list, None)
      end
  | api.itNextErr err :: _ => (sent, Some err)
  | api.itValueErr err :: _ => (sent, Some err)
  | api.itEntry entry :: it' =>
      if skipping then
        let skipping :=
          if bytes_Equal (api.Key entry) (GetOffsetKey (opts s)) then false else skipping in
        sendChunks s it' skipping totalSent entryArray sent
      else
        let entryArray := (entryArray ++ [toPb entry])%list in
        let totalSent := ((totalSent + 1) mod 2 ^ 64)%Z in
        if (Z.of_nat (List.length entryArray) >=? WriteLogIteratorChunkSize)%Z then
          let resp := {| Final := false; Log := entryArray |} in
          match send s sent resp with
          | Some err => (sent, Some err)
          | None => sendChunks s it' skipping totalSent [] (sent ++ [resp])%list
          end
        else if ((GetLimit (opts s) >? 0) && (totalSent >=? GetLimit (opts s)))%Z then
          (* done = true; break *)
          let resp := {| Final := false; Log := entryArray |} in
          match send s sent resp with
          | Some err => (sent, Some err)
          | None => ((sent ++ [resp])%list, None)
          end
        else sendChunks s it' skipping totalSent entryArray sent
  end.

(** [SendWriteLogIterator]: the responses sent and the error returned. *)
Definition SendWriteLogIterator (s : writeLogService)
  : list WriteLogResponse * option error :=
  let skipping := negb (List.length (GetOffsetKey (opts s)) =? 0)%nat in
  sendChunks s (iterator s) skipping 0 [] [].

(** [GrpcServer]: the backend and the embedded policy checker;
    [CheckAccessAllowed] takes the action and the namespace. *)
Record GrpcServer : Type := {
  backend : api.Backend;
  CheckAccessAllowed : string -> Namespace -> option error
}.

Record GetDiffRequest : Type := {
  StartRoot : bytes;
  EndRoot : bytes;
  DiffOpts : option SyncOptions
}.

Record GetCheckpointRequest : Type := {
  CheckpointRoot : bytes;
  CheckpointOpts : option SyncOptions
}.

(** What a streaming method does: it returns, having sent responses, or it
    waits for ever on the backend's [Initialized] channel. *)
Variant streamed : Type :=
| Returns (sent : list WriteLogResponse) (err : option error)
| Waits.

Section Server.

(** [Root.UnmarshalCBOR]. *)
Variable UnmarshalCBOR : bytes -> result api.Root.

(** [stream.Send], given the responses sent before. *)
Variable Send : list WriteLogResponse -> WriteLogResponse -> option error.

Definition GetDiff (s : GrpcServer) (req : GetDiffRequest) : streamed :=
  match UnmarshalCBOR (StartRoot req) with
  | Err err => Returns [] (Some (wrap "storage: failed to unmarshal start root" err))
  | Ok startRoot =>
      match UnmarshalCBOR (EndRoot req) with
      | Err err => Returns [] (Some (wrap "storage: failed to unmarshal end root" err))
      | Ok endRoot =>
          match CheckAccessAllowed s "GetDiff" (api.Namespace startRoot) with
          | Some err => Returns [] (Some (wrap "storage: access policy forbade access" err))
          | None =>
              if ready (api.Initialized (backend s)) then
                match api.GetDiff (backend s) startRoot endRoot with
                | Err err => Returns [] (Some err)
                | Ok it =>
                    let svc := {| opts := DiffOpts req; iterator := it; send := Send |} in
                    let '(sent, err) := SendWriteLogIterator svc in
                    Returns sent err
                end
              else Waits
          end
      end
  end.

Definition GetCheckpoint (s : GrpcServer) (req : GetCheckpointRequest) : streamed :=
  match UnmarshalCBOR (CheckpointRoot req) with
  | Err err => Returns [] (Some (wrap "storage: failed to unmarshal root" err))
  | Ok root =>
      match CheckAccessAllowed s "GetCheckpoint" (api.Namespace root) with
      | Some err => Returns [] (Some (wrap "storage: access policy forbade access" err))
      | None =>
          if ready (api.Initialized (backend s)) then
            match api.GetCheckpoint (backend s) root with
            | Err err => Returns [] (Some err)
            | Ok it =>
                let svc :=
                  {| opts := CheckpointOpts req; iterator := it; send := Send |} in
                let '(sent, err) := SendWriteLogIterator svc in
                Returns sent err
            end
          else Waits
      end
  end.

(** [pb.ApplyOp] and [pb.ApplyBatchRequest], [pb.ApplyBatchResponse]. *)
Record pbApplyOp : Type := {
  opSrcRound : Z;
  opSrcRoot : bytes;
  opDstRoot : bytes;
  opLog : list api.LogEntry
}.

Record ApplyBatchRequest : Type := {
  reqNamespace : bytes;
  reqDstRound : Z;
  reqOps : list pbApplyOp
}.

Record ApplyBatchResponse : Type := { Receipts : bytes }.

(** What a unary method does: it replies, or it waits for ever on the
    backend's [Initialized] channel. *)
Variant unary (A : Type) : Type :=
| Replies (r : ret A)
| WaitsForBackend.

Arguments Replies {A} r.
Arguments WaitsForBackend {A}.

(** [Namespace.UnmarshalBinary], [hash.Hash.UnmarshalBinary] and
    [cbor.Marshal] on receipts. *)
Variable Namespace_UnmarshalBinary : bytes -> result Namespace.
Variable Hash_UnmarshalBinary : bytes -> result bytes.
Variable cbor_Marshal : list bytes -> bytes.

(** [api.LogEntry{Key: item.GetKey(), Value: item.GetValue()}]. *)
Definition toApi (item : api.LogEntry) : api.LogEntry :=
  {| api.Key := api.Key item; api.Value := api.Value item |}.

(** The loop of [ApplyBatch] over the steps of the request; [ops] are the
    steps converted so far. *)
Fixpoint convertOps (reqOps : list pbApplyOp) (ops : list api.ApplyOp)
  : result (list api.ApplyOp) :=
  match reqOps with
  | [] => Ok ops
  | op :: reqOps' =>
      match Hash_UnmarshalBinary (opSrcRoot op) with
      | Err err => Err (wrap "storage: failed to unmarshal src root" err)
      | Ok srcRoot =>
          match Hash_UnmarshalBinary (opDstRoot op) with
          | Err err => Err (wrap "storage: failed to unmarshal dst root" err)
          | Ok dstRoot =>
              let log := appendEach toApi (opLog op) [] in
              convertOps reqOps'
                (ops ++ [{| api.SrcRound := opSrcRound op;
                            api.SrcRoot := srcRoot;
                            api.DstRoot := dstRoot;
                            api.WriteLog := log |}])%list
          end
      end
  end.

Definition ApplyBatch (s : GrpcServer) (req : ApplyBatchRequest)
  : unary ApplyBatchResponse :=
  match Namespace_UnmarshalBinary (reqNamespace req) with
  | Err err => Replies (None, Some (wrap "storage: failed to unmarshal namespace" err))
  | Ok ns =>
      match CheckAccessAllowed s "ApplyBatch" ns with
      | Some err => Replies (None, Some (wrap "storage: access policy forbade access" err))
      | None =>
          match convertOps (reqOps req) [] with
          | Err err => Replies (None, Some err)
          | Ok ops =>
              if ready (api.Initialized (backend s)) then
                match api.ApplyBatch (backend s) ns (reqDstRound req) ops with
                | Err err => Replies (None, Some err)
                | Ok receipts => Replies (Some {| Receipts := cbor_Marshal receipts |}, None)
                end
              else WaitsForBackend
          end
      end
  end.

End Server.

End storage.

(** The entries that are appended to chunks: while [skipping], entries are
    dropped up to and including the first one whose key is [offsetKey]. *)
Fixpoint unskipped (offsetKey : bytes) (skipping : bool) (es : list api.LogEntry)
  : list api.LogEntry :=
  match es with
  | [] => []
  | e :: es' =>
      if skipping
      then unskipped offsetKey (negb (bytes_Equal (api.Key e) offsetKey)) es'
      else e :: es'
  end.

(** The number of entries after which a positive [limit] ends the stream: the
    limit is not tested on the entry that fills a chunk. *)
Definition cutoff (limit : Z) : Z :=
  if (limit mod storage.WriteLogIteratorChunkSize =? 0)%Z then (limit + 1)%Z else limit.

(** A stream on which every [send] succeeds. *)
Definition healthy (s : storage.writeLogService) : Prop :=
  forall sent resp, storage.send s sent resp = None.

(** A response that is a full chunk and not final. *)
Definition fullChunk (r : storage.WriteLogResponse) : Prop :=
  storage.Final r = false /\ List.length (storage.Log r) = 10%nat.

(** All entries of the responses, in the order sent. *)
Definition delivered (rs : list storage.WriteLogResponse) : list api.LogEntry :=
  List.concat (map storage.Log rs).

(** The entries that follow the offset key; all of them when it is empty. *)
Definition afterOffset (offsetKey : bytes) (es : list api.LogEntry)
  : list api.LogEntry :=
  unskipped offsetKey (negb (List.length offsetKey =? 0)%nat) es.

(** An iterator step that fails, with its error. *)
Definition failing (step : api.iterStep) : option error :=
  match step with
  | api.itEntry _ => None
  | api.itNextErr err => Some err
  | api.itValueErr err => Some err
  end.

(** The step [op'] is the step [op] of a request with its two roots decoded. *)
Definition decodedOp (Hash_UnmarshalBinary : bytes -> result bytes)
  (op : storage.pbApplyOp) (op' : api.ApplyOp) : Prop :=
  api.SrcRound op' = storage.opSrcRound op
  /\ Hash_UnmarshalBinary (storage.opSrcRoot op) = Ok (api.SrcRoot op')
  /\ Hash_UnmarshalBinary (storage.opDstRoot op) = Ok (api.DstRoot op')
  /\ api.WriteLog op' = storage.opLog op.

(** Both roots of the step decode. *)
Definition decodable (Hash_UnmarshalBinary : bytes -> result bytes)
  (op : storage.pbApplyOp) : Prop :=
  (exists h, Hash_UnmarshalBinary (storage.opSrcRoot op) = Ok h)
  /\ (exists h, Hash_UnmarshalBinary (storage.opDstRoot op) = Ok h).

Module StorageExample.

Definition entry (n : N) : api.LogEntry :=
  {| api.Key := Example.b n; api.Value := Example.b (n + 100) |}.

(** Twelve entries, with keys 1 to 12. *)
Definition entries : list api.LogEntry :=
  map entry [1; 2; 3; 4; 5; 6; 7; 8; 9; 10; 11; 12]%N.

Definition service (opts : option storage.SyncOptions) (it : api.WriteLogIterator)
  : storage.writeLogService :=
  {| storage.opts := opts;
     storage.iterator := it;
     storage.send := fun _ _ => None |}.

Definition from (key : bytes) (limit : Z) : option storage.SyncOptions :=
  Some {| storage.OffsetKey := key; storage.Limit := limit |}.

(** A codec for roots: the namespace is the encoding; nothing else decodes. *)
Definition unmarshalRoot (data : bytes) : result api.Root :=
  match data with
  | [] => Err "EOF"%string
  | _ => Ok {| api.Namespace := data; api.Round := 0; api.Hash := [] |}
  end.

(** A server whose backend is ready and holds the twelve entries, and whose
    policy allows namespace 1 only. *)
Definition server : storage.GrpcServer :=
  {| storage.backend :=
       {| api.Initialized := Closed;
          api.ApplyBatch := fun _ _ ops => Ok (map api.SrcRoot ops);
          api.GetDiff := fun _ _ => Ok (map api.itEntry entries);
          api.GetCheckpoint := fun _ => Ok (map api.itEntry entries) |};
     storage.CheckAccessAllowed := fun _ ns =>
       if bytes_Equal ns (Example.b 1) then None else Some "forbidden"%string |}.

(** A codec for hashes: one byte is a hash, nothing else is. *)
Definition unmarshalHash (data : bytes) : result bytes :=
  match data with
  | [_] => Ok data
  | _ => Err "malformed hash"%string
  end.

Definition op (src dst : bytes) : storage.pbApplyOp :=
  {| storage.opSrcRound := 1; storage.opSrcRoot := src; storage.opDstRoot := dst;
     storage.opLog := [entry 1] |}.

End StorageExample.


(** ** The runtime host node: version switch and reachable nodes *)

Section VersionSwitch.

(** [multi.Aggregate.SetVersion]. *)
Variable SetVersion : host.Runtime -> version.Version -> option error.

(** [SetHostedRuntimeVersion]. *)
Definition SetHostedRuntimeVersion (n : RuntimeHostNode.t) (version : version.Version)
  : option error :=
  let agg := RuntimeHostNode.agg n in
  match agg with
  | None => Some "runtime not available"%string
  | Some agg => SetVersion agg version
  end.

End VersionSwitch.

(** The nodes that exist: made by [NewRuntimeHostNode] and then left by any
    number of calls of [ProvisionHostedRuntime], whatever [multi.New] does at
    each call and however the call ends. *)
Inductive reachableNode : RuntimeHostNode.t -> Prop :=
| reachable_new (factory : RuntimeHostHandlerFactory.t) (n : RuntimeHostNode.t) :
    NewRuntimeHostNode factory = (Some n, None) -> reachableNode n
| reachable_provision
    (multi_New : Namespace -> list (version.Version * host.Runtime) -> result host.Runtime)
    (n : RuntimeHostNode.t) :
    reachableNode n -> reachableNode (fst (ProvisionHostedRuntime multi_New n)).

(** The fields of a node agree with its latch. *)
Definition nodeInv (n : RuntimeHostNode.t) : Prop :=
  match RuntimeHostNode.runtimeNotify n with
  | Open =>
      RuntimeHostNode.agg n = None
      /\ RuntimeHostNode.runtime n = None
      /\ RuntimeHostNode.notifier n = None
  | Closed =>
      exists agg notifier,
        RuntimeHostNode.agg n = Some agg
        /\ RuntimeHostNode.runtime n = Some (host.NewRichRuntime agg)
        /\ RuntimeHostNode.notifier n = Some notifier
  end.

(** The configuration that [ProvisionHostedRuntime] hands to the provisioner
    for [cfg]. *)
Definition withHandler (msgHandler : protocol.Handler) (cfg : host.Config) : host.Config :=
  {| host.Bundle := host.Bundle cfg; host.MessageHandler := Some msgHandler |}.


(** ** The request handler: observations on heights and replies *)

(** What [handleHostFetchConsensusBlock] answers when the light client is
    asked for the block at [height]. *)
Definition lightBlockAt (lc : consensus.LightClient) (height : Z)
  : ret protocol.HostFetchConsensusBlockResponse.t :=
  match consensus.GetLightBlock lc height with
  | Err err => (None, Some (wrap "light block fetch failure" err))
  | Ok (blk, _) => (Some {| protocol.HostFetchConsensusBlockResponse.Block := blk |}, None)
  end.

(** An envelope that holds nothing but response variants of the host. *)
Definition onlyResponses (b : protocol.Body.t) : Prop :=
  requestVariants b = []
  /\ protocol.Body.RuntimeKeyManagerPolicyUpdateRequest b = None
  /\ protocol.Body.RuntimeKeyManagerQuotePolicyUpdateRequest b = None.


(** ** The key manager policy watch: where the requests come from *)

Section PolicyWatchOrigin.

Variable cbor_Marshal : option keymanager.SignedPolicySGX -> bytes.
Variable cbor_Unmarshal : bytes -> result node.SGXConstraints.
Variable ActiveDeployment : registry.Runtime -> Z -> option registry.VersionInfo.

(** The request [req] is accounted for by the events [seen]: a policy update
    carries the encoded policy of a status received for key manager [kmRtID],
    a quote policy update the policy of constraints decoded at an epoch, and
    [req] is nothing but one of the two. *)
Definition accounted (kmRtID : Namespace) (seen : list kmEvent) (req : protocol.Body.t)
  : Prop :=
  (exists newSt,
      In (onStatus newSt) seen
      /\ Namespace_Equal (keymanager.ID newSt) kmRtID = true
      /\ req = policyUpdate cbor_Marshal (keymanager.Policy newSt))
  \/ (exists c p,
        observedConstraints cbor_Unmarshal ActiveDeployment seen c
        /\ node.Policy c = Some p
        /\ req = quotePolicyUpdate p).

End PolicyWatchOrigin.


(** ** The notifier: the descriptor loop and the block loop *)

(** [registry.RuntimeKind]. *)
Variant RuntimeKind : Type :=
| KindInvalid
| KindCompute
| KindKeyManager.

(** What the [select] of [watchPolicyUpdates] can receive; a descriptor
    update is given by the two fields that the loop reads, [Kind] and
    [KeyManager]. *)
Variant dscEvent : Type :=
| dscCtxDone
| dscStop
| onDescriptor (Kind : RuntimeKind) (KeyManager : option Namespace).

(** What [watchPolicyUpdates] does to the goroutines that it launches for
    [watchKmPolicyUpdates] and to its own subscription: it launches a
    goroutine for a key manager ([go func(kmRtID)], after [wg.Add(1)]), it
    cancels the context of the goroutine launched last and waits until that
    goroutine has ended (the two deferred calls of the function literal,
    [cancel] and [wg.Wait]), it closes the descriptor subscription (the
    deferred call of the function). A launched goroutine may end before it is
    awaited: [watchKmPolicyUpdates] returns at once for a nil key manager and
    when one of its set-up calls fails. *)
Variant watchEffect : Type :=
| StartWatch (kmRtID : option Namespace)
| StopWatch
| CloseSubscription.

Module Notifier.

Section DescriptorLoop.

(** [Namespace.Equal] on two pointers, each of which may be nil. *)
Variable Equal : option Namespace -> option Namespace -> bool.

(** The loops of [watchPolicyUpdates] from the [select] on, after the
    goroutine for [kmRtID] was launched: [Continue] means that the loop is
    back in the [select]. *)
Fixpoint descriptorLoop (kmRtID : option Namespace) (events : list dscEvent)
  (log : list watchEffect) : control * option Namespace * list watchEffect :=
  match events with
  | [] => (Continue, kmRtID, log)
  | dscCtxDone :: _ => (Return, kmRtID, (log ++ [StopWatch; CloseSubscription])%list)
  | dscStop :: _ => (Return, kmRtID, (log ++ [StopWatch; CloseSubscription])%list)
  | onDescriptor kind keyManager :: events' =>
      match kind with
      | KindCompute =>
          if Equal kmRtID keyManager then descriptorLoop kmRtID events' log
          else
            (* return false: the function literal ends and is entered again *)
            let kmRtID := keyManager in
            descriptorLoop kmRtID events' (log ++ [StopWatch; StartWatch kmRtID])%list
      | _ => (Return, kmRtID, (log ++ [StopWatch; CloseSubscription])%list)
      end
  end.

(** [watchPolicyUpdates], given what [WatchRegistryDescriptor] returned and
    the events received. *)
Definition watchPolicyUpdates (subscribe : option error) (events : list dscEvent)
  : control * option Namespace * list watchEffect :=
  match subscribe with
  | Some _ => (Return, None, [])
  | None => descriptorLoop None events [StartWatch None]
  end.

End DescriptorLoop.

(** What the [select] of [watchConsensusLightBlocks] can receive: the ring
    channel delivers a block, given by its height, a signed 64-bit number,
    together with what [ConsensusSync] returns for it, or it is closed. *)
Variant blkEvent : Type :=
| blkCtxDone
| blkStop
| blkClosed
| onBlock (Height : Z) (sync : option error).

(** The loop of [watchConsensusLightBlocks]: the heights passed to
    [ConsensusSync] so far are [calls]. *)
Fixpoint blockLoop (events : list blkEvent) (calls : list Z) : control * list Z :=
  match events with
  | [] => (Continue, calls)
  | blkCtxDone :: _ => (Return, calls)
  | blkStop :: _ => (Return, calls)
  | blkClosed :: _ => (Return, calls)
  | onBlock height sync :: events' =>
      let calls := (calls ++ [uint64_of_int64 height])%list in
      match sync with
      | Some _ => blockLoop events' calls
      | None => blockLoop events' calls
      end
  end.

(** [watchConsensusLightBlocks], given what [WatchBlocks] returned. *)
Definition watchConsensusLightBlocks (subscribe : option error) (events : list blkEvent)
  : control * list Z :=
  match subscribe with
  | Some _ => (Return, [])
  | None => blockLoop events []
  end.

End Notifier.


(** The key manager for which the last goroutine was launched. *)
Fixpoint lastStarted (log : list watchEffect) (acc : option (option Namespace))
  : option (option Namespace) :=
  match log with
  | [] => acc
  | StartWatch kmRtID :: log' => lastStarted log' (Some kmRtID)
  | _ :: log' => lastStarted log' acc
  end.

(** ** The latest-block cell *)

(** Modelled from the spec: the ring channel of capacity one that
    [watchConsensusLightBlocks] creates ([channels.NewRingChannel] with
    [channels.BufferCap(1)]) is not under src/. Spec section 3, Latest-Block
    Cell: a single-slot buffer holding at most one pending consensus block
    reference; writes overwrite. Spec section 5: the producer never blocks
    regardless of consumer speed; on overwrite the previously buffered
    (unconsumed) value is discarded. A block is given by its height. *)
Module RingChannel.

Record t : Type := {
  slot : option Z;
  closed : bool
}.

(** [channels.NewRingChannel(channels.BufferCap(1))]. *)
Definition New : t := {| slot := None; closed := false |}.

(** [ch.In() <- blk]: the send completes whatever the cell holds, and the
    block replaces the pending one. *)
Definition In (blk : Z) (ch : t) : t :=
  {| slot := Some blk; closed := closed ch |}.

(** [ch.Close()]. *)
Definition Close (ch : t) : t :=
  {| slot := slot ch; closed := true |}.

(** [<-ch.Out()]: the pending block and the emptied cell; nil (the [ok] of
    the receive is false) when the cell is empty and closed; [None] when the
    cell is empty and open, where the receive is not ready. *)
Definition Out (ch : t) : option (option Z * t) :=
  match slot ch with
  | Some blk => Some (Some blk, {| slot := None; closed := closed ch |})
  | None => if closed ch then Some (None, ch) else None
  end.

End RingChannel.

(** What happens at the ring channel of [watchConsensusLightBlocks], in the
    order in which it happens. The forwarding goroutine takes a block from
    [rawCh] and sends it into the ring channel, or it finds [rawCh] closed and
    closes the ring channel. The [select] of the loop takes its case
    [ctx.Done] or its case [stopCh], or it is at the case of the ring channel
    and takes what is there; [sync] is what [ConsensusSync] returns for the
    block taken. *)
Variant blkStep : Type :=
| forward (Height : Z)
| forwardClosed
| selectCtxDone
| selectStop
| selectBlock (sync : option error).

(** The ring channel after the steps. Once [rawCh] is closed the forwarding
    goroutine has ended and sends nothing more. *)
Fixpoint cellAfter (ch : RingChannel.t) (steps : list blkStep) : RingChannel.t :=
  match steps with
  | [] => ch
  | forward height :: steps' =>
      if RingChannel.closed ch then cellAfter ch steps'
      else cellAfter (RingChannel.In height ch) steps'
  | forwardClosed :: steps' => cellAfter (RingChannel.Close ch) steps'
  | selectCtxDone :: steps' => cellAfter ch steps'
  | selectStop :: steps' => cellAfter ch steps'
  | selectBlock _ :: steps' =>
      match RingChannel.Out ch with
      | Some (_, ch') => cellAfter ch' steps'
      | None => cellAfter ch steps'
      end
  end.

(** What the [select] of the loop receives during the steps. At an empty and
    open ring channel the loop receives nothing and waits on. *)
Fixpoint taken (ch : RingChannel.t) (steps : list blkStep) : list Notifier.blkEvent :=
  match steps with
  | [] => []
  | forward height :: steps' =>
      if RingChannel.closed ch then taken ch steps'
      else taken (RingChannel.In height ch) steps'
  | forwardClosed :: steps' => taken (RingChannel.Close ch) steps'
  | selectCtxDone :: steps' => Notifier.blkCtxDone :: taken ch steps'
  | selectStop :: steps' => Notifier.blkStop :: taken ch steps'
  | selectBlock sync :: steps' =>
      match RingChannel.Out ch with
      | Some (Some height, ch') => Notifier.onBlock height sync :: taken ch' steps'
      | Some (None, ch') => Notifier.blkClosed :: taken ch' steps'
      | None => taken ch steps'
      end
  end.

(** [watchConsensusLightBlocks] with its ring channel, on the steps taken by
    the forwarding goroutine and by the loop. *)
Definition lightBlockWatch (subscribe : option error) (steps : list blkStep)
  : control * list Z :=
  Notifier.watchConsensusLightBlocks subscribe (taken RingChannel.New steps).

Module LoopsExample.

(** [Namespace.Equal] on pointers: nil equals nil only. *)
Definition equal (a b : option Namespace) : bool :=
  match a, b with
  | None, None => true
  | Some x, Some y => Namespace_Equal x y
  | _, _ => false
  end.

End LoopsExample.


(** ** The key manager client's node tracker (package [p2p]) *)

Module p2p.

(** [core.PeerID]. *)
Definition PeerID : Type := bytes.

(** A [map[core.PeerID]bool]: a key that is absent reads as [false]; the nil
    map and the empty map read alike. *)
Definition peerMap : Type := PeerID -> bool.

Definition emptyPeers : peerMap := fun _ => false.

(** [m[peerID] = true]. *)
Definition addPeer (m : peerMap) (peerID : PeerID) : peerMap :=
  fun p => if bytes_Equal p peerID then true else m p.

(** The fields of [nodeTracker] that change, and the local variable
    [initialized] of [trackKeymanagerNodes]. *)
Record nodeTracker : Type := {
  keymanagerID : Namespace;
  peers : peerMap;
  initCh : signal;
  stopCh : signal;
  initialized : bool
}.

(** The tracker that [NewClient] makes. *)
Definition newTracker (keymanagerID : Namespace) : nodeTracker :=
  {| keymanagerID := keymanagerID;
     peers := emptyPeers;
     initCh := Open;
     stopCh := Open;
     initialized := false |}.

(** [IsPeerAcceptable]. *)
Definition IsPeerAcceptable (nt : nodeTracker) (peerID : PeerID) : bool :=
  peers nt peerID.

(** What the [select] of [trackKeymanagerNodes] can receive: a stop, or a
    status with its list [Nodes] and with the answers of the registry to
    [GetNode] at that moment, each the P2P public key of the node. *)
Variant trackEvent : Type :=
| trackStop
| trackStatus (st : keymanager.Status) (Nodes : list bytes)
    (GetNode : bytes -> result bytes).

Section Tracker.

(** [p2p.PublicKeyToPeerID]. *)
Variable PublicKeyToPeerID : bytes -> result PeerID.

(** The loop over [status.Nodes]: a node whose descriptor cannot be fetched or
    whose peer ID cannot be derived is skipped. *)
Fixpoint collectPeers (GetNode : bytes -> result bytes) (nodes : list bytes)
  (m : peerMap) : peerMap :=
  match nodes with
  | [] => m
  | nodeID :: nodes' =>
      match GetNode nodeID with
      | Err _ => collectPeers GetNode nodes' m
      | Ok key =>
          match PublicKeyToPeerID key with
          | Err _ => collectPeers GetNode nodes' m
          | Ok peerID => collectPeers GetNode nodes' (addPeer m peerID)
          end
      end
  end.

(** One turn of the loop of [trackKeymanagerNodes]. The call of
    [SetPeerImportance], which acts on the peer manager only, is left out. *)
Definition trackTurn (nt : nodeTracker) (e : trackEvent) : outcome (control * nodeTracker) :=
  match e with
  | trackStop => Done (Return, nt)
  | trackStatus st nodes GetNode =>
      if negb (Namespace_Equal (keymanager.ID st) (keymanagerID nt)) then Done (Continue, nt)
      else if negb (keymanager.IsInitialized st) || (List.length nodes =? 0)%nat
      then Done (Continue, nt)
      else
        let peers := collectPeers GetNode nodes emptyPeers in
        if initialized nt then
          Done (Continue,
                {| keymanagerID := keymanagerID nt; peers := peers; initCh := initCh nt;
                   stopCh := stopCh nt; initialized := true |})
        else
          match close (initCh nt) with
          | Panic msg => Panic msg
          | Done ch =>
              Done (Continue,
                    {| keymanagerID := keymanagerID nt; peers := peers; initCh := ch;
                       stopCh := stopCh nt; initialized := true |})
          end
  end.

(** [trackKeymanagerNodes] on the events received. *)
Fixpoint trackKeymanagerNodes (nt : nodeTracker) (events : list trackEvent)
  : outcome (control * nodeTracker) :=
  match events with
  | [] => Done (Continue, nt)
  | e :: events' =>
      match trackTurn nt e with
      | Panic msg => Panic msg
      | Done (Return, nt') => Done (Return, nt')
      | Done (Continue, nt') => trackKeymanagerNodes nt' events'
      end
  end.

End Tracker.

(** [client.Stop]. *)
Definition Stop (nt : nodeTracker) : outcome nodeTracker :=
  match close (stopCh nt) with
  | Panic msg => Panic msg
  | Done ch =>
      Done {| keymanagerID := keymanagerID nt; peers := peers nt; initCh := initCh nt;
              stopCh := ch; initialized := initialized nt |}
  end.

End p2p.

(** A status that the tracker of key manager [id] acts on. *)
Definition usableStatus (id : Namespace) (e : p2p.trackEvent) : bool :=
  match e with
  | p2p.trackStop => false
  | p2p.trackStatus st nodes _ =>
      Namespace_Equal (keymanager.ID st) id
      && keymanager.IsInitialized st
      && negb (List.length nodes =? 0)%nat
  end.

Definition isStop (e : p2p.trackEvent) : bool :=
  match e with
  | p2p.trackStop => true
  | p2p.trackStatus _ _ _ => false
  end.

(** The events that the loop gets to see: those before the first stop. *)
Fixpoint beforeStop (events : list p2p.trackEvent) : list p2p.trackEvent :=
  match events with
  | [] => []
  | e :: events' => if isStop e then [] else e :: beforeStop events'
  end.

(** The peer [p] belongs to one of [nodes]: the registry has the node's
    descriptor and the node's public key has peer ID [p]. *)
Definition peerOf (PublicKeyToPeerID : bytes -> result p2p.PeerID)
  (GetNode : bytes -> result bytes) (nodes : list bytes) (p : p2p.PeerID) : Prop :=
  exists nodeID key,
    In nodeID nodes /\ GetNode nodeID = Ok key /\ PublicKeyToPeerID key = Ok p.

(** What the tracker holds after the events [seen], none of them a stop. *)
Definition trackInv (id : Namespace) (seen : list p2p.trackEvent) (nt : p2p.nodeTracker)
  : Prop :=
  p2p.keymanagerID nt = id
  /\ (p2p.initialized nt = true <-> p2p.initCh nt = Closed)
  /\ (p2p.initCh nt = Closed <-> existsb (usableStatus id) seen = true).

Module TrackerExample.

(** Peer IDs are the public keys, except that key 0 has none. *)
Definition toPeerID (key : bytes) : result p2p.PeerID :=
  if bytes_Equal key (Example.b 0) then Err "invalid key"%string else Ok key.

(** The registry knows every node but node 3; the key of node [n] is [n]. *)
Definition registryNodes (nodeID : bytes) : result bytes :=
  if bytes_Equal nodeID (Example.b 3) then Err "no such node"%string else Ok nodeID.

End TrackerExample.

(** * Properties *)

(** ** Lists built by the append loops *)

Lemma appendEach_app (A B : Type) (f : A -> B) (xs : list A) (evs : list B) :
  appendEach f xs evs = (evs ++ map f xs)%list.
Proof.
  revert evs; induction xs as [|x xs IH]; intro evs; simpl.
  - now rewrite app_nil_r.
  - now rewrite IH, <- app_assoc.
Qed.

Lemma appendEach_map (A B : Type) (f : A -> B) (xs : list A) :
  appendEach f xs [] = map f xs.
Proof. apply appendEach_app. Qed.

Lemma payloads_tagged :
  (forall e, payloads (tagStaking e) = [ofStaking e])
  /\ (forall e, payloads (tagRegistry e) = [ofRegistry e])
  /\ (forall e, payloads (tagRootHash e) = [ofRootHash e])
  /\ (forall e, payloads (tagGovernance e) = [ofGovernance e]).
Proof. repeat split. Qed.

(** ** Consensus events *)

(** C6. For each of the four event kinds, [handleHostFetchConsensusEvents]
    queries the backend of that kind at the requested height and, when the
    backend answers with a list of events, returns one event per backend event
    in the backend's order, each with exactly the field of that kind populated
    and holding the backend's event; a backend error is returned as it is. For
    every other kind the result is the "method not supported" error. *)
Theorem C6_fetch_consensus_events (h : runtimeHostHandler.t)
  (rq : protocol.HostFetchConsensusEventsRequest.t) :
  let height := int64_of_uint64 (protocol.HostFetchConsensusEventsRequest.Height rq) in
  let c := runtimeHostHandler.consensus h in
  let r := handleHostFetchConsensusEvents h rq in
  (protocol.HostFetchConsensusEventsRequest.Kind rq = protocol.EventKindStaking ->
     (forall sevs, staking.GetEvents (consensus.Staking c) height = Ok sevs ->
        exists evs, r = (Some {| protocol.HostFetchConsensusEventsResponse.Events := evs |}, None)
                    /\ map payloads evs = map (fun e => [ofStaking e]) sevs)
     /\ (forall err, staking.GetEvents (consensus.Staking c) height = Err err ->
           r = (None, Some err)))
  /\ (protocol.HostFetchConsensusEventsRequest.Kind rq = protocol.EventKindRegistry ->
     (forall revs, registryBackend.GetEvents (consensus.Registry c) height = Ok revs ->
        exists evs, r = (Some {| protocol.HostFetchConsensusEventsResponse.Events := evs |}, None)
                    /\ map payloads evs = map (fun e => [ofRegistry e]) revs)
     /\ (forall err, registryBackend.GetEvents (consensus.Registry c) height = Err err ->
           r = (None, Some err)))
  /\ (protocol.HostFetchConsensusEventsRequest.Kind rq = protocol.EventKindRootHash ->
     (forall revs, roothash.GetEvents (consensus.RootHash c) height = Ok revs ->
        exists evs, r = (Some {| protocol.HostFetchConsensusEventsResponse.Events := evs |}, None)
                    /\ map payloads evs = map (fun e => [ofRootHash e]) revs)
     /\ (forall err, roothash.GetEvents (consensus.RootHash c) height = Err err ->
           r = (None, Some err)))
  /\ (protocol.HostFetchConsensusEventsRequest.Kind rq = protocol.EventKindGovernance ->
     (forall gevs, governance.GetEvents (consensus.Governance c) height = Ok gevs ->
        exists evs, r = (Some {| protocol.HostFetchConsensusEventsResponse.Events := evs |}, None)
                    /\ map payloads evs = map (fun e => [ofGovernance e]) gevs)
     /\ (forall err, governance.GetEvents (consensus.Governance c) height = Err err ->
           r = (None, Some err)))
  /\ (forall tag,
        protocol.HostFetchConsensusEventsRequest.Kind rq = protocol.EventKindOther tag ->
        r = (None, Some errMethodNotSupported)).
Proof.
  cbv zeta. unfold handleHostFetchConsensusEvents.
  repeat split; intros; 
    repeat match goal with
           | H : protocol.HostFetchConsensusEventsRequest.Kind rq = _ |- _ => rewrite H
           | H : _ = Ok _ |- _ => rewrite H
           | H : _ = Err _ |- _ => rewrite H
           end; try reflexivity;
    eexists; (split; [reflexivity|]); cbn [protocol.HostFetchConsensusEventsResponse.Events];
    rewrite appendEach_map, map_map; reflexivity.
Qed.

(** C6 on the example backend: the two staking events come back tagged, in order. *)
Lemma C6_fetch_consensus_events_witness :
  exists evs,
    handleHostFetchConsensusEvents Example.handler
      {| protocol.HostFetchConsensusEventsRequest.Height := 7;
         protocol.HostFetchConsensusEventsRequest.Kind := protocol.EventKindStaking |}
    = (Some {| protocol.HostFetchConsensusEventsResponse.Events := evs |}, None)
    /\ map payloads evs
       = [[ofStaking (consensusResults.StakingEv (Example.b 1))];
          [ofStaking (consensusResults.StakingEv (Example.b 2))]].
Proof.
  exact (proj1 (proj1 (C6_fetch_consensus_events Example.handler
                         {| protocol.HostFetchConsensusEventsRequest.Height := 7;
                            protocol.HostFetchConsensusEventsRequest.Kind :=
                              protocol.EventKindStaking |}) eq_refl) _ eq_refl).
Defined.

(** ** Transaction batches *)

(** C9. Whenever the environment provides a transaction pool,
    [handleHostFetchTxBatch] returns the raw bytes of exactly the transactions
    that the pool's [GetSchedulingExtra] yields for the request's offset and
    limit, in that order, and no error. For a pool that serves windows in pool
    order and holds ten transactions, offset 5 and limit 3 give the raw bytes
    of the transactions at positions 5, 6 and 7. *)
Theorem C9_fetch_tx_batch :
  (forall (h : runtimeHostHandler.t) (txPool : txpool.TransactionPool)
          (rq : protocol.HostFetchTxBatchRequest.t),
      GetTxPool (runtimeHostHandler.env h) = Ok txPool ->
      handleHostFetchTxBatch h rq
      = (Some {| protocol.HostFetchTxBatchResponse.Batch :=
                   map txpool.Raw
                     (txpool.GetSchedulingExtra txPool
                        (protocol.HostFetchTxBatchRequest.Offset rq)
                        (protocol.HostFetchTxBatchRequest.Limit rq)) |}, None))
  /\ (forall (h : runtimeHostHandler.t) (txs : list txpool.TxQueueMeta)
             (d : txpool.TxQueueMeta),
      GetTxPool (runtimeHostHandler.env h) = Ok (windowPool txs) ->
      List.length txs = 10%nat ->
      handleHostFetchTxBatch h
        {| protocol.HostFetchTxBatchRequest.Offset := 5;
           protocol.HostFetchTxBatchRequest.Limit := 3 |}
      = (Some {| protocol.HostFetchTxBatchResponse.Batch :=
                   [txpool.Raw (nth 5 txs d); txpool.Raw (nth 6 txs d);
                    txpool.Raw (nth 7 txs d)] |}, None)).
Proof.
  assert (Hgen : forall h txPool rq,
             GetTxPool (runtimeHostHandler.env h) = Ok txPool ->
             handleHostFetchTxBatch h rq
             = (Some {| protocol.HostFetchTxBatchResponse.Batch :=
                          map txpool.Raw
                            (txpool.GetSchedulingExtra txPool
                               (protocol.HostFetchTxBatchRequest.Offset rq)
                               (protocol.HostFetchTxBatchRequest.Limit rq)) |}, None)).
  { intros h txPool rq Hpool. unfold handleHostFetchTxBatch.
    rewrite Hpool, appendEach_map. reflexivity. }
  split; [exact Hgen|].
  intros h txs d Hpool Hlen.
  rewrite (Hgen h _ _ Hpool).
  do 11 (destruct txs as [|? txs]; try discriminate Hlen).
  reflexivity.
Qed.

(** C9 on the example pool of ten transactions. *)
Lemma C9_fetch_tx_batch_witness :
  handleHostFetchTxBatch Example.handler
    {| protocol.HostFetchTxBatchRequest.Offset := 5;
       protocol.HostFetchTxBatchRequest.Limit := 3 |}
  = (Some {| protocol.HostFetchTxBatchResponse.Batch :=
               [Example.b 5; Example.b 6; Example.b 7] |}, None).
Proof.
  exact (proj2 C9_fetch_tx_batch Example.handler Example.pool10 (Example.tx 0)
           eq_refl eq_refl).
Defined.

(** ** The dispatcher *)

Ltac split_matches :=
  repeat match goal with
         | |- context [match ?x with _ => _ end] => destruct x
         end.

Ltac either_or :=
  solve [ left; eexists; reflexivity | right; eexists; reflexivity ].

Lemma handleHostRPCCall_eitherOr h rq : eitherOr (handleHostRPCCall h rq).
Proof. unfold handleHostRPCCall; split_matches; either_or. Qed.

Lemma handleHostStorageSync_eitherOr h rq : eitherOr (handleHostStorageSync h rq).
Proof. unfold handleHostStorageSync; split_matches; either_or. Qed.

Lemma handleHostLocalStorageGet_eitherOr h rq : eitherOr (handleHostLocalStorageGet h rq).
Proof. unfold handleHostLocalStorageGet; split_matches; either_or. Qed.

Lemma handleHostLocalStorageSet_eitherOr h rq : eitherOr (handleHostLocalStorageSet h rq).
Proof. unfold handleHostLocalStorageSet; split_matches; either_or. Qed.

Lemma handleHostFetchConsensusBlock_eitherOr h rq :
  eitherOr (handleHostFetchConsensusBlock h rq).
Proof. unfold handleHostFetchConsensusBlock; split_matches; either_or. Qed.

Lemma handleHostFetchConsensusEvents_eitherOr h rq :
  eitherOr (handleHostFetchConsensusEvents h rq).
Proof. unfold handleHostFetchConsensusEvents; split_matches; either_or. Qed.

Lemma handleHostFetchGenesisHeight_eitherOr h rq :
  eitherOr (handleHostFetchGenesisHeight h rq).
Proof. unfold handleHostFetchGenesisHeight; split_matches; either_or. Qed.

Lemma handleHostFetchTxBatch_eitherOr h rq : eitherOr (handleHostFetchTxBatch h rq).
Proof. unfold handleHostFetchTxBatch; split_matches; either_or. Qed.

Lemma handleHostProveFreshness_eitherOr h rq : eitherOr (handleHostProveFreshness h rq).
Proof. unfold handleHostProveFreshness; split_matches; either_or. Qed.

Lemma handleHostIdentity_eitherOr h rq : eitherOr (handleHostIdentity h rq).
Proof. unfold handleHostIdentity; split_matches; either_or. Qed.

Ltac use_shape L :=
  let x := fresh "x" in
  let e := fresh "e" in
  let E := fresh "E" in
  destruct L as [[x E]|[e E]]; rewrite E; cbn;
  [ right; do 2 eexists; repeat split; reflexivity
  | left; eexists; reflexivity ].

Lemma Handle_handled h rq : handled h rq (Handle h rq).
Proof.
  unfold Handle, assign, handled.
  destruct rq as [q0 p0 q1 p1 q2 p2 q3 p3 q4 p4 q5 p5 q6 p6 q7 p7 q8 p8 q9 p9 k1 k2].
  cbn - [handleHostRPCCall handleHostStorageSync handleHostLocalStorageGet
         handleHostLocalStorageSet handleHostFetchConsensusBlock
         handleHostFetchConsensusEvents handleHostFetchGenesisHeight
         handleHostFetchTxBatch handleHostProveFreshness handleHostIdentity].
  destruct q0 as [r|]; [use_shape (handleHostRPCCall_eitherOr h r)|].
  destruct q1 as [r|]; [use_shape (handleHostStorageSync_eitherOr h r)|].
  destruct q2 as [r|]; [use_shape (handleHostLocalStorageGet_eitherOr h r)|].
  destruct q3 as [r|]; [use_shape (handleHostLocalStorageSet_eitherOr h r)|].
  destruct q4 as [r|]; [use_shape (handleHostFetchConsensusBlock_eitherOr h r)|].
  destruct q5 as [r|]; [use_shape (handleHostFetchConsensusEvents_eitherOr h r)|].
  destruct q6 as [r|]; [use_shape (handleHostFetchGenesisHeight_eitherOr h r)|].
  destruct q7 as [r|]; [use_shape (handleHostFetchTxBatch_eitherOr h r)|].
  destruct q8 as [r|]; [use_shape (handleHostProveFreshness_eitherOr h r)|].
  destruct q9 as [r|]; [use_shape (handleHostIdentity_eitherOr h r)|].
  left; eexists; reflexivity.
Qed.

(** C8. [Handle] never returns both a response and an error; and a response
    that it returns has exactly one response variant populated, that of the
    request variant that was dispatched (the first populated one). *)
Theorem C8_handle_one_response (h : runtimeHostHandler.t) (rq : protocol.Body.t) :
  (forall rsp err, Handle h rq <> (Some rsp, Some err))
  /\ (forall rsp, fst (Handle h rq) = Some rsp ->
        snd (Handle h rq) = None
        /\ exists m, hd_error (requestVariants rq) = Some m
                     /\ responseVariants rsp = [m]).
Proof.
  destruct (Handle_handled h rq) as [[e E]|[rsp [m [E [Hm Hr]]]]]; rewrite E.
  - split; [intros ? ? H; discriminate H | intros ? H; discriminate H].
  - split; [intros ? ? H; discriminate H|].
    intros rsp' H; injection H as <-. split; [reflexivity|].
    exists m; split; assumption.
Qed.

(** C8 on the example handler: a local storage get is answered by a response
    whose only variant is the local storage get response. *)
Lemma C8_handle_one_response_witness :
  exists rsp,
    fst (Handle Example.handler (onlyRequest HostLocalStorageGet Example.getAndSet)) = Some rsp
    /\ snd (Handle Example.handler (onlyRequest HostLocalStorageGet Example.getAndSet)) = None
    /\ exists m,
         hd_error (requestVariants (onlyRequest HostLocalStorageGet Example.getAndSet)) = Some m
         /\ responseVariants rsp = [m].
Proof.
  eexists. split; [reflexivity|].
  exact (proj2 (C8_handle_one_response Example.handler
                  (onlyRequest HostLocalStorageGet Example.getAndSet)) _ eq_refl).
Defined.

(** The dispatcher returns "method not supported" for an envelope with two
    request variants: not so, the example envelope with a local storage get and
    a local storage set is answered by the local storage get handler. *)
Lemma C1_two_variants_are_served :
  ~ (forall (h : runtimeHostHandler.t) (rq : protocol.Body.t),
        List.length (requestVariants rq) <> 1%nat ->
        Handle h rq = (None, Some errMethodNotSupported)).
Proof.
  intro H.
  specialize (H Example.handler Example.getAndSet).
  assert (Hlen : List.length (requestVariants Example.getAndSet) <> 1%nat)
    by (cbv; discriminate).
  specialize (H Hlen). cbv in H. discriminate H.
Qed.

Ltac first_populated q :=
  let H := fresh "H" in
  let m := fresh "m" in
  let rest := fresh "rest" in
  destruct q;
  [ split;
    [ intro H; discriminate H
    | intros m rest H; injection H as <- _; split; reflexivity ]
  | ].

(** C1, amended. An envelope that populates none of the ten request variants
    is answered by the "method not supported" error and no response. An
    envelope that populates one or more is dispatched on the first populated
    variant in the order of the dispatcher: the answer is that for the same
    envelope with every other request variant cleared. *)
Theorem C1_dispatch_first_populated (h : runtimeHostHandler.t) (rq : protocol.Body.t) :
  (requestVariants rq = [] -> Handle h rq = (None, Some errMethodNotSupported))
  /\ (forall m rest, requestVariants rq = m :: rest ->
        requestVariants (onlyRequest m rq) = [m]
        /\ Handle h rq = Handle h (onlyRequest m rq)).
Proof.
  destruct rq as [q0 p0 q1 p1 q2 p2 q3 p3 q4 p4 q5 p5 q6 p6 q7 p7 q8 p8 q9 p9 k1 k2].
  unfold requestVariants; cbn [protocol.Body.HostRPCCallRequest
    protocol.Body.HostStorageSyncRequest protocol.Body.HostLocalStorageGetRequest
    protocol.Body.HostLocalStorageSetRequest protocol.Body.HostFetchConsensusBlockRequest
    protocol.Body.HostFetchConsensusEventsRequest protocol.Body.HostFetchGenesisHeightRequest
    protocol.Body.HostFetchTxBatchRequest protocol.Body.HostProveFreshnessRequest
    protocol.Body.HostIdentityRequest onlyRequest].
  first_populated q0. first_populated q1. first_populated q2. first_populated q3.
  first_populated q4. first_populated q5. first_populated q6. first_populated q7.
  first_populated q8. first_populated q9.
  split; [reflexivity | intros m rest H; discriminate H].
Qed.

(** C1 on examples: the empty envelope is refused; the envelope with a local
    storage get and set is answered as the one with the get alone. *)
Lemma C1_dispatch_first_populated_witness :
  Handle Example.handler protocol.Body.empty = (None, Some errMethodNotSupported)
  /\ requestVariants (onlyRequest HostLocalStorageGet Example.getAndSet)
     = [HostLocalStorageGet]
  /\ Handle Example.handler Example.getAndSet
     = Handle Example.handler (onlyRequest HostLocalStorageGet Example.getAndSet).
Proof.
  split.
  - exact (proj1 (C1_dispatch_first_populated Example.handler protocol.Body.empty) eq_refl).
  - exact (proj2 (C1_dispatch_first_populated Example.handler Example.getAndSet)
             HostLocalStorageGet [HostLocalStorageSet] eq_refl).
Defined.

(** ** Start and Stop of the notifier *)

(** Calling [Stop] twice is safe: not so, the second [Stop] of a new notifier
    closes the closed stop channel. *)
Lemma C2_second_stop_panics :
  ~ (forall n n1 : runtimeHostNotifier.t,
        Stop n = Done n1 -> exists n2, Stop n1 = Done n2).
Proof.
  intro H.
  destruct (H NewRuntimeHostNotifier _ eq_refl) as [n2 H2].
  discriminate H2.
Qed.

(** C2, amended. [Start] is idempotent: the first [Start] of a notifier sets
    the started flag and launches the two watch loops, and a [Start] after a
    [Start] changes nothing, launches nothing and returns no error. [Stop] is
    not: the first [Stop] closes the stop channel, and a [Stop] after a [Stop]
    panics on closing the closed channel. *)
Theorem C2_start_idempotent_stop_once (n : runtimeHostNotifier.t) :
  (forall n1 launched err, Start n = (n1, launched, err) ->
     err = None /\ Start n1 = (n1, [], None))
  /\ (runtimeHostNotifier.started n = false ->
      exists n1, Start n = (n1, [watchPolicyUpdates; watchConsensusLightBlocks], None)
                 /\ runtimeHostNotifier.started n1 = true)
  /\ (runtimeHostNotifier.stopCh n = Open ->
      exists n1, Stop n = Done n1 /\ runtimeHostNotifier.stopCh n1 = Closed)
  /\ (forall n1, Stop n = Done n1 -> Stop n1 = Panic "close of closed channel").
Proof.
  split; [|split; [|split]].
  - intros n1 launched err H. unfold Start in *.
    destruct n as [ch [|]]; cbn in H; injection H as <- <- <-; split; reflexivity.
  - intro H. unfold Start. rewrite H. eexists; split; reflexivity.
  - intro H. unfold Stop. rewrite H. eexists; split; reflexivity.
  - intros n1 H. unfold Stop in *.
    destruct (runtimeHostNotifier.stopCh n); cbn in H; [|discriminate H].
    injection H as <-. reflexivity.
Qed.

(** C2 on a new notifier: started twice and stopped twice. *)
Lemma C2_start_idempotent_stop_once_witness :
  (exists n1, Start NewRuntimeHostNotifier
              = (n1, [watchPolicyUpdates; watchConsensusLightBlocks], None)
              /\ Start n1 = (n1, [], None))
  /\ (exists n1, Stop NewRuntimeHostNotifier = Done n1
                 /\ Stop n1 = Panic "close of closed channel").
Proof.
  split.
  - eexists; split; [reflexivity|].
    exact (proj2 (proj1 (C2_start_idempotent_stop_once NewRuntimeHostNotifier)
                    _ _ _ eq_refl)).
  - eexists; split; [reflexivity|].
    exact (proj2 (proj2 (proj2 (C2_start_idempotent_stop_once NewRuntimeHostNotifier)))
             _ eq_refl).
Defined.

(** ** Provisioning and waiting for the hosted runtime *)

Lemma ProvisionHostedRuntime_success multi_New n n' rr nt :
  ProvisionHostedRuntime multi_New n = (n', Done (Some rr, Some nt, None)) ->
  exists agg,
    provision multi_New n = Ok (agg, rr, nt)
    /\ RuntimeHostNode.runtimeNotify n = Open
    /\ RuntimeHostNode.runtime n' = Some rr
    /\ RuntimeHostNode.agg n' = Some agg
    /\ RuntimeHostNode.notifier n' = Some nt
    /\ RuntimeHostNode.runtimeNotify n' = Closed.
Proof.
  unfold ProvisionHostedRuntime, closeRuntimeNotify, install.
  destruct (provision multi_New n) as [[[agg rr'] nt']|err]; [|intro H; discriminate H].
  cbn. destruct (RuntimeHostNode.runtimeNotify n); cbn; intro H; [|discriminate H].
  injection H as <- <- <-. exists agg. repeat split.
Qed.

(** [WaitHostedRuntime] with a canceled context returns the cancellation
    error: not always, once the example node is provisioned the [select] has
    two ready cases and may return the runtime without error. *)
Lemma C3_canceled_context_may_return_runtime :
  ~ (forall (n : RuntimeHostNode.t) (ctx : Context) (err : error),
        ctx = Some err ->
        forall r, In r (WaitHostedRuntime n ctx) -> r = (None, Some err)).
Proof.
  intro H.
  pose (n1 := fst (ProvisionHostedRuntime Example.multi_New Example.node0)).
  specialize (H n1 (Some "context canceled"%string) _ eq_refl
                (Some (host.NewRichRuntime (host.RuntimeRef 100)), None)).
  assert (Hin : In (Some (host.NewRichRuntime (host.RuntimeRef 100)), None)
                  (WaitHostedRuntime n1 (Some "context canceled"%string)))
    by (cbv; right; left; reflexivity).
  specialize (H Hin). discriminate H.
Qed.

(** C3, amended. With a context that is not canceled, [WaitHostedRuntime]
    stays blocked while the latch is open, also after the locked region of
    [ProvisionHostedRuntime] and before its [close], and returns the
    provisioned runtime and no error once [ProvisionHostedRuntime] has
    returned it. With a canceled context it never blocks: while the latch is
    open it returns the cancellation error and no runtime; once the latch is
    closed either case of the [select] may be taken, so it returns the
    cancellation error or the runtime. *)
Theorem C3_wait_hosted_runtime
  (multi_New : Namespace -> list (version.Version * host.Runtime) -> result host.Runtime)
  (n : RuntimeHostNode.t) :
  (RuntimeHostNode.runtimeNotify n = Open -> WaitHostedRuntime n None = [])
  /\ (forall n' rr nt,
        ProvisionHostedRuntime multi_New n = (n', Done (Some rr, Some nt, None)) ->
        WaitHostedRuntime n None = []
        /\ (forall agg, WaitHostedRuntime (install n agg rr nt) None = [])
        /\ WaitHostedRuntime n' None = [(Some rr, None)])
  /\ (forall err, RuntimeHostNode.runtimeNotify n = Open ->
        WaitHostedRuntime n (Some err) = [(None, Some err)])
  /\ (forall err, RuntimeHostNode.runtimeNotify n = Closed ->
        WaitHostedRuntime n (Some err)
        = [(None, Some err); (RuntimeHostNode.runtime n, None)]).
Proof.
  unfold WaitHostedRuntime, select, GetHostedRuntime.
  repeat split.
  - intro H; rewrite H; reflexivity.
  - destruct (ProvisionHostedRuntime_success _ _ H) as [agg [_ [Hopen _]]].
    rewrite Hopen; reflexivity.
  - intro agg.
    destruct (ProvisionHostedRuntime_success _ _ H) as [_ [_ [Hopen _]]].
    cbn. rewrite Hopen; reflexivity.
  - destruct (ProvisionHostedRuntime_success _ _ H)
      as [agg [_ [_ [Hrt [_ [_ Hclosed]]]]]].
    rewrite Hclosed, Hrt; reflexivity.
  - intros err H; rewrite H; reflexivity.
  - intros err H; rewrite H; reflexivity.
Qed.

(** C3 on the example node, before and after it is provisioned. *)
Lemma C3_wait_hosted_runtime_witness :
  WaitHostedRuntime Example.node0 None = []
  /\ WaitHostedRuntime (fst (ProvisionHostedRuntime Example.multi_New Example.node0)) None
     = [(Some (host.NewRichRuntime (host.RuntimeRef 100)), None)]
  /\ WaitHostedRuntime Example.node0 (Some "context canceled"%string)
     = [(None, Some "context canceled"%string)].
Proof.
  pose proof (C3_wait_hosted_runtime Example.multi_New Example.node0) as [H1 [H2 [H3 _]]].
  split; [exact (H1 eq_refl)|].
  split; [exact (proj2 (proj2 (H2 _ _ _ eq_refl)))|].
  exact (H3 _ eq_refl).
Defined.

(** C10. On a node whose latch is already closed, as it is after a
    [ProvisionHostedRuntime] that returned a runtime, every
    [ProvisionHostedRuntime] that gets as far as the locked region overwrites
    the node's fields and then panics on closing the closed latch. *)
Theorem C10_second_provision_panics
  (multi_New : Namespace -> list (version.Version * host.Runtime) -> result host.Runtime)
  (n : RuntimeHostNode.t) :
  forall n1 rr nt,
    ProvisionHostedRuntime multi_New n = (n1, Done (Some rr, Some nt, None)) ->
    RuntimeHostNode.runtimeNotify n1 = Closed
    /\ forall multi_New' n2 agg' rr' nt',
         RuntimeHostNode.runtimeNotify n2 = RuntimeHostNode.runtimeNotify n1 ->
         provision multi_New' n2 = Ok (agg', rr', nt') ->
         ProvisionHostedRuntime multi_New' n2
         = (install n2 agg' rr' nt', Panic "close of closed channel").
Proof.
  intros n1 rr nt H.
  destruct (ProvisionHostedRuntime_success _ _ H) as [agg [_ [_ [_ [_ [_ Hclosed]]]]]].
  split; [exact Hclosed|].
  intros multi_New' n2 agg' rr' nt' Hsame Hprov.
  unfold ProvisionHostedRuntime. rewrite Hprov.
  unfold closeRuntimeNotify, install; cbn. rewrite Hsame, Hclosed. reflexivity.
Qed.

(** C10 on the example node: provisioned twice. *)
Lemma C10_second_provision_panics_witness :
  snd (ProvisionHostedRuntime Example.multi_New
         (fst (ProvisionHostedRuntime Example.multi_New Example.node0)))
  = Panic "close of closed channel".
Proof.
  pose proof (C10_second_provision_panics Example.multi_New Example.node0 eq_refl)
    as [_ H].
  rewrite (H Example.multi_New
             (fst (ProvisionHostedRuntime Example.multi_New Example.node0))
             _ _ _ eq_refl eq_refl).
  reflexivity.
Defined.

(** ** The key manager policy watch *)

Section PolicyWatchProperties.

Variable cbor_Marshal : option keymanager.SignedPolicySGX -> bytes.
Variable cbor_Unmarshal : bytes -> result node.SGXConstraints.
Variable ActiveDeployment : registry.Runtime -> Z -> option registry.VersionInfo.
Variable VersionInfo_Equal : option registry.VersionInfo -> option registry.VersionInfo -> bool.
Variable rtInfo : RuntimeInfoResponse.
Variable kmRtID : Namespace.

Local Notation "'turn'" :=
  (kmTurn cbor_Marshal cbor_Unmarshal ActiveDeployment VersionInfo_Equal rtInfo kmRtID).
Local Notation "'loop'" :=
  (kmLoop cbor_Marshal cbor_Unmarshal ActiveDeployment VersionInfo_Equal rtInfo kmRtID).
Local Notation "'watch'" :=
  (watchKmPolicyUpdates cbor_Marshal cbor_Unmarshal ActiveDeployment VersionInfo_Equal).

Lemma lastStatus_snoc seen e acc :
  lastStatus kmRtID (seen ++ [e]) acc
  = match e with
    | onStatus newSt =>
        if Namespace_Equal (keymanager.ID newSt) kmRtID then Some newSt
        else lastStatus kmRtID seen acc
    | _ => lastStatus kmRtID seen acc
    end.
Proof.
  unfold lastStatus. rewrite fold_left_app. cbn. destruct e; reflexivity.
Qed.

Lemma observedConstraints_snoc seen e c :
  observedConstraints cbor_Unmarshal ActiveDeployment seen c -> observedConstraints cbor_Unmarshal ActiveDeployment (seen ++ [e]) c.
Proof.
  intros [epoch [dsc [v [Hin H]]]]. exists epoch, dsc, v.
  split; [apply in_or_app; left; exact Hin | exact H].
Qed.

Lemma kmInv_snoc_same seen e s :
  (forall newSt, e = onStatus newSt -> Namespace_Equal (keymanager.ID newSt) kmRtID = false) ->
  kmInv cbor_Unmarshal ActiveDeployment kmRtID seen s -> kmInv cbor_Unmarshal ActiveDeployment kmRtID (seen ++ [e]) s.
Proof.
  intros Hother [Hst Hsc]. split.
  - rewrite lastStatus_snoc, Hst. destruct e; try reflexivity.
    now rewrite (Hother _ eq_refl).
  - intros c Hc. destruct (Hsc c Hc) as [Hp Hobs].
    split; [exact Hp | apply observedConstraints_snoc; exact Hobs].
Qed.

Lemma kmTurn_inv seen s e c s' out :
  kmInv cbor_Unmarshal ActiveDeployment kmRtID seen s -> turn s e = Done (c, s', out) -> kmInv cbor_Unmarshal ActiveDeployment kmRtID (seen ++ [e]) s'.
Proof.
  intros Hinv. unfold kmTurn. destruct e as [|newSt|epoch dsc|ev].
  - intro H; injection H as <- <- <-. apply kmInv_snoc_same; [discriminate | exact Hinv].
  - destruct (Namespace_Equal (keymanager.ID newSt) kmRtID) eqn:Heq; cbn;
      intro H; injection H as <- <- <-.
    + destruct Hinv as [Hst Hsc]. split.
      * rewrite lastStatus_snoc, Heq. reflexivity.
      * intros c' Hc'. destruct (Hsc c' Hc') as [Hp Hobs].
        split; [exact Hp | apply observedConstraints_snoc; exact Hobs].
    + apply kmInv_snoc_same; [|exact Hinv].
      intros newSt' H; injection H as <-. exact Heq.
  - assert (Hsame : kmInv cbor_Unmarshal ActiveDeployment kmRtID (seen ++ [onEpoch epoch dsc]) s)
      by (apply kmInv_snoc_same; [discriminate | exact Hinv]).
    destruct (KeyManagerQuotePolicyUpdates (Features_ rtInfo)); cbn;
      [|intro H; injection H as <- <- <-; exact Hsame].
    destruct dsc as [dsc|err]; [|intro H; injection H as <- <- <-; exact Hsame].
    destruct (registry.TEEHardware dsc);
      try (intro H; injection H as <- <- <-; exact Hsame).
    destruct (VersionInfo_Equal (ActiveDeployment dsc epoch) (vi s));
      [intro H; injection H as <- <- <-; exact Hsame|].
    cbn. destruct (ActiveDeployment dsc epoch) as [v|] eqn:Hv; [|intro H; discriminate H].
    destruct (cbor_Unmarshal (registry.TEE v)) as [newSc|err] eqn:Hdec.
    + unfold updateKeyManagerQuotePolicy.
      destruct (node.Policy newSc) as [p|] eqn:Hp; [|intro H; discriminate H].
      intro H; injection H as <- <- <-. destruct Hsame as [Hst Hsc]. split.
      * exact Hst.
      * cbn. intros c' Hc'; injection Hc' as <-. split; [eexists; exact Hp|].
        exists epoch, dsc, v. split; [apply in_or_app; right; left; reflexivity|].
        split; assumption.
    + intro H; injection H as <- <- <-. destruct Hsame as [Hst Hsc]. split; assumption.
  - assert (Hsame : kmInv cbor_Unmarshal ActiveDeployment kmRtID (seen ++ [onHostEvent ev]) s)
      by (apply kmInv_snoc_same; [discriminate | exact Hinv]).
    destruct (host.Started ev), (host.Updated ev), (sc s) as [c0|];
      try (destruct (updateKeyManagerQuotePolicy (node.Policy c0)));
      intro H; try discriminate H; injection H as <- <- <-; exact Hsame.
Qed.


Lemma kmInv_start : kmInv cbor_Unmarshal ActiveDeployment kmRtID [] kmVars0.
Proof. split; [reflexivity | intros c H; discriminate H]. Qed.

(** The two requests of the notifier populate their own variant and no other. *)
Lemma policyUpdate_variant policy :
  protocol.Body.RuntimeKeyManagerPolicyUpdateRequest (policyUpdate cbor_Marshal policy)
  = Some {| protocol.RuntimeKeyManagerPolicyUpdateRequest.SignedPolicyRaw :=
              cbor_Marshal policy |}
  /\ protocol.Body.RuntimeKeyManagerQuotePolicyUpdateRequest
       (policyUpdate cbor_Marshal policy) = None
  /\ requestVariants (policyUpdate cbor_Marshal policy) = []
  /\ responseVariants (policyUpdate cbor_Marshal policy) = [].
Proof. repeat split. Qed.

Lemma quotePolicyUpdate_variant policy :
  protocol.Body.RuntimeKeyManagerQuotePolicyUpdateRequest (quotePolicyUpdate policy)
  = Some {| protocol.RuntimeKeyManagerQuotePolicyUpdateRequest.Policy := policy |}
  /\ protocol.Body.RuntimeKeyManagerPolicyUpdateRequest (quotePolicyUpdate policy) = None
  /\ requestVariants (quotePolicyUpdate policy) = []
  /\ responseVariants (quotePolicyUpdate policy) = [].
Proof. repeat split. Qed.

Lemma kmLoop_app events1 : forall s calls s1 calls1 events2,
  loop s calls events1 = Done (Continue, s1, calls1) ->
  loop s calls (events1 ++ events2) = loop s1 calls1 events2.
Proof.
  induction events1 as [|e events1 IH]; intros s calls s1 calls1 events2;
    cbn [kmLoop app].
  - intro H; injection H as <- <-. reflexivity.
  - destruct (turn s e) as [[[c s'] out]|msg]; [|intro H; discriminate H].
    destruct c; [|intro H; discriminate H].
    apply IH.
Qed.

Lemma kmLoop_one s calls e :
  loop s calls [e]
  = match turn s e with
    | Panic msg => Panic msg
    | Done (c, s', out) => Done (c, s', (calls ++ out)%list)
    end.
Proof. cbn [kmLoop]. destruct (turn s e) as [[[[|] s'] out]|msg]; reflexivity. Qed.

(** Once the set-up calls have succeeded, [watchKmPolicyUpdates] is its loop. *)
Lemma watchKmPolicyUpdates_loop setup events s calls :
  GetInfo setup = Ok rtInfo ->
  watch (Some kmRtID) setup events = Done (Continue, s, calls) ->
  forall events', watch (Some kmRtID) setup events' = loop kmVars0 [] events'.
Proof.
  unfold watchKmPolicyUpdates. intros ->.
  destruct (WatchEpochs setup); [intro H; discriminate H|].
  destruct (WatchEvents setup); [intro H; discriminate H|].
  reflexivity.
Qed.

(** What the function does on one more event, when it is back in the [select]
    after [events]. *)
Lemma watchKmPolicyUpdates_snoc setup events s calls e :
  GetInfo setup = Ok rtInfo ->
  watch (Some kmRtID) setup events = Done (Continue, s, calls) ->
  watch (Some kmRtID) setup (events ++ [e])
  = match turn s e with
    | Panic msg => Panic msg
    | Done (c, s', out) => Done (c, s', (calls ++ out)%list)
    end.
Proof.
  intros Hinfo Hrun.
  pose proof (@watchKmPolicyUpdates_loop setup events s calls Hinfo Hrun) as Hloop.
  rewrite Hloop in Hrun. rewrite Hloop.
  rewrite (@kmLoop_app events kmVars0 [] s calls [e] Hrun).
  apply kmLoop_one.
Qed.





Lemma kmTurn_no_epoch s e c s' out :
  notEpoch e = true -> turn s e = Done (c, s', out) -> sc s' = sc s /\ vi s' = vi s.
Proof.
  unfold kmTurn. destruct e as [|newSt|epoch dsc|ev]; intro Hne; try discriminate Hne.
  - intro H; injection H as _ <- _. split; reflexivity.
  - destruct (Namespace_Equal (keymanager.ID newSt) kmRtID); cbn;
      intro H; injection H as _ <- _; split; reflexivity.
  - destruct (host.Started ev), (host.Updated ev), (sc s) as [c0|] eqn:Hc0;
      try destruct (updateKeyManagerQuotePolicy (node.Policy c0));
      intro H; try discriminate H; injection H as _ <- _;
      split; first [reflexivity | exact Hc0].
Qed.


(** What the loop does on an epoch, by the guards of its case. *)
Lemma kmTurn_epoch (s : kmVars) (epoch : Z) (dscRes : result registry.Runtime) :
  (forall dsc v c p,
      KeyManagerQuotePolicyUpdates (Features_ rtInfo) = true ->
      dscRes = Ok dsc ->
      registry.TEEHardware dsc = node.TEEHardwareIntelSGX ->
      ActiveDeployment dsc epoch = Some v ->
      VersionInfo_Equal (Some v) (vi s) = false ->
      cbor_Unmarshal (registry.TEE v) = Ok c ->
      node.Policy c = Some p ->
      turn s (onEpoch epoch dscRes)
      = Done (Continue, {| st := st s; sc := Some c; vi := Some v |}, [quotePolicyUpdate p]))
  /\ (forall ctl s' out,
        turn s (onEpoch epoch dscRes) = Done (ctl, s', out) ->
        out <> [] ->
        exists dsc v c p,
          KeyManagerQuotePolicyUpdates (Features_ rtInfo) = true
          /\ dscRes = Ok dsc
          /\ registry.TEEHardware dsc = node.TEEHardwareIntelSGX
          /\ ActiveDeployment dsc epoch = Some v
          /\ VersionInfo_Equal (Some v) (vi s) = false
          /\ cbor_Unmarshal (registry.TEE v) = Ok c
          /\ node.Policy c = Some p
          /\ out = [quotePolicyUpdate p])
  /\ (KeyManagerQuotePolicyUpdates (Features_ rtInfo) = false
      \/ (exists err, dscRes = Err err)
      \/ (exists dsc, dscRes = Ok dsc
            /\ (registry.TEEHardware dsc <> node.TEEHardwareIntelSGX
                \/ VersionInfo_Equal (ActiveDeployment dsc epoch) (vi s) = true)) ->
      turn s (onEpoch epoch dscRes) = Done (Continue, s, []))
  /\ (forall dsc v err,
        KeyManagerQuotePolicyUpdates (Features_ rtInfo) = true ->
        dscRes = Ok dsc ->
        registry.TEEHardware dsc = node.TEEHardwareIntelSGX ->
        ActiveDeployment dsc epoch = Some v ->
        VersionInfo_Equal (Some v) (vi s) = false ->
        cbor_Unmarshal (registry.TEE v) = Err err ->
        turn s (onEpoch epoch dscRes)
        = Done (Continue, {| st := st s; sc := sc s; vi := Some v |}, []))
  /\ (forall dsc,
        KeyManagerQuotePolicyUpdates (Features_ rtInfo) = true ->
        dscRes = Ok dsc ->
        registry.TEEHardware dsc = node.TEEHardwareIntelSGX ->
        VersionInfo_Equal (ActiveDeployment dsc epoch) (vi s) = false ->
        ActiveDeployment dsc epoch = None
        \/ (exists v c, ActiveDeployment dsc epoch = Some v
                        /\ cbor_Unmarshal (registry.TEE v) = Ok c
                        /\ node.Policy c = None) ->
        turn s (onEpoch epoch dscRes) = Panic "nil pointer dereference").
Proof.
  unfold kmTurn. split; [|split; [|split; [|split]]].
  - intros dsc v c p Hflag -> Hsgx Hv Hneq Hdec Hp.
    rewrite Hflag, Hsgx, Hv, Hneq. cbn. rewrite Hdec. cbn. rewrite Hp. reflexivity.
  - intros ctl s' out.
    destruct (KeyManagerQuotePolicyUpdates (Features_ rtInfo)); cbn;
      [|intro H; injection H as <- <- <-; intro Hout; now contradiction Hout].
    destruct dscRes as [dsc|err];
      [|intro H; injection H as <- <- <-; intro Hout; now contradiction Hout].
    destruct (registry.TEEHardware dsc) eqn:Hhw;
      try (intro H; injection H as <- <- <-; intro Hout; now contradiction Hout).
    destruct (ActiveDeployment dsc epoch) as [v|] eqn:Hv.
    + destruct (VersionInfo_Equal (Some v) (vi s)) eqn:Heq;
        [intro H; injection H as <- <- <-; intro Hout; now contradiction Hout|].
      cbn. destruct (cbor_Unmarshal (registry.TEE v)) as [c|err] eqn:Hdec;
        [|intro H; injection H as <- <- <-; intro Hout; now contradiction Hout].
      cbn. destruct (node.Policy c) as [p|] eqn:Hp; cbn; [|intro H; discriminate H].
      intro H; injection H as <- <- <-. intros _.
      exists dsc, v, c, p. repeat split; assumption.
    + destruct (VersionInfo_Equal None (vi s));
        [intro H; injection H as <- <- <-; intro Hout; now contradiction Hout|].
      intro H; discriminate H.
  - intros [Hflag|[[err ->]|[dsc [-> Hdsc]]]].
    + rewrite Hflag. reflexivity.
    + destruct (KeyManagerQuotePolicyUpdates (Features_ rtInfo)); reflexivity.
    + destruct (KeyManagerQuotePolicyUpdates (Features_ rtInfo)); cbn; [|reflexivity].
      destruct (registry.TEEHardware dsc) eqn:Hhw; try reflexivity.
      destruct Hdsc as [Hsgx|Heq].
      * exfalso; apply Hsgx; reflexivity.
      * rewrite Heq. reflexivity.
  - intros dsc v err Hflag -> Hsgx Hv Hneq Hdec.
    rewrite Hflag, Hsgx, Hv, Hneq. cbn. rewrite Hdec. reflexivity.
  - intros dsc Hflag -> Hsgx Hneq Hnil. rewrite Hflag, Hsgx, Hneq. cbn.
    destruct Hnil as [Hv|[v [c [Hv [Hdec Hp]]]]]; rewrite Hv; [reflexivity|].
    rewrite Hdec. cbn. rewrite Hp. reflexivity.
Qed.


(** C5, amended. Let [watchKmPolicyUpdates] be back in the [select] of its
    loop after the events [events], having sent the requests [calls]. At an
    epoch it then sends a quote policy if and only if the feature flag is set,
    the query for the key manager's descriptor succeeds, its hardware is Intel
    SGX, it has an active deployment for the epoch, that deployment differs
    from the one recorded last, its constraints decode and they carry a
    policy: the loop then records the deployment and the constraints and
    sends the policy of the decoded constraints, and nothing else. When the
    flag is not set, the query fails, the hardware is not Intel SGX or the
    deployment is the one recorded last, the loop sends nothing and keeps its
    variables; when the constraints do not decode it sends nothing and records
    the deployment. When the comparison with the deployment recorded last
    fails and there is no active deployment, or the constraints decode and
    carry no policy, the loop dereferences a nil pointer. The deployment
    recorded last changes at epochs only. *)
Theorem C5_epoch_quote_policy (setup : kmSetup) (events : list kmEvent)
  (s : kmVars) (calls : list protocol.Body.t)
  (epoch : Z) (dscRes : result registry.Runtime) :
  GetInfo setup = Ok rtInfo ->
  watch (Some kmRtID) setup events = Done (Continue, s, calls) ->
  (forall dsc v c p,
      KeyManagerQuotePolicyUpdates (Features_ rtInfo) = true ->
      dscRes = Ok dsc ->
      registry.TEEHardware dsc = node.TEEHardwareIntelSGX ->
      ActiveDeployment dsc epoch = Some v ->
      VersionInfo_Equal (Some v) (vi s) = false ->
      cbor_Unmarshal (registry.TEE v) = Ok c ->
      node.Policy c = Some p ->
      watch (Some kmRtID) setup (events ++ [onEpoch epoch dscRes])
      = Done (Continue, {| st := st s; sc := Some c; vi := Some v |},
              (calls ++ [quotePolicyUpdate p])%list))
  /\ (forall ctl s' calls',
        watch (Some kmRtID) setup (events ++ [onEpoch epoch dscRes])
        = Done (ctl, s', calls') ->
        calls' <> calls ->
        exists dsc v c p,
          KeyManagerQuotePolicyUpdates (Features_ rtInfo) = true
          /\ dscRes = Ok dsc
          /\ registry.TEEHardware dsc = node.TEEHardwareIntelSGX
          /\ ActiveDeployment dsc epoch = Some v
          /\ VersionInfo_Equal (Some v) (vi s) = false
          /\ cbor_Unmarshal (registry.TEE v) = Ok c
          /\ node.Policy c = Some p
          /\ calls' = (calls ++ [quotePolicyUpdate p])%list)
  /\ (KeyManagerQuotePolicyUpdates (Features_ rtInfo) = false
      \/ (exists err, dscRes = Err err)
      \/ (exists dsc, dscRes = Ok dsc
            /\ (registry.TEEHardware dsc <> node.TEEHardwareIntelSGX
                \/ VersionInfo_Equal (ActiveDeployment dsc epoch) (vi s) = true)) ->
      watch (Some kmRtID) setup (events ++ [onEpoch epoch dscRes])
      = Done (Continue, s, calls))
  /\ (forall dsc v err,
        KeyManagerQuotePolicyUpdates (Features_ rtInfo) = true ->
        dscRes = Ok dsc ->
        registry.TEEHardware dsc = node.TEEHardwareIntelSGX ->
        ActiveDeployment dsc epoch = Some v ->
        VersionInfo_Equal (Some v) (vi s) = false ->
        cbor_Unmarshal (registry.TEE v) = Err err ->
        watch (Some kmRtID) setup (events ++ [onEpoch epoch dscRes])
        = Done (Continue, {| st := st s; sc := sc s; vi := Some v |}, calls))
  /\ (forall dsc,
        KeyManagerQuotePolicyUpdates (Features_ rtInfo) = true ->
        dscRes = Ok dsc ->
        registry.TEEHardware dsc = node.TEEHardwareIntelSGX ->
        VersionInfo_Equal (ActiveDeployment dsc epoch) (vi s) = false ->
        ActiveDeployment dsc epoch = None
        \/ (exists v c, ActiveDeployment dsc epoch = Some v
                        /\ cbor_Unmarshal (registry.TEE v) = Ok c
                        /\ node.Policy c = None) ->
        watch (Some kmRtID) setup (events ++ [onEpoch epoch dscRes])
        = Panic "nil pointer dereference")
  /\ (forall e ctl s' calls',
        notEpoch e = true ->
        watch (Some kmRtID) setup (events ++ [e]) = Done (ctl, s', calls') ->
        vi s' = vi s).
Proof.
  intros Hinfo Hwatch.
  rewrite (@watchKmPolicyUpdates_snoc setup events s calls (onEpoch epoch dscRes)
             Hinfo Hwatch).
  destruct (kmTurn_epoch s epoch dscRes) as [Hpush [Honly [Hskip [Hbad Hnil]]]].
  split; [|split; [|split; [|split; [|split]]]].
  - intros dsc v c p Hflag Hdsc Hsgx Hv Hneq Hdec Hp.
    rewrite (Hpush dsc v c p Hflag Hdsc Hsgx Hv Hneq Hdec Hp). reflexivity.
  - intros ctl s' calls'.
    destruct (turn s (onEpoch epoch dscRes)) as [[[c0 s0] out]|msg] eqn:Hturn;
      [|intro H; discriminate H].
    intro H; injection H as <- <- <-. intro Hneq.
    assert (Hout : out <> []).
    { intros ->. apply Hneq. apply app_nil_r. }
    destruct (Honly c0 s0 out eq_refl Hout)
      as [dsc [v [c [p [H1 [H2 [H3 [H4 [H5 [H6 [H7 H8]]]]]]]]]]].
    exists dsc, v, c, p. rewrite H8. repeat split; assumption.
  - intro Hcase. rewrite (Hskip Hcase), app_nil_r. reflexivity.
  - intros dsc v err Hflag Hdsc Hsgx Hv Hneq Hdec.
    rewrite (Hbad dsc v err Hflag Hdsc Hsgx Hv Hneq Hdec), app_nil_r. reflexivity.
  - intros dsc Hflag Hdsc Hsgx Hneq Hcase.
    rewrite (Hnil dsc Hflag Hdsc Hsgx Hneq Hcase). reflexivity.
  - intros e ctl s' calls' He.
    rewrite (@watchKmPolicyUpdates_snoc setup events s calls e Hinfo Hwatch).
    destruct (turn s e) as [[[c0 s0] out]|msg] eqn:Hturn; [|intro H; discriminate H].
    intro H; injection H as _ <- _.
    exact (proj2 (@kmTurn_no_epoch _ _ _ _ _ He Hturn)).
Qed.

End PolicyWatchProperties.


(** A quote policy is pushed at an epoch exactly when the feature flag is set,
    the hardware is Intel SGX and the active deployment changed: not so, when
    the constraints of the new deployment do not decode the loop sends
    nothing. *)
Lemma C5_undecodable_constraints_are_not_pushed :
  ~ (forall cbor_Marshal cbor_Unmarshal ActiveDeployment VersionInfo_Equal
            rtInfo kmRtID setup events s calls epoch dsc ctl s' calls',
        GetInfo setup = Ok rtInfo ->
        watchKmPolicyUpdates cbor_Marshal cbor_Unmarshal ActiveDeployment
          VersionInfo_Equal (Some kmRtID) setup events = Done (Continue, s, calls) ->
        watchKmPolicyUpdates cbor_Marshal cbor_Unmarshal ActiveDeployment
          VersionInfo_Equal (Some kmRtID) setup (events ++ [onEpoch epoch (Ok dsc)])
        = Done (ctl, s', calls') ->
        (calls' <> calls
         <-> KeyManagerQuotePolicyUpdates (Features_ rtInfo) = true
             /\ registry.TEEHardware dsc = node.TEEHardwareIntelSGX
             /\ VersionInfo_Equal (ActiveDeployment dsc epoch) (vi s) = false)).
Proof.
  intro H.
  specialize (H Example.marshal Example.unmarshal Example.activeDeployment
                Example.versionInfoEqual Example.rtInfo Example.kmRtID
                Example.setup [] kmVars0 [] 1%Z (Example.descriptor []) _ _ _
                eq_refl eq_refl eq_refl).
  destruct H as [_ H]. apply H; [|reflexivity].
  repeat split.
Qed.

(** C5 on the example key manager: constraints that decode are pushed. *)
Lemma C5_epoch_quote_policy_witness :
  watchKmPolicyUpdates Example.marshal Example.unmarshal Example.activeDeployment
    Example.versionInfoEqual (Some Example.kmRtID) Example.setup
    ([onStatus Example.status]
     ++ [onEpoch 1 (Ok (Example.descriptor (Example.b 5)))])
  = Done (Continue,
          {| st := Some Example.status;
             sc := Some {| node.Enclaves := [];
                           node.Policy := Some (quote.MkPolicy (Example.b 5)) |};
             vi := Some (Example.deployment (Example.b 5)) |},
          [policyUpdate Example.marshal (keymanager.Policy Example.status);
           quotePolicyUpdate (quote.MkPolicy (Example.b 5))]).
Proof.
  exact (proj1 (@C5_epoch_quote_policy Example.marshal Example.unmarshal
                  Example.activeDeployment Example.versionInfoEqual
                  Example.rtInfo Example.kmRtID Example.setup
                  [onStatus Example.status] _ _ 1
                  (Ok (Example.descriptor (Example.b 5))) eq_refl eq_refl)
           _ _ _ _ eq_refl eq_refl eq_refl eq_refl eq_refl eq_refl eq_refl).
Defined.

(** ** The write log service *)

Lemma toPb_id e : storage.toPb e = e.
Proof. destruct e; reflexivity. Qed.

Lemma unskipped_false key es : unskipped key false es = es.
Proof. destruct es; reflexivity. Qed.

Lemma delivered_cons r rs : delivered (r :: rs) = (storage.Log r ++ delivered rs)%list.
Proof. reflexivity. Qed.

Lemma delivered_app rs1 rs2 : delivered (rs1 ++ rs2) = (delivered rs1 ++ delivered rs2)%list.
Proof. unfold delivered. rewrite map_app, concat_app. reflexivity. Qed.

Lemma chunk_full_iff (entryArray : list api.LogEntry) (e : api.LogEntry) :
  (List.length entryArray < 10)%nat ->
  (Z.of_nat (List.length (entryArray ++ [e])) >=? storage.WriteLogIteratorChunkSize)%Z
  = (List.length entryArray =? 9)%nat.
Proof.
  intro H. rewrite length_app, Nat.add_1_r. unfold storage.WriteLogIteratorChunkSize.
  destruct (Nat.eqb_spec (List.length entryArray) 9) as [E|E].
  - rewrite E. reflexivity.
  - rewrite Z.geb_leb. apply Z.leb_gt. lia.
Qed.

(** The shape of what is sent, from any point of the loops. *)
Lemma sendChunks_shape (s : storage.writeLogService) (it : api.WriteLogIterator) :
  forall skipping totalSent entryArray sent,
    (List.length entryArray < 10)%nat ->
    exists rs err,
      storage.sendChunks s it skipping totalSent entryArray sent = ((sent ++ rs)%list, err)
      /\ match err with
         | Some _ => Forall fullChunk rs
         | None =>
             exists rs' last,
               rs = (rs' ++ [last])%list
               /\ Forall fullChunk rs'
               /\ (List.length (storage.Log last) < 10)%nat
         end.
Proof.
  induction it as [|step it IH]; intros skipping totalSent entryArray sent Hlen;
    cbn [storage.sendChunks].
  - destruct (storage.send s sent _) as [err|].
    + exists [], (Some err). rewrite app_nil_r. split; [reflexivity | constructor].
    + eexists [_], None. split; [reflexivity|].
      exists [], {| storage.Final := true; storage.Log := entryArray |}.
      repeat split; [constructor | exact Hlen].
  - destruct step as [entry|err|err];
      try (exists [], (Some err); rewrite app_nil_r; split; [reflexivity | constructor]).
    destruct skipping; [apply IH; exact Hlen|].
    rewrite chunk_full_iff by exact Hlen.
    destruct (Nat.eqb_spec (List.length entryArray) 9) as [E|E].
    + destruct (storage.send s sent _) as [err|].
      * exists [], (Some err). rewrite app_nil_r. split; [reflexivity | constructor].
      * destruct (IH false ((totalSent + 1) mod 2 ^ 64)%Z []
                    (sent ++ [{| storage.Final := false;
                                 storage.Log := entryArray ++ [storage.toPb entry] |}])%list)
          as [rs [err [Hrun Hshape]]]; [cbn; lia|].
        assert (Hfull : fullChunk {| storage.Final := false;
                                     storage.Log := (entryArray ++ [storage.toPb entry])%list |})
          by (split; [reflexivity | cbn; rewrite length_app, E; reflexivity]).
        eexists (_ :: rs), err. rewrite Hrun, <- app_assoc. split; [reflexivity|].
        destruct err as [err|].
        -- constructor; assumption.
        -- destruct Hshape as [rs' [last [-> [Hrs' Hlast]]]].
           eexists (_ :: rs'), last. repeat split; [constructor; assumption | exact Hlast].
    + destruct ((storage.GetLimit (storage.opts s) >? 0)
                && ((totalSent + 1) mod 2 ^ 64 >=? storage.GetLimit (storage.opts s)))%Z.
      * destruct (storage.send s sent _) as [err|].
        -- exists [], (Some err). rewrite app_nil_r. split; [reflexivity | constructor].
        -- eexists [_], None. split; [reflexivity|].
           eexists [], _. repeat split; [constructor|].
           cbn. rewrite length_app. cbn. lia.
      * apply IH. rewrite length_app. cbn. lia.
Qed.

(** X1. Every response that [SendWriteLogIterator] sends before its last one is a
    full chunk of ten entries that is not final. When it returns no error the
    last response holds fewer than ten entries; when it returns an error, all
    responses sent are such full chunks. This holds for every iterator, every
    stream and all options. *)
Theorem SendWriteLogIterator_chunks (s : storage.writeLogService) :
  exists rs err,
    storage.SendWriteLogIterator s = (rs, err)
    /\ match err with
       | Some _ => Forall fullChunk rs
       | None =>
           exists rs' last,
             rs = (rs' ++ [last])%list
             /\ Forall fullChunk rs'
             /\ (List.length (storage.Log last) < 10)%nat
       end.
Proof.
  unfold storage.SendWriteLogIterator.
  destruct (sendChunks_shape s (storage.iterator s)
              (negb (List.length (storage.GetOffsetKey (storage.opts s)) =? 0)%nat)
              0%Z [] []) as [rs [err [Hrun Hshape]]]; [cbn; lia|].
  exists rs, err. split; [exact Hrun | exact Hshape].
Qed.

Lemma skipping_step key (entry : api.LogEntry) :
  (if bytes_Equal (api.Key entry) key then false else true)
  = negb (bytes_Equal (api.Key entry) key).
Proof. destruct (bytes_Equal _ _); reflexivity. Qed.

(** Without limit, on a healthy stream and an iterator that does not fail. *)
Lemma sendChunks_all (s : storage.writeLogService) :
  healthy s ->
  (storage.GetLimit (storage.opts s) <= 0)%Z ->
  forall es skipping totalSent entryArray sent,
    (List.length entryArray < 10)%nat ->
    exists rs last,
      storage.sendChunks s (map api.itEntry es) skipping totalSent entryArray sent
      = ((sent ++ rs ++ [last])%list, None)
      /\ delivered (rs ++ [last])
         = (entryArray ++ unskipped (storage.GetOffsetKey (storage.opts s)) skipping es)%list
      /\ Forall fullChunk rs
      /\ storage.Final last = true.
Proof.
  intros Hsend Hlimit.
  assert (Hnolimit : forall t, ((storage.GetLimit (storage.opts s) >? 0)
                                && (t >=? storage.GetLimit (storage.opts s)))%Z = false)
    by (intro t; replace (storage.GetLimit (storage.opts s) >? 0)%Z with false;
        [reflexivity | symmetry; rewrite Z.gtb_ltb; apply Z.ltb_ge; exact Hlimit]).
  induction es as [|e es IH]; intros skipping totalSent entryArray sent Hlen;
    cbn [storage.sendChunks map unskipped].
  - rewrite Hsend. exists [], {| storage.Final := true; storage.Log := entryArray |}.
    split; [reflexivity|]. split; [|split; [constructor | reflexivity]].
    unfold delivered; cbn. destruct skipping; reflexivity.
  - destruct skipping.
    + rewrite skipping_step. apply IH; exact Hlen.
    + rewrite chunk_full_iff by exact Hlen.
      destruct (Nat.eqb_spec (List.length entryArray) 9) as [E|E].
      * rewrite Hsend.
        destruct (IH false ((totalSent + 1) mod 2 ^ 64)%Z []
                    (sent ++ [{| storage.Final := false;
                                 storage.Log := entryArray ++ [storage.toPb e] |}])%list)
          as [rs [last [Hrun [Hdel [Hfull Hfinal]]]]]; [cbn; lia|].
        eexists (_ :: rs), last. rewrite Hrun, <- app_assoc. split; [reflexivity|].
        split; [|split; [|exact Hfinal]].
        -- change ((?r :: rs) ++ [last])%list with (r :: (rs ++ [last]))%list.
           rewrite delivered_cons, Hdel, unskipped_false, toPb_id. cbn.
           rewrite <- app_assoc. reflexivity.
        -- constructor; [|exact Hfull].
           split; [reflexivity | cbn; rewrite length_app, E; reflexivity].
      * rewrite Hnolimit.
        destruct (IH false ((totalSent + 1) mod 2 ^ 64)%Z
                    (entryArray ++ [storage.toPb e])%list sent)
          as [rs [last [Hrun [Hdel [Hfull Hfinal]]]]];
          [rewrite length_app; cbn; lia|].
        exists rs, last. split; [exact Hrun|]. split; [|split; assumption].
        rewrite Hdel, unskipped_false, toPb_id, <- app_assoc. reflexivity.
Qed.

(** With a limit, on a healthy stream and an iterator that does not fail:
    [totalSent] entries were appended so far, fewer than the cutoff. *)
Lemma sendChunks_limited (s : storage.writeLogService) :
  healthy s ->
  (0 < storage.GetLimit (storage.opts s))%Z ->
  forall es skipping totalSent entryArray sent,
    (0 <= totalSent < cutoff (storage.GetLimit (storage.opts s)))%Z ->
    (totalSent + Z.of_nat (List.length es) < 2 ^ 64)%Z ->
    (totalSent mod 10 = Z.of_nat (List.length entryArray))%Z ->
    exists rs,
      storage.sendChunks s (map api.itEntry es) skipping totalSent entryArray sent
      = ((sent ++ rs)%list, None)
      /\ delivered rs
         = (entryArray
            ++ firstn (Z.to_nat (cutoff (storage.GetLimit (storage.opts s)) - totalSent))
                 (unskipped (storage.GetOffsetKey (storage.opts s)) skipping es))%list.
Proof.
  intros Hsend Hlimit.
  set (limit := storage.GetLimit (storage.opts s)) in *.
  induction es as [|e es IH]; intros skipping totalSent entryArray sent Ht Hwrap Hchunk;
    cbn [storage.sendChunks map unskipped].
  - rewrite Hsend. eexists [_]. split; [reflexivity|].
    unfold delivered; cbn. destruct skipping; rewrite firstn_nil; reflexivity.
  - cbn [List.length] in Hwrap.
    destruct skipping.
    + rewrite skipping_step. apply IH; [exact Ht | lia | exact Hchunk].
    + assert (Hlen : (List.length entryArray < 10)%nat)
        by (pose proof (Z.mod_pos_bound totalSent 10); lia).
      assert (Hnext : ((totalSent + 1) mod 2 ^ 64 = totalSent + 1)%Z)
        by (apply Z.mod_small; lia).
      rewrite chunk_full_iff by exact Hlen. rewrite Hnext. fold limit.
      assert (Htake : Z.to_nat (cutoff limit - totalSent)
                      = S (Z.to_nat (cutoff limit - (totalSent + 1)))) by lia.
      rewrite Htake. cbn [firstn].
      assert (Hcut : (cutoff limit mod 10 <> 0)%Z /\ (limit <= cutoff limit <= limit + 1)%Z).
      { unfold cutoff, storage.WriteLogIteratorChunkSize.
        destruct (Z.eqb_spec (limit mod 10) 0) as [E0|E0]; split; try lia.
        rewrite <- Zplus_mod_idemp_l, E0. discriminate. }
      destruct (Nat.eqb_spec (List.length entryArray) 9) as [E|E].
      * rewrite Hsend.
        assert (Hmod : ((totalSent + 1) mod 10 = 0)%Z).
        { rewrite <- Zplus_mod_idemp_l, Hchunk, E. reflexivity. }
        destruct (IH false (totalSent + 1)%Z []
                    (sent ++ [{| storage.Final := false;
                                 storage.Log := entryArray ++ [storage.toPb e] |}])%list)
          as [rs [Hrun Hdel]].
        -- split; [lia|]. destruct (Z.eq_dec (totalSent + 1) (cutoff limit)) as [Eq|Ne];
             [rewrite Eq in Hmod; tauto | lia].
        -- lia.
        -- exact Hmod.
        -- eexists (_ :: rs). rewrite Hrun, <- app_assoc. split; [reflexivity|].
           rewrite delivered_cons, Hdel, unskipped_false, toPb_id. cbn.
           rewrite <- app_assoc. reflexivity.
      * assert (Hmod : ((totalSent + 1) mod 10 = Z.of_nat (List.length entryArray) + 1)%Z).
        { rewrite <- Zplus_mod_idemp_l, Hchunk. apply Z.mod_small. lia. }
        replace (limit >? 0)%Z with true by (symmetry; apply Z.gtb_lt; exact Hlimit).
        cbn [andb].
        destruct (Z.geb_spec (totalSent + 1) limit) as [Hge|Hlt].
        -- rewrite Hsend. eexists [_]. split; [reflexivity|].
           assert (Hend : (totalSent + 1 = cutoff limit)%Z).
           { destruct (Z.eq_dec (totalSent + 1) limit) as [Eq|Ne]; [|lia].
             unfold cutoff, storage.WriteLogIteratorChunkSize in *.
             destruct (Z.eqb_spec (limit mod 10) 0) as [E0|E0]; [|lia].
             rewrite Eq, E0 in Hmod. lia. }
           rewrite Hend, Z.sub_diag. cbn [Z.to_nat firstn].
           unfold delivered; cbn. rewrite toPb_id, app_nil_r. reflexivity.
        -- destruct (IH false (totalSent + 1)%Z (entryArray ++ [storage.toPb e])%list sent)
             as [rs [Hrun Hdel]].
           ++ lia.
           ++ lia.
           ++ rewrite Hmod, length_app. cbn. lia.
           ++ exists rs. split; [exact Hrun|].
              rewrite Hdel, unskipped_false, toPb_id, <- app_assoc. reflexivity.
Qed.

Lemma bytes_Equal_eq a b : bytes_Equal a b = true <-> a = b.
Proof.
  unfold bytes_Equal. destruct (list_eq_dec Byte.byte_eq_dec a b); split; intro H;
    try reflexivity; try assumption; try discriminate H; contradiction.
Qed.

Lemma unskipped_found key pre e post :
  (forall x, In x pre -> api.Key x <> key) ->
  api.Key e = key ->
  unskipped key true (pre ++ e :: post) = post.
Proof.
  intros Hpre He. induction pre as [|x pre IH]; cbn.
  - replace (bytes_Equal (api.Key e) key) with true
      by (symmetry; apply bytes_Equal_eq; exact He).
    apply unskipped_false.
  - replace (bytes_Equal (api.Key x) key) with false.
    + apply IH. intros y Hy. apply Hpre. right. exact Hy.
    + symmetry. destruct (bytes_Equal (api.Key x) key) eqn:E; [|reflexivity].
      apply bytes_Equal_eq in E. exfalso. apply (Hpre x); [left; reflexivity | exact E].
Qed.

Lemma unskipped_missing key es :
  (forall x, In x es -> api.Key x <> key) ->
  unskipped key true es = [].
Proof.
  intro Hes. induction es as [|x es IH]; cbn; [reflexivity|].
  replace (bytes_Equal (api.Key x) key) with false.
  - apply IH. intros y Hy. apply Hes. right. exact Hy.
  - symmetry. destruct (bytes_Equal (api.Key x) key) eqn:E; [|reflexivity].
    apply bytes_Equal_eq in E. exfalso. apply (Hes x); [left; reflexivity | exact E].
Qed.

Lemma skipping_of_key (key : bytes) :
  key <> [] -> negb (List.length key =? 0)%nat = true.
Proof. destruct key; [intro H; contradiction H; reflexivity | reflexivity]. Qed.

Lemma SendWriteLogIterator_all_run (s : storage.writeLogService)
  (es : list api.LogEntry) :
  healthy s ->
  storage.GetOffsetKey (storage.opts s) = [] ->
  storage.GetLimit (storage.opts s) = 0%Z ->
  storage.iterator s = map api.itEntry es ->
  exists rs last,
    storage.SendWriteLogIterator s = ((rs ++ [last])%list, None)
    /\ delivered (rs ++ [last]) = es
    /\ Forall fullChunk rs
    /\ storage.Final last = true
    /\ (List.length (storage.Log last) < 10)%nat.
Proof.
  intros Hsend Hkey Hlimit Hit.
  destruct (sendChunks_shape s (storage.iterator s)
              (negb (List.length (storage.GetOffsetKey (storage.opts s)) =? 0)%nat)
              0%Z [] []) as [rs0 [err0 [Hrun0 Hshape]]]; [cbn; lia|].
  unfold storage.SendWriteLogIterator in *. rewrite Hit, Hkey in *.
  destruct (sendChunks_all Hsend (Z.eq_le_incl _ _ Hlimit) es
              (negb (List.length (@nil Byte.byte) =? 0)%nat) 0%Z [] [])
    as [rs [last [Hrun [Hdel [Hfull Hfinal]]]]]; [cbn; lia|].
  rewrite Hkey in Hdel. cbn [app] in Hrun, Hdel, Hrun0.
  exists rs, last. split; [exact Hrun|]. split; [rewrite Hdel; apply unskipped_false|].
  split; [exact Hfull|]. split; [exact Hfinal|].
  rewrite Hrun in Hrun0. injection Hrun0 as <- <-.
  destruct Hshape as [rs' [last' [Heq [_ Hlast]]]].
  apply app_inj_tail in Heq. destruct Heq as [_ <-]. exact Hlast.
Qed.

(** X2. Without offset key and without limit, a healthy stream receives every
    entry of an iterator that does not fail, in the iterator's order: full
    chunks of ten that are not final, then one final response with the fewer
    than ten entries that remain (none, when the number of entries is a
    multiple of ten); no error is returned. *)
Theorem SendWriteLogIterator_delivers_all (s : storage.writeLogService)
  (es : list api.LogEntry) :
  healthy s ->
  storage.GetOffsetKey (storage.opts s) = [] ->
  storage.GetLimit (storage.opts s) = 0%Z ->
  storage.iterator s = map api.itEntry es ->
  exists rs last,
    storage.SendWriteLogIterator s = ((rs ++ [last])%list, None)
    /\ delivered (rs ++ [last]) = es
    /\ Forall fullChunk rs
    /\ storage.Final last = true
    /\ (List.length (storage.Log last) < 10)%nat.
Proof.
  intros Hsend Hkey Hlimit Hit.
  destruct (@SendWriteLogIterator_all_run s es Hsend Hkey Hlimit Hit)
    as [rs [last [Hrun [Hdel [Hfull [Hfinal Hlast]]]]]].
  exists rs, last. split; [exact Hrun|]. split; [exact Hdel|].
  split; [exact Hfull|]. split; [exact Hfinal | exact Hlast].
Qed.

(** Twelve entries are sent as a chunk of ten and a final response of two. *)
Lemma SendWriteLogIterator_delivers_all_witness :
  exists rs last,
    storage.SendWriteLogIterator
      (StorageExample.service None (map api.itEntry StorageExample.entries))
    = ((rs ++ [last])%list, None)
    /\ delivered (rs ++ [last]) = StorageExample.entries
    /\ Forall fullChunk rs
    /\ storage.Final last = true
    /\ (List.length (storage.Log last) < 10)%nat.
Proof.
  exact (@SendWriteLogIterator_delivers_all
           (StorageExample.service None (map api.itEntry StorageExample.entries))
           StorageExample.entries (fun _ _ => eq_refl) eq_refl eq_refl eq_refl).
Defined.

(** X3. With an offset key and without limit, a healthy stream receives exactly
    the entries that follow the first entry with that key: that entry and all
    entries before it are left out. *)
Theorem SendWriteLogIterator_resumes_after_offset (s : storage.writeLogService)
  (pre : list api.LogEntry) (e : api.LogEntry) (post : list api.LogEntry) :
  healthy s ->
  storage.GetOffsetKey (storage.opts s) <> [] ->
  storage.GetLimit (storage.opts s) = 0%Z ->
  storage.iterator s = map api.itEntry (pre ++ e :: post) ->
  (forall x, In x pre -> api.Key x <> storage.GetOffsetKey (storage.opts s)) ->
  api.Key e = storage.GetOffsetKey (storage.opts s) ->
  exists rs last,
    storage.SendWriteLogIterator s = ((rs ++ [last])%list, None)
    /\ delivered (rs ++ [last]) = post
    /\ storage.Final last = true.
Proof.
  intros Hsend Hkey Hlimit Hit Hpre He.
  unfold storage.SendWriteLogIterator. rewrite Hit, (skipping_of_key Hkey).
  destruct (sendChunks_all Hsend (Z.eq_le_incl _ _ Hlimit) (pre ++ e :: post)
              true 0%Z [] [])
    as [rs [last [Hrun [Hdel [_ Hfinal]]]]]; [cbn; lia|].
  exists rs, last. split; [exact Hrun|]. split; [|exact Hfinal].
  rewrite Hdel. cbn [app]. apply unskipped_found; assumption.
Qed.

(** With offset key 10, the twelve entries are resumed at entry 11. *)
Lemma SendWriteLogIterator_resumes_after_offset_witness :
  exists rs last,
    storage.SendWriteLogIterator
      (StorageExample.service (StorageExample.from (Example.b 10) 0)
         (map api.itEntry StorageExample.entries))
    = ((rs ++ [last])%list, None)
    /\ delivered (rs ++ [last]) = [StorageExample.entry 11; StorageExample.entry 12]
    /\ storage.Final last = true.
Proof.
  refine (@SendWriteLogIterator_resumes_after_offset
            (StorageExample.service (StorageExample.from (Example.b 10) 0)
               (map api.itEntry StorageExample.entries))
            (map StorageExample.entry [1; 2; 3; 4; 5; 6; 7; 8; 9]%N)
            (StorageExample.entry 10)
            [StorageExample.entry 11; StorageExample.entry 12]
            (fun _ _ => eq_refl) _ eq_refl eq_refl _ eq_refl).
  - discriminate.
  - intros x Hx. cbn in Hx.
    repeat (destruct Hx as [<-|Hx]; [discriminate|]). contradiction.
Defined.

(** X4. With an offset key that no entry has, whatever the limit, a healthy stream
    receives a single response, final and empty. *)
Theorem SendWriteLogIterator_offset_not_found (s : storage.writeLogService)
  (es : list api.LogEntry) :
  healthy s ->
  storage.GetOffsetKey (storage.opts s) <> [] ->
  storage.iterator s = map api.itEntry es ->
  (forall x, In x es -> api.Key x <> storage.GetOffsetKey (storage.opts s)) ->
  storage.SendWriteLogIterator s
  = ([{| storage.Final := true; storage.Log := [] |}], None).
Proof.
  intros Hsend Hkey Hit Hes.
  unfold storage.SendWriteLogIterator. rewrite Hit, (skipping_of_key Hkey).
  generalize 0%Z as totalSent. clear Hit.
  induction es as [|x es IH]; intro totalSent; cbn [storage.sendChunks map].
  - rewrite Hsend. reflexivity.
  - replace (bytes_Equal (api.Key x) (storage.GetOffsetKey (storage.opts s)))
      with false.
    + apply IH. intros y Hy. apply Hes. right. exact Hy.
    + symmetry. destruct (bytes_Equal _ _) eqn:E; [|reflexivity].
      apply bytes_Equal_eq in E. exfalso. apply (Hes x); [left; reflexivity | exact E].
Qed.

(** With offset key 99 nothing of the twelve entries is sent. *)
Lemma SendWriteLogIterator_offset_not_found_witness :
  storage.SendWriteLogIterator
    (StorageExample.service (StorageExample.from (Example.b 99) 5)
       (map api.itEntry StorageExample.entries))
  = ([{| storage.Final := true; storage.Log := [] |}], None).
Proof.
  refine (@SendWriteLogIterator_offset_not_found
            (StorageExample.service (StorageExample.from (Example.b 99) 5)
               (map api.itEntry StorageExample.entries))
            StorageExample.entries (fun _ _ => eq_refl) _ eq_refl _).
  - discriminate.
  - intros x Hx. cbn in Hx.
    repeat (destruct Hx as [<-|Hx]; [discriminate|]). contradiction.
Defined.

Lemma cutoff_positive limit : (0 < limit)%Z -> (0 < cutoff limit)%Z.
Proof.
  unfold cutoff. destruct (limit mod storage.WriteLogIteratorChunkSize =? 0)%Z; lia.
Qed.

Lemma SendWriteLogIterator_limit_run (s : storage.writeLogService)
  (es : list api.LogEntry) :
  healthy s ->
  (0 < storage.GetLimit (storage.opts s))%Z ->
  (Z.of_nat (List.length es) < 2 ^ 64)%Z ->
  storage.iterator s = map api.itEntry es ->
  exists rs,
    storage.SendWriteLogIterator s = (rs, None)
    /\ delivered rs
       = firstn (Z.to_nat (cutoff (storage.GetLimit (storage.opts s))))
           (afterOffset (storage.GetOffsetKey (storage.opts s)) es).
Proof.
  intros Hsend Hlimit Hlen Hit.
  unfold storage.SendWriteLogIterator, afterOffset. rewrite Hit.
  destruct (@sendChunks_limited s Hsend Hlimit es
              (negb (List.length (storage.GetOffsetKey (storage.opts s)) =? 0)%nat)
              0%Z [] [])
    as [rs [Hrun Hdel]].
  - pose proof (cutoff_positive Hlimit). lia.
  - lia.
  - reflexivity.
  - exists rs. split; [exact Hrun|]. rewrite Hdel, Z.sub_0_r. reflexivity.
Qed.

(** X5. With a positive limit, a healthy stream receives the first entries that
    follow the offset key, up to the limit when the limit is not a multiple of
    the chunk size, and up to one more than the limit when it is: the limit is
    not tested on the entry that fills a chunk. *)
Theorem SendWriteLogIterator_limit (s : storage.writeLogService)
  (es : list api.LogEntry) :
  healthy s ->
  (0 < storage.GetLimit (storage.opts s))%Z ->
  (Z.of_nat (List.length es) < 2 ^ 64)%Z ->
  storage.iterator s = map api.itEntry es ->
  exists rs,
    storage.SendWriteLogIterator s = (rs, None)
    /\ delivered rs
       = firstn (Z.to_nat (cutoff (storage.GetLimit (storage.opts s))))
           (afterOffset (storage.GetOffsetKey (storage.opts s)) es).
Proof.
  intros Hsend Hlimit Hlen Hit.
  destruct (@SendWriteLogIterator_limit_run s es Hsend Hlimit Hlen Hit) as [rs [Hrun Hdel]].
  exists rs. split; [exact Hrun | exact Hdel].
Qed.

(** With limit 5, five of the twelve entries are sent. *)
Lemma SendWriteLogIterator_limit_witness :
  exists rs,
    storage.SendWriteLogIterator
      (StorageExample.service (StorageExample.from [] 5)
         (map api.itEntry StorageExample.entries))
    = (rs, None)
    /\ delivered rs = map StorageExample.entry [1; 2; 3; 4; 5]%N.
Proof.
  refine (@SendWriteLogIterator_limit
            (StorageExample.service (StorageExample.from [] 5)
               (map api.itEntry StorageExample.entries))
            StorageExample.entries (fun _ _ => eq_refl) eq_refl _ eq_refl).
  cbn. lia.
Defined.

(** X6. With a limit that is a positive multiple of the chunk size, and more
    entries than the limit, a healthy stream receives one entry more than the
    limit. *)
Theorem SendWriteLogIterator_limit_overshoot (s : storage.writeLogService)
  (es : list api.LogEntry) :
  healthy s ->
  storage.GetOffsetKey (storage.opts s) = [] ->
  (0 < storage.GetLimit (storage.opts s))%Z ->
  (storage.GetLimit (storage.opts s) mod storage.WriteLogIteratorChunkSize = 0)%Z ->
  (storage.GetLimit (storage.opts s) < Z.of_nat (List.length es) < 2 ^ 64)%Z ->
  storage.iterator s = map api.itEntry es ->
  exists rs,
    storage.SendWriteLogIterator s = (rs, None)
    /\ Z.of_nat (List.length (delivered rs)) = (storage.GetLimit (storage.opts s) + 1)%Z.
Proof.
  intros Hsend Hkey Hlimit Hmod Hlen Hit.
  destruct (@SendWriteLogIterator_limit_run s es Hsend Hlimit (proj2 Hlen) Hit)
    as [rs [Hrun Hdel]].
  exists rs. split; [exact Hrun|].
  rewrite Hdel, Hkey. unfold afterOffset. cbn [List.length Nat.eqb negb].
  rewrite unskipped_false, length_firstn. unfold cutoff. rewrite Hmod. cbn [Z.eqb]. lia.
Qed.

(** With limit 10, eleven of the twelve entries are sent. *)
Lemma SendWriteLogIterator_limit_overshoot_witness :
  exists rs,
    storage.SendWriteLogIterator
      (StorageExample.service (StorageExample.from [] 10)
         (map api.itEntry StorageExample.entries))
    = (rs, None)
    /\ Z.of_nat (List.length (delivered rs)) = 11%Z.
Proof.
  refine (@SendWriteLogIterator_limit_overshoot
            (StorageExample.service (StorageExample.from [] 10)
               (map api.itEntry StorageExample.entries))
            StorageExample.entries (fun _ _ => eq_refl) eq_refl eq_refl eq_refl _ eq_refl).
  cbn. lia.
Defined.

Lemma sendChunks_iterator_error (s : storage.writeLogService)
  (bad : api.iterStep) (err : error) (rest : api.WriteLogIterator) :
  healthy s ->
  (storage.GetLimit (storage.opts s) <= 0)%Z ->
  failing bad = Some err ->
  forall es skipping totalSent entryArray sent,
    (List.length entryArray < 10)%nat ->
    exists rs lost,
      storage.sendChunks s (map api.itEntry es ++ bad :: rest)
        skipping totalSent entryArray sent
      = ((sent ++ rs)%list, Some err)
      /\ Forall fullChunk rs
      /\ (delivered rs ++ lost)%list
         = (entryArray ++ unskipped (storage.GetOffsetKey (storage.opts s)) skipping es)%list
      /\ (List.length lost < 10)%nat.
Proof.
  intros Hsend Hlimit Hbad.
  assert (Hnolimit : forall t, ((storage.GetLimit (storage.opts s) >? 0)
                                && (t >=? storage.GetLimit (storage.opts s)))%Z = false)
    by (intro t; replace (storage.GetLimit (storage.opts s) >? 0)%Z with false;
        [reflexivity | symmetry; rewrite Z.gtb_ltb; apply Z.ltb_ge; exact Hlimit]).
  induction es as [|e es IH]; intros skipping totalSent entryArray sent Hlen;
    cbn [storage.sendChunks map unskipped app].
  - exists [], entryArray.
    split; [rewrite app_nil_r; destruct bad; cbn in Hbad; try discriminate Hbad;
            injection Hbad as <-; reflexivity|].
    split; [constructor|]. split; [|exact Hlen].
    cbn. rewrite app_nil_r. reflexivity.
  - destruct skipping.
    + rewrite skipping_step. apply IH; exact Hlen.
    + rewrite chunk_full_iff by exact Hlen.
      destruct (Nat.eqb_spec (List.length entryArray) 9) as [E|E].
      * rewrite Hsend.
        destruct (IH false ((totalSent + 1) mod 2 ^ 64)%Z []
                    (sent ++ [{| storage.Final := false;
                                 storage.Log := entryArray ++ [storage.toPb e] |}])%list)
          as [rs [lost [Hrun [Hfull [Hdel Hlost]]]]]; [cbn; lia|].
        eexists (_ :: rs), lost. rewrite Hrun, <- app_assoc. split; [reflexivity|].
        split; [|split; [|exact Hlost]].
        -- constructor; [|exact Hfull].
           split; [reflexivity | cbn; rewrite length_app, E; reflexivity].
        -- rewrite delivered_cons, <- app_assoc, Hdel, unskipped_false, toPb_id. cbn.
           rewrite <- app_assoc. reflexivity.
      * rewrite Hnolimit.
        destruct (IH false ((totalSent + 1) mod 2 ^ 64)%Z
                    (entryArray ++ [storage.toPb e])%list sent)
          as [rs [lost [Hrun [Hfull [Hdel Hlost]]]]];
          [rewrite length_app; cbn; lia|].
        exists rs, lost. split; [exact Hrun|]. split; [exact Hfull|].
        split; [|exact Hlost].
        rewrite Hdel, unskipped_false, toPb_id, <- app_assoc. reflexivity.
Qed.

(** X7. When the iterator fails after some entries, without limit and on a healthy
    stream, the iterator's error is returned; what was sent are full chunks
    that are not final, holding the entries after the offset key in order, and
    the fewer than ten entries read since the last full chunk are not sent. *)
Theorem SendWriteLogIterator_iterator_error (s : storage.writeLogService)
  (es : list api.LogEntry) (bad : api.iterStep) (err : error)
  (rest : api.WriteLogIterator) :
  healthy s ->
  storage.GetLimit (storage.opts s) = 0%Z ->
  failing bad = Some err ->
  storage.iterator s = (map api.itEntry es ++ bad :: rest)%list ->
  exists rs lost,
    storage.SendWriteLogIterator s = (rs, Some err)
    /\ Forall fullChunk rs
    /\ (delivered rs ++ lost)%list
       = afterOffset (storage.GetOffsetKey (storage.opts s)) es
    /\ (List.length lost < 10)%nat.
Proof.
  intros Hsend Hlimit Hbad Hit.
  unfold storage.SendWriteLogIterator, afterOffset. rewrite Hit.
  destruct (@sendChunks_iterator_error s bad err rest Hsend (Z.eq_le_incl _ _ Hlimit)
              Hbad es
              (negb (List.length (storage.GetOffsetKey (storage.opts s)) =? 0)%nat)
              0%Z [] [])
    as [rs [lost [Hrun [Hfull [Hdel Hlost]]]]]; [cbn; lia|].
  exists rs, lost. repeat split; assumption.
Qed.

(** The iterator fails after the twelve entries: ten are sent, two are not. *)
Lemma SendWriteLogIterator_iterator_error_witness :
  exists rs lost,
    storage.SendWriteLogIterator
      (StorageExample.service None
         (map api.itEntry StorageExample.entries ++ [api.itNextErr "broken"%string]))
    = (rs, Some "broken"%string)
    /\ Forall fullChunk rs
    /\ (delivered rs ++ lost)%list = afterOffset [] StorageExample.entries
    /\ (List.length lost < 10)%nat.
Proof.
  exact (@SendWriteLogIterator_iterator_error
           (StorageExample.service None
              (map api.itEntry StorageExample.entries
               ++ [api.itNextErr "broken"%string]))
           StorageExample.entries (api.itNextErr "broken"%string) "broken"%string []
           (fun _ _ => eq_refl) eq_refl eq_refl eq_refl).
Defined.

(** X8. [GetDiff] sends nothing unless both roots decode, the policy allows the
    action "GetDiff" on the namespace of the start root, the backend is
    initialized and it returns an iterator for the two roots: every response
    on the stream comes from [SendWriteLogIterator] on that iterator with the
    options of the request. *)
Theorem GetDiff_sends_only_when_allowed
  (UnmarshalCBOR : bytes -> result api.Root)
  (Send : list storage.WriteLogResponse -> storage.WriteLogResponse -> option error)
  (s : storage.GrpcServer) (req : storage.GetDiffRequest)
  (sent : list storage.WriteLogResponse) (err : option error) :
  storage.GetDiff UnmarshalCBOR Send s req = storage.Returns sent err ->
  sent <> [] ->
  exists startRoot endRoot it,
    UnmarshalCBOR (storage.StartRoot req) = Ok startRoot
    /\ UnmarshalCBOR (storage.EndRoot req) = Ok endRoot
    /\ storage.CheckAccessAllowed s "GetDiff" (api.Namespace startRoot) = None
    /\ api.Initialized (storage.backend s) = Closed
    /\ api.GetDiff (storage.backend s) startRoot endRoot = Ok it
    /\ storage.SendWriteLogIterator
         {| storage.opts := storage.DiffOpts req;
            storage.iterator := it;
            storage.send := Send |} = (sent, err).
Proof.
  unfold storage.GetDiff. intros Hrun Hsent.
  destruct (UnmarshalCBOR (storage.StartRoot req)) as [startRoot|e];
    [|injection Hrun as <- _; contradiction Hsent; reflexivity].
  destruct (UnmarshalCBOR (storage.EndRoot req)) as [endRoot|e];
    [|injection Hrun as <- _; contradiction Hsent; reflexivity].
  destruct (storage.CheckAccessAllowed s "GetDiff" (api.Namespace startRoot)) eqn:Hacc;
    [injection Hrun as <- _; contradiction Hsent; reflexivity|].
  destruct (api.Initialized (storage.backend s)) eqn:Hinit; cbn [ready] in Hrun;
    [discriminate Hrun|].
  destruct (api.GetDiff (storage.backend s) startRoot endRoot) as [it|e] eqn:Hit;
    [|injection Hrun as <- _; contradiction Hsent; reflexivity].
  destruct (storage.SendWriteLogIterator _) as [sent' err'] eqn:Hsvc.
  injection Hrun as <- <-.
  exists startRoot, endRoot, it. repeat split; assumption.
Qed.

(** On the example server a diff in namespace 1 is streamed. *)
Lemma GetDiff_sends_only_when_allowed_witness :
  exists sent err startRoot endRoot it,
    storage.GetDiff StorageExample.unmarshalRoot (fun _ _ => None) StorageExample.server
      {| storage.StartRoot := Example.b 1; storage.EndRoot := Example.b 2;
         storage.DiffOpts := None |}
    = storage.Returns sent err
    /\ sent <> []
    /\ StorageExample.unmarshalRoot (Example.b 1) = Ok startRoot
    /\ StorageExample.unmarshalRoot (Example.b 2) = Ok endRoot
    /\ storage.CheckAccessAllowed StorageExample.server "GetDiff"
         (api.Namespace startRoot) = None
    /\ api.Initialized (storage.backend StorageExample.server) = Closed
    /\ api.GetDiff (storage.backend StorageExample.server) startRoot endRoot = Ok it
    /\ storage.SendWriteLogIterator
         {| storage.opts := None; storage.iterator := it;
            storage.send := fun _ _ => None |} = (sent, err).
Proof.
  do 2 eexists.
  assert (Hrun :
    storage.GetDiff StorageExample.unmarshalRoot (fun _ _ => None) StorageExample.server
      {| storage.StartRoot := Example.b 1; storage.EndRoot := Example.b 2;
         storage.DiffOpts := None |}
    = storage.Returns _ _) by reflexivity.
  assert (Hsent : fst (storage.SendWriteLogIterator
                         (StorageExample.service None
                            (map api.itEntry StorageExample.entries))) <> [])
    by discriminate.
  destruct (@GetDiff_sends_only_when_allowed StorageExample.unmarshalRoot
              (fun _ _ => None) StorageExample.server _ _ _ Hrun Hsent)
    as [startRoot [endRoot [it H]]].
  exists startRoot, endRoot, it. split; [exact Hrun|]. split; [exact Hsent | exact H].
Defined.

(** X9. [GetCheckpoint] end to end: when the root decodes, the policy allows the
    action "GetCheckpoint" on its namespace, the backend is initialized and
    returns an iterator that does not fail, and the stream is healthy, a
    request without options is answered by all entries of the checkpoint in
    order, in full chunks of ten followed by one final response, and no
    error. *)
Theorem GetCheckpoint_streams_checkpoint
  (UnmarshalCBOR : bytes -> result api.Root)
  (Send : list storage.WriteLogResponse -> storage.WriteLogResponse -> option error)
  (s : storage.GrpcServer) (req : storage.GetCheckpointRequest)
  (root : api.Root) (es : list api.LogEntry) :
  UnmarshalCBOR (storage.CheckpointRoot req) = Ok root ->
  storage.CheckAccessAllowed s "GetCheckpoint" (api.Namespace root) = None ->
  api.Initialized (storage.backend s) = Closed ->
  api.GetCheckpoint (storage.backend s) root = Ok (map api.itEntry es) ->
  (forall sent resp, Send sent resp = None) ->
  storage.CheckpointOpts req = None ->
  exists rs last,
    storage.GetCheckpoint UnmarshalCBOR Send s req
    = storage.Returns (rs ++ [last])%list None
    /\ delivered (rs ++ [last]) = es
    /\ Forall fullChunk rs
    /\ storage.Final last = true
    /\ (List.length (storage.Log last) < 10)%nat.
Proof.
  intros Hroot Hacc Hinit Hit Hsend Hopts.
  unfold storage.GetCheckpoint. rewrite Hroot, Hacc, Hinit, Hit, Hopts. cbn [ready].
  destruct (@SendWriteLogIterator_all_run
              {| storage.opts := None; storage.iterator := map api.itEntry es;
                 storage.send := Send |} es Hsend eq_refl eq_refl eq_refl)
    as [rs [last [Hrun H]]].
  rewrite Hrun. exists rs, last. split; [reflexivity | exact H].
Qed.

(** On the example server the checkpoint of namespace 1 is streamed in full. *)
Lemma GetCheckpoint_streams_checkpoint_witness :
  exists rs last,
    storage.GetCheckpoint StorageExample.unmarshalRoot (fun _ _ => None)
      StorageExample.server
      {| storage.CheckpointRoot := Example.b 1; storage.CheckpointOpts := None |}
    = storage.Returns (rs ++ [last])%list None
    /\ delivered (rs ++ [last]) = StorageExample.entries
    /\ Forall fullChunk rs
    /\ storage.Final last = true
    /\ (List.length (storage.Log last) < 10)%nat.
Proof.
  exact (@GetCheckpoint_streams_checkpoint StorageExample.unmarshalRoot (fun _ _ => None)
           StorageExample.server
           {| storage.CheckpointRoot := Example.b 1; storage.CheckpointOpts := None |}
           _ StorageExample.entries eq_refl eq_refl eq_refl eq_refl
           (fun _ _ => eq_refl) eq_refl).
Defined.

(** ** Batches *)

Section ApplyBatchProperties.

Variable UnmarshalCBOR : bytes -> result api.Root.
Variable Send : list storage.WriteLogResponse -> storage.WriteLogResponse -> option error.
Variable Namespace_UnmarshalBinary : bytes -> result Namespace.
Variable Hash_UnmarshalBinary : bytes -> result bytes.
Variable cbor_Marshal : list bytes -> bytes.

Lemma map_toApi (log : list api.LogEntry) : map storage.toApi log = log.
Proof.
  induction log as [|[k v] log IH]; [reflexivity|]. cbn. rewrite IH. reflexivity.
Qed.

Lemma convertOps_ok reqOps :
  Forall (decodable Hash_UnmarshalBinary) reqOps ->
  forall ops,
    exists new,
      storage.convertOps Hash_UnmarshalBinary reqOps ops = Ok (ops ++ new)%list
      /\ Forall2 (decodedOp Hash_UnmarshalBinary) reqOps new.
Proof.
  induction 1 as [|op reqOps [[src Hsrc] [dst Hdst]] _ IH]; intro ops; cbn.
  - exists []. rewrite app_nil_r. split; [reflexivity | constructor].
  - rewrite Hsrc, Hdst.
    destruct (IH (ops ++ [{| api.SrcRound := storage.opSrcRound op;
                             api.SrcRoot := src; api.DstRoot := dst;
                             api.WriteLog :=
                               appendEach storage.toApi (storage.opLog op) [] |}])%list)
      as [new [Hrun Hall]].
    eexists (_ :: new). rewrite Hrun, <- app_assoc. split; [reflexivity|].
    constructor; [|exact Hall].
    repeat split; cbn; try assumption.
    rewrite appendEach_map. apply map_toApi.
Qed.

Lemma convertOps_pre pre :
  Forall (decodable Hash_UnmarshalBinary) pre ->
  forall rest ops,
    exists ops',
      storage.convertOps Hash_UnmarshalBinary (pre ++ rest) ops
      = storage.convertOps Hash_UnmarshalBinary rest ops'.
Proof.
  induction 1 as [|x pre [[src Hsrc] [dst Hdst]] _ IH]; intros rest ops; cbn.
  - exists ops. reflexivity.
  - rewrite Hsrc, Hdst. apply IH.
Qed.

(** X25. [ApplyBatch], once the namespace decodes and the policy allows the
    action "ApplyBatch" on it: when both roots of every step decode, the backend is
    given the namespace, the destination round and one step per step of the
    request, in order, each with its round, its decoded roots and its write
    log, and the receipts come back encoded (or the backend's error as it
    is). When the steps before some step decode and that step does not, the
    reply is the error that [UnmarshalBinary] gives for it: the error for its
    source root behind "storage: failed to unmarshal src root" when the
    source root does not decode, otherwise the error for its destination root
    behind "storage: failed to unmarshal dst root"; the backend is neither
    called nor waited for. *)
Theorem ApplyBatch_converts_every_step (s : storage.GrpcServer)
  (req : storage.ApplyBatchRequest) (ns : Namespace) :
  Namespace_UnmarshalBinary (storage.reqNamespace req) = Ok ns ->
  storage.CheckAccessAllowed s "ApplyBatch" ns = None ->
  (Forall (decodable Hash_UnmarshalBinary) (storage.reqOps req) ->
   api.Initialized (storage.backend s) = Closed ->
   exists ops,
     Forall2 (decodedOp Hash_UnmarshalBinary) (storage.reqOps req) ops
     /\ storage.ApplyBatch Namespace_UnmarshalBinary Hash_UnmarshalBinary cbor_Marshal s req
        = storage.Replies
            match api.ApplyBatch (storage.backend s) ns (storage.reqDstRound req) ops with
            | Ok receipts =>
                (Some {| storage.Receipts := cbor_Marshal receipts |}, None)
            | Err err => (None, Some err)
            end)
  /\ (forall pre op post,
        storage.reqOps req = (pre ++ op :: post)%list ->
        Forall (decodable Hash_UnmarshalBinary) pre ->
        (forall cause,
            Hash_UnmarshalBinary (storage.opSrcRoot op) = Err cause ->
            storage.ApplyBatch Namespace_UnmarshalBinary Hash_UnmarshalBinary cbor_Marshal
              s req
            = storage.Replies
                (None, Some (wrap "storage: failed to unmarshal src root" cause)))
        /\ (forall srcRoot cause,
              Hash_UnmarshalBinary (storage.opSrcRoot op) = Ok srcRoot ->
              Hash_UnmarshalBinary (storage.opDstRoot op) = Err cause ->
              storage.ApplyBatch Namespace_UnmarshalBinary Hash_UnmarshalBinary
                cbor_Marshal s req
              = storage.Replies
                  (None, Some (wrap "storage: failed to unmarshal dst root" cause)))).
Proof.
  intros Hns Hacc. unfold storage.ApplyBatch. rewrite Hns, Hacc. split.
  - intros Hall Hinit.
    destruct (convertOps_ok Hall []) as [ops [Hrun Hops]]. cbn [app] in Hrun.
    exists ops. split; [exact Hops|]. rewrite Hrun, Hinit. cbn [ready].
    destruct (api.ApplyBatch _ _ _ _); reflexivity.
  - intros pre op post Hreq Hpre. rewrite Hreq.
    destruct (convertOps_pre Hpre (op :: post) []) as [ops' ->].
    cbn [storage.convertOps]. split.
    + intros cause Hsrc. rewrite Hsrc. reflexivity.
    + intros srcRoot cause Hsrc Hdst. rewrite Hsrc, Hdst. reflexivity.
Qed.

End ApplyBatchProperties.

(** On the example server, a batch in namespace 1 whose second step has a
    destination root of two bytes, which does not decode. *)
Lemma ApplyBatch_converts_every_step_witness :
  storage.ApplyBatch (fun data => Ok data) StorageExample.unmarshalHash
    (fun receipts => List.concat receipts) StorageExample.server
    {| storage.reqNamespace := Example.b 1; storage.reqDstRound := 2;
       storage.reqOps := [StorageExample.op (Example.b 1) (Example.b 2);
                          StorageExample.op (Example.b 2) (Example.b 3 ++ Example.b 4);
                          StorageExample.op [] (Example.b 5)] |}
  = storage.Replies
      (None, Some (wrap "storage: failed to unmarshal dst root" "malformed hash"%string)).
Proof.
  refine (proj2 (proj2 (@ApplyBatch_converts_every_step (fun data => Ok data)
                          StorageExample.unmarshalHash
                          (fun receipts => List.concat receipts)
                          StorageExample.server
                          {| storage.reqNamespace := Example.b 1; storage.reqDstRound := 2;
                             storage.reqOps :=
                               [StorageExample.op (Example.b 1) (Example.b 2);
                                StorageExample.op (Example.b 2)
                                  (Example.b 3 ++ Example.b 4);
                                StorageExample.op [] (Example.b 5)] |}
                          (Example.b 1) eq_refl eq_refl)
                   [StorageExample.op (Example.b 1) (Example.b 2)]
                   (StorageExample.op (Example.b 2) (Example.b 3 ++ Example.b 4))
                   [StorageExample.op [] (Example.b 5)] eq_refl _)
            (Example.b 2) "malformed hash"%string eq_refl eq_refl).
  repeat constructor; eexists; reflexivity.
Defined.

(** ** The runtime host node: reachable nodes *)

Lemma ProvisionHostedRuntime_cases multi_New n :
  (exists err, provision multi_New n = Err err
               /\ ProvisionHostedRuntime multi_New n = (n, Done (None, None, Some err)))
  \/ (exists agg rr nt,
        provision multi_New n = Ok (agg, rr, nt)
        /\ rr = host.NewRichRuntime agg
        /\ match RuntimeHostNode.runtimeNotify n with
           | Open =>
               exists n', closeRuntimeNotify (install n agg rr nt) = Done n'
                          /\ RuntimeHostNode.runtimeNotify n' = Closed
                          /\ RuntimeHostNode.agg n' = Some agg
                          /\ RuntimeHostNode.runtime n' = Some rr
                          /\ RuntimeHostNode.notifier n' = Some nt
                          /\ ProvisionHostedRuntime multi_New n
                             = (n', Done (Some rr, Some nt, None))
           | Closed =>
               ProvisionHostedRuntime multi_New n
               = (install n agg rr nt, Panic "close of closed channel")
           end).
Proof.
  unfold ProvisionHostedRuntime.
  destruct (provision multi_New n) as [[[agg rr] nt]|err] eqn:Hprov.
  - right. exists agg, rr, nt. split; [reflexivity|]. split.
    + unfold provision in Hprov.
      destruct (Host _) as [[cfgs p]|?]; [|discriminate Hprov].
      destruct (provisionVersions _ _ _ _); [|discriminate Hprov].
      destruct (multi_New _ _); [|discriminate Hprov].
      injection Hprov as <- <- <-. reflexivity.
    + unfold closeRuntimeNotify, install; cbn.
      destruct (RuntimeHostNode.runtimeNotify n); cbn; [|reflexivity].
      eexists. repeat split.
  - left. exists err. split; reflexivity.
Qed.

Lemma ProvisionHostedRuntime_keeps_inv multi_New n :
  nodeInv n -> nodeInv (fst (ProvisionHostedRuntime multi_New n)).
Proof.
  intro Hinv.
  destruct (ProvisionHostedRuntime_cases multi_New n)
    as [[err [_ Hrun]]|[agg [rr [nt [_ [Hrr Hrun]]]]]].
  - rewrite Hrun. exact Hinv.
  - destruct (RuntimeHostNode.runtimeNotify n) eqn:Hlatch.
    + destruct Hrun as [n' [_ [Hclosed [Hagg [Hrt [Hnt Hrun]]]]]].
      rewrite Hrun. cbn. unfold nodeInv. rewrite Hclosed.
      exists agg, nt. rewrite Hagg, Hrt, Hnt, Hrr. repeat split.
    + rewrite Hrun. cbn. unfold nodeInv, install. cbn. rewrite Hlatch.
      exists agg, nt. rewrite Hrr. repeat split.
Qed.

Lemma reachableNode_inv n : reachableNode n -> nodeInv n.
Proof.
  induction 1 as [factory n Hnew|multi_New n _ IH].
  - injection Hnew as <-. repeat split.
  - apply ProvisionHostedRuntime_keeps_inv. exact IH.
Qed.

(** X10. On every node that [NewRuntimeHostNode] made, after any calls of
    [ProvisionHostedRuntime], a [WaitHostedRuntime] that returns without error
    returns a runtime, the rich runtime of the node's aggregate; otherwise it
    returns the error of its canceled context and no runtime. It never
    returns neither. *)
Theorem WaitHostedRuntime_returns_runtime_or_error (n : RuntimeHostNode.t)
  (ctx : Context) (r : ret host.RichRuntime) :
  reachableNode n ->
  In r (WaitHostedRuntime n ctx) ->
  (exists agg, RuntimeHostNode.agg n = Some agg
               /\ r = (Some (host.NewRichRuntime agg), None))
  \/ (exists err, ctx = Some err /\ r = (None, Some err)).
Proof.
  intros Hreach Hin. pose proof (reachableNode_inv Hreach) as Hinv.
  unfold nodeInv in Hinv. unfold WaitHostedRuntime, select, GetHostedRuntime in Hin.
  destruct (RuntimeHostNode.runtimeNotify n), ctx as [err|]; cbn in Hin.
  - destruct Hin as [<-|[]]. right. exists err. split; reflexivity.
  - contradiction.
  - destruct Hinv as [agg [nt [Hagg [Hrt _]]]].
    destruct Hin as [<-|[<-|[]]].
    + right. exists err. split; reflexivity.
    + left. exists agg. rewrite Hrt. split; [exact Hagg | reflexivity].
  - destruct Hinv as [agg [nt [Hagg [Hrt _]]]].
    destruct Hin as [<-|[]].
    left. exists agg. rewrite Hrt. split; [exact Hagg | reflexivity].
Qed.

(** On the example node, provisioned once. *)
Lemma WaitHostedRuntime_returns_runtime_or_error_witness :
  (exists agg,
      RuntimeHostNode.agg (fst (ProvisionHostedRuntime Example.multi_New Example.node0))
      = Some agg
      /\ (Some (host.NewRichRuntime (host.RuntimeRef 100)), @None error)
         = (Some (host.NewRichRuntime agg), None))
  \/ (exists err, @None error = Some err
                  /\ (Some (host.NewRichRuntime (host.RuntimeRef 100)), @None error)
                     = (None, Some err)).
Proof.
  refine (@WaitHostedRuntime_returns_runtime_or_error
            (fst (ProvisionHostedRuntime Example.multi_New Example.node0)) None
            (Some (host.NewRichRuntime (host.RuntimeRef 100)), None) _ _).
  - apply reachable_provision. apply (reachable_new (factory := Example.factory)).
    reflexivity.
  - left. reflexivity.
Defined.

(** X11. On every such node, [SetHostedRuntimeVersion] answers "runtime not
    available" exactly while [GetHostedRuntime] has nothing to return and
    waiters are blocked; once a runtime is there, the version switch goes to
    the aggregate that this runtime wraps and its result is returned. *)
Theorem SetHostedRuntimeVersion_follows_provisioning
  (SetVersion : host.Runtime -> version.Version -> option error)
  (n : RuntimeHostNode.t) (v : version.Version) :
  reachableNode n ->
  (GetHostedRuntime n = None
   /\ WaitHostedRuntime n None = []
   /\ SetHostedRuntimeVersion SetVersion n v = Some "runtime not available"%string)
  \/ (exists agg,
        GetHostedRuntime n = Some (host.NewRichRuntime agg)
        /\ WaitHostedRuntime n None = [(Some (host.NewRichRuntime agg), None)]
        /\ SetHostedRuntimeVersion SetVersion n v = SetVersion agg v).
Proof.
  intro Hreach. pose proof (reachableNode_inv Hreach) as Hinv.
  unfold nodeInv in Hinv.
  unfold WaitHostedRuntime, select, GetHostedRuntime, SetHostedRuntimeVersion.
  destruct (RuntimeHostNode.runtimeNotify n); cbn.
  - destruct Hinv as [Hagg [Hrt _]]. left. rewrite Hagg, Hrt. repeat split.
  - destruct Hinv as [agg [nt [Hagg [Hrt _]]]]. right. exists agg.
    rewrite Hagg, Hrt. repeat split.
Qed.

(** On the example node, before it is provisioned. *)
Lemma SetHostedRuntimeVersion_follows_provisioning_witness :
  SetHostedRuntimeVersion (fun _ _ => None) Example.node0 Example.v1
  = Some "runtime not available"%string.
Proof.
  destruct (@SetHostedRuntimeVersion_follows_provisioning (fun _ _ => None)
              Example.node0 Example.v1
              (reachable_new (factory := Example.factory) eq_refl))
    as [[_ [_ H]]|[agg [H _]]].
  - exact H.
  - discriminate H.
Defined.

(** X12. While the latch of a node is open, [ProvisionHostedRuntime] does not
    panic: either it returns an error, no runtime and no notifier and leaves
    the node as it was, so that it can be called again, or it returns the
    rich runtime of the new aggregate and the notifier, stores them and closes
    the latch. *)
Theorem ProvisionHostedRuntime_first_call
  (multi_New : Namespace -> list (version.Version * host.Runtime) -> result host.Runtime)
  (n : RuntimeHostNode.t) :
  RuntimeHostNode.runtimeNotify n = Open ->
  (exists err, ProvisionHostedRuntime multi_New n = (n, Done (None, None, Some err)))
  \/ (exists n' agg nt,
        ProvisionHostedRuntime multi_New n
        = (n', Done (Some (host.NewRichRuntime agg), Some nt, None))
        /\ RuntimeHostNode.runtimeNotify n' = Closed
        /\ RuntimeHostNode.agg n' = Some agg
        /\ RuntimeHostNode.runtime n' = Some (host.NewRichRuntime agg)
        /\ RuntimeHostNode.notifier n' = Some nt).
Proof.
  intro Hopen.
  destruct (ProvisionHostedRuntime_cases multi_New n)
    as [[err [_ Hrun]]|[agg [rr [nt [_ [Hrr Hrun]]]]]].
  - left. exists err. exact Hrun.
  - right. rewrite Hopen in Hrun.
    destruct Hrun as [n' [_ [Hclosed [Hagg [Hrt [Hnt Hrun]]]]]].
    exists n', agg, nt. subst rr. repeat split; assumption.
Qed.

(** The example node is provisioned by its first call. *)
Lemma ProvisionHostedRuntime_first_call_witness :
  exists n' agg nt,
    ProvisionHostedRuntime Example.multi_New Example.node0
    = (n', Done (Some (host.NewRichRuntime agg), Some nt, None))
    /\ RuntimeHostNode.runtimeNotify n' = Closed.
Proof.
  destruct (@ProvisionHostedRuntime_first_call Example.multi_New Example.node0 eq_refl)
    as [[err H]|[n' [agg [nt [H [Hc _]]]]]].
  - discriminate H.
  - exists n', agg, nt. split; assumption.
Defined.

(** ** Provisioning the versions *)

Lemma provisionVersions_ok provisioner msgHandler cfgs :
  forall rts0 rts,
    provisionVersions provisioner msgHandler cfgs rts0 = Ok rts ->
    exists new,
      rts = (rts0 ++ new)%list
      /\ map fst new = map fst cfgs
      /\ Forall2 (fun cfg rt =>
                    host.NewRuntime provisioner (withHandler msgHandler (snd cfg))
                    = Ok (snd rt)) cfgs new.
Proof.
  induction cfgs as [|[v cfg] cfgs IH]; intros rts0 rts; cbn.
  - intro H; injection H as <-. exists []. rewrite app_nil_r. repeat split. constructor.
  - fold (withHandler msgHandler cfg).
    destruct (host.NewRuntime provisioner (withHandler msgHandler cfg)) as [rt|err] eqn:Hrt;
      [|intro H; discriminate H].
    intro H. destruct (IH _ _ H) as [new [-> [Hv Hall]]].
    exists ((v, rt) :: new). rewrite <- app_assoc. split; [reflexivity|].
    split; [cbn; rewrite Hv; reflexivity|].
    constructor; [exact Hrt | exact Hall].
Qed.

Lemma provisionVersions_err provisioner msgHandler cfgs :
  forall rts0 err,
    provisionVersions provisioner msgHandler cfgs rts0 = Err err ->
    exists pre v cfg post cause,
      cfgs = (pre ++ (v, cfg) :: post)%list
      /\ Forall (fun c => exists rt,
                   host.NewRuntime provisioner (withHandler msgHandler (snd c)) = Ok rt) pre
      /\ host.NewRuntime provisioner (withHandler msgHandler cfg) = Err cause
      /\ err = wrap (String.append "failed to provision runtime version "
                       (version.String v)) cause.
Proof.
  induction cfgs as [|[v cfg] cfgs IH]; intros rts0 err; cbn.
  - intro H; discriminate H.
  - fold (withHandler msgHandler cfg).
    destruct (host.NewRuntime provisioner (withHandler msgHandler cfg)) as [rt|cause] eqn:Hrt.
    + intro H. destruct (IH _ _ H) as [pre [v' [cfg' [post [cause [-> [Hpre [Hbad ->]]]]]]]].
      exists ((v, cfg) :: pre), v', cfg', post, cause. split; [reflexivity|].
      split; [constructor; [exists rt; exact Hrt | exact Hpre]|].
      split; [exact Hbad | reflexivity].
    + intro H; injection H as <-.
      exists [], v, cfg, cfgs, cause. split; [reflexivity|].
      split; [constructor|]. split; [exact Hrt | reflexivity].
Qed.

(** X13. The loop over the configured versions hands every configuration to the
    provisioner with the node's message handler in place of whatever handler
    the configuration carried. When all succeed the map holds, in this order,
    each version with the runtime made for it. When one fails the loop stops
    there, and the error names that version in front of the provisioner's
    error; the configurations after it are not provisioned. *)
Theorem provisionVersions_each_with_handler (provisioner : host.Provisioner)
  (msgHandler : protocol.Handler) (cfgs : list (version.Version * host.Config)) :
  (forall rts,
      provisionVersions provisioner msgHandler cfgs [] = Ok rts ->
      map fst rts = map fst cfgs
      /\ Forall2 (fun cfg rt =>
                    host.NewRuntime provisioner (withHandler msgHandler (snd cfg))
                    = Ok (snd rt)) cfgs rts)
  /\ (forall err,
        provisionVersions provisioner msgHandler cfgs [] = Err err ->
        exists pre v cfg post cause,
          cfgs = (pre ++ (v, cfg) :: post)%list
          /\ Forall (fun c => exists rt,
                       host.NewRuntime provisioner (withHandler msgHandler (snd c)) = Ok rt)
               pre
          /\ host.NewRuntime provisioner (withHandler msgHandler cfg) = Err cause
          /\ err = wrap (String.append "failed to provision runtime version "
                           (version.String v)) cause).
Proof.
  split.
  - intros rts H. destruct (provisionVersions_ok _ _ _ _ H) as [new [-> H']]. exact H'.
  - intros err H. exact (provisionVersions_err _ _ _ _ H).
Qed.

(** A provisioner that refuses the second of two versions. *)
Lemma provisionVersions_each_with_handler_witness :
  exists pre v cfg post cause,
    [(Example.v1, {| host.Bundle := Example.b 1; host.MessageHandler := None |});
     (Example.v1, {| host.Bundle := Example.b 2; host.MessageHandler := None |})]
    = (pre ++ (v, cfg) :: post)%list
    /\ wrap "failed to provision runtime version 1.0.0" "no such bundle"%string
       = wrap (String.append "failed to provision runtime version " (version.String v))
           cause.
Proof.
  destruct (proj2 (provisionVersions_each_with_handler
                     {| host.NewRuntime := fun cfg =>
                          if bytes_Equal (host.Bundle cfg) (Example.b 1)
                          then Ok (host.RuntimeRef 1) else Err "no such bundle"%string |}
                     (fun _ => (None, None))
                     [(Example.v1,
                       {| host.Bundle := Example.b 1; host.MessageHandler := None |});
                      (Example.v1,
                       {| host.Bundle := Example.b 2; host.MessageHandler := None |})])
              _ eq_refl)
    as [pre [v [cfg [post [cause [Hcfgs [_ [_ Herr]]]]]]]].
  exists pre, v, cfg, post, cause. split; [exact Hcfgs | exact Herr].
Defined.

(** ** The request handler: heights and replies *)

Lemma int64_of_uint64_low x :
  (0 <= x < 2 ^ 63)%Z -> int64_of_uint64 x = x.
Proof.
  intro H. unfold int64_of_uint64. rewrite Z.mod_small by lia. lia.
Qed.

Lemma int64_of_uint64_high x :
  (2 ^ 63 <= x < 2 ^ 64)%Z -> int64_of_uint64 x = (x - 2 ^ 64)%Z.
Proof.
  intro H. unfold int64_of_uint64.
  replace (x + 2 ^ 63)%Z with ((x - 2 ^ 63) + 1 * 2 ^ 64)%Z by lia.
  rewrite Z.mod_add by lia. rewrite Z.mod_small by lia. lia.
Qed.

Lemma int64_of_uint64_of_int64 x :
  (- 2 ^ 63 <= x < 2 ^ 63)%Z -> int64_of_uint64 (uint64_of_int64 x) = x.
Proof.
  intro H. unfold uint64_of_int64.
  destruct (Z_lt_le_dec x 0) as [Hneg|Hpos].
  - replace (x mod 2 ^ 64)%Z with (x + 2 ^ 64)%Z.
    + rewrite int64_of_uint64_high by lia. lia.
    + replace x with ((x + 2 ^ 64) + (-1) * 2 ^ 64)%Z at 2 by lia.
      rewrite Z.mod_add by lia. rewrite Z.mod_small by lia. reflexivity.
  - rewrite Z.mod_small by lia. apply int64_of_uint64_low. lia.
Qed.

(** X14. [handleHostFetchConsensusBlock] reads the requested height, an unsigned
    64-bit number, as a signed one: a height below 2^63 reaches the light
    client unchanged, a height from 2^63 on reaches it as the negative number
    that is 2^64 less. An error of the light client comes back behind the
    text "light block fetch failure". *)
Theorem handleHostFetchConsensusBlock_height (h : runtimeHostHandler.t)
  (lc : consensus.LightClient) (height : Z) :
  GetLightClient (runtimeHostHandler.env h) = Ok lc ->
  (0 <= height < 2 ^ 64)%Z ->
  handleHostFetchConsensusBlock h
    {| protocol.HostFetchConsensusBlockRequest.Height := height |}
  = lightBlockAt lc (if (height <? 2 ^ 63)%Z then height else (height - 2 ^ 64)%Z).
Proof.
  intros Hlc Hrange.
  unfold handleHostFetchConsensusBlock, lightBlockAt. rewrite Hlc.
  cbn [protocol.HostFetchConsensusBlockRequest.Height].
  destruct (Z.ltb_spec height (2 ^ 63)) as [Hlow|Hhigh].
  - rewrite int64_of_uint64_low by lia. reflexivity.
  - rewrite int64_of_uint64_high by lia. reflexivity.
Qed.

(** On the example handler, height 2^64 - 1 is asked as height -1. *)
Lemma handleHostFetchConsensusBlock_height_witness :
  handleHostFetchConsensusBlock Example.handler
    {| protocol.HostFetchConsensusBlockRequest.Height := 2 ^ 64 - 1 |}
  = lightBlockAt {| consensus.GetLightBlock := fun _ => Ok (Example.b 1, Example.b 2) |}
      (-1).
Proof.
  refine (@handleHostFetchConsensusBlock_height Example.handler _ (2 ^ 64 - 1)
            eq_refl _).
  split; [discriminate | reflexivity].
Defined.

(** X15. The genesis height that [handleHostFetchGenesisHeight] reports, asked back
    through [handleHostFetchConsensusBlock], reaches the light client as the
    height of the genesis document, for every 64-bit height of the document,
    also a negative one. *)
Theorem genesis_height_round_trip (h : runtimeHostHandler.t)
  (doc : consensus.GenesisDocument) (lc : consensus.LightClient) :
  consensus.GetGenesisDocument (runtimeHostHandler.consensus h) = Ok doc ->
  GetLightClient (runtimeHostHandler.env h) = Ok lc ->
  (- 2 ^ 63 <= consensus.Height doc < 2 ^ 63)%Z ->
  exists height,
    handleHostFetchGenesisHeight h protocol.HostFetchGenesisHeightRequest.Build
    = (Some {| protocol.HostFetchGenesisHeightResponse.Height := height |}, None)
    /\ (0 <= height < 2 ^ 64)%Z
    /\ handleHostFetchConsensusBlock h
         {| protocol.HostFetchConsensusBlockRequest.Height := height |}
       = lightBlockAt lc (consensus.Height doc).
Proof.
  intros Hdoc Hlc Hrange.
  exists (uint64_of_int64 (consensus.Height doc)).
  split; [unfold handleHostFetchGenesisHeight; rewrite Hdoc; reflexivity|].
  split; [unfold uint64_of_int64; apply Z.mod_pos_bound; reflexivity|].
  unfold handleHostFetchConsensusBlock, lightBlockAt. rewrite Hlc.
  cbn [protocol.HostFetchConsensusBlockRequest.Height].
  rewrite int64_of_uint64_of_int64 by exact Hrange. reflexivity.
Qed.

(** On the example handler, whose genesis document has height 1. *)
Lemma genesis_height_round_trip_witness :
  exists height,
    handleHostFetchGenesisHeight Example.handler protocol.HostFetchGenesisHeightRequest.Build
    = (Some {| protocol.HostFetchGenesisHeightResponse.Height := height |}, None)
    /\ (0 <= height < 2 ^ 64)%Z
    /\ handleHostFetchConsensusBlock Example.handler
         {| protocol.HostFetchConsensusBlockRequest.Height := height |}
       = lightBlockAt
           {| consensus.GetLightBlock := fun _ => Ok (Example.b 1, Example.b 2) |} 1.
Proof.
  refine (@genesis_height_round_trip Example.handler _ _ eq_refl eq_refl _).
  split; [discriminate | reflexivity].
Defined.

Ltac reply_of L :=
  let x := fresh "x" in
  let e := fresh "e" in
  let E := fresh "E" in
  let H := fresh "H" in
  destruct L as [[x E]|[e E]]; rewrite E; cbn;
  intro H; [injection H as <-; repeat split | discriminate H].

(** X16. A response envelope that [Handle] returns holds no request variant and no
    policy update: nothing of the request envelope, whatever its fields hold,
    is carried over into the reply. *)
Theorem Handle_reply_has_only_responses (h : runtimeHostHandler.t)
  (rq rsp : protocol.Body.t) :
  fst (Handle h rq) = Some rsp -> onlyResponses rsp.
Proof.
  unfold Handle, assign, onlyResponses.
  destruct rq as [q0 p0 q1 p1 q2 p2 q3 p3 q4 p4 q5 p5 q6 p6 q7 p7 q8 p8 q9 p9 k1 k2].
  cbn - [handleHostRPCCall handleHostStorageSync handleHostLocalStorageGet
         handleHostLocalStorageSet handleHostFetchConsensusBlock
         handleHostFetchConsensusEvents handleHostFetchGenesisHeight
         handleHostFetchTxBatch handleHostProveFreshness handleHostIdentity].
  destruct q0 as [r|]; [reply_of (handleHostRPCCall_eitherOr h r)|].
  destruct q1 as [r|]; [reply_of (handleHostStorageSync_eitherOr h r)|].
  destruct q2 as [r|]; [reply_of (handleHostLocalStorageGet_eitherOr h r)|].
  destruct q3 as [r|]; [reply_of (handleHostLocalStorageSet_eitherOr h r)|].
  destruct q4 as [r|]; [reply_of (handleHostFetchConsensusBlock_eitherOr h r)|].
  destruct q5 as [r|]; [reply_of (handleHostFetchConsensusEvents_eitherOr h r)|].
  destruct q6 as [r|]; [reply_of (handleHostFetchGenesisHeight_eitherOr h r)|].
  destruct q7 as [r|]; [reply_of (handleHostFetchTxBatch_eitherOr h r)|].
  destruct q8 as [r|]; [reply_of (handleHostProveFreshness_eitherOr h r)|].
  destruct q9 as [r|]; [reply_of (handleHostIdentity_eitherOr h r)|].
  cbn. intro H; discriminate H.
Qed.

(** The reply to the example envelope with a get and a set. *)
Lemma Handle_reply_has_only_responses_witness :
  exists rsp, fst (Handle Example.handler Example.getAndSet) = Some rsp
              /\ onlyResponses rsp.
Proof.
  eexists. split; [reflexivity|].
  exact (@Handle_reply_has_only_responses Example.handler Example.getAndSet _ eq_refl).
Defined.

(** ** The key manager policy watch: origin of requests, retries *)

Section PolicyWatchTraces.

Variable cbor_Marshal : option keymanager.SignedPolicySGX -> bytes.
Variable cbor_Unmarshal : bytes -> result node.SGXConstraints.
Variable ActiveDeployment : registry.Runtime -> Z -> option registry.VersionInfo.
Variable VersionInfo_Equal : option registry.VersionInfo -> option registry.VersionInfo -> bool.
Variable rtInfo : RuntimeInfoResponse.
Variable kmRtID : Namespace.

Local Notation "'turn'" :=
  (kmTurn cbor_Marshal cbor_Unmarshal ActiveDeployment VersionInfo_Equal rtInfo kmRtID).
Local Notation "'loop'" :=
  (kmLoop cbor_Marshal cbor_Unmarshal ActiveDeployment VersionInfo_Equal rtInfo kmRtID).
Local Notation "'inv'" := (kmInv cbor_Unmarshal ActiveDeployment kmRtID).
Local Notation "'known'" := (accounted cbor_Marshal cbor_Unmarshal ActiveDeployment kmRtID).

Lemma lastStatus_origin seen : forall x,
  lastStatus kmRtID seen None = Some x ->
  In (onStatus x) seen /\ Namespace_Equal (keymanager.ID x) kmRtID = true.
Proof.
  induction seen as [|e seen IH] using rev_ind; intro x.
  - intro H; discriminate H.
  - unfold lastStatus. rewrite fold_left_app. cbn. fold (lastStatus kmRtID seen None).
    destruct e as [|newSt|epoch dsc|ev];
      try (intro H; destruct (IH _ H) as [Hin Heq];
           split; [apply in_or_app; left; exact Hin | exact Heq]).
    destruct (Namespace_Equal (keymanager.ID newSt) kmRtID) eqn:E.
    + intro H; injection H as <-.
      split; [apply in_or_app; right; left; reflexivity | exact E].
    + intro H; destruct (IH _ H) as [Hin Heq].
      split; [apply in_or_app; left; exact Hin | exact Heq].
Qed.

Lemma accounted_more seen more req : known seen req -> known (seen ++ more) req.
Proof.
  intros [[newSt [Hin H]]|[c [p [[epoch [dsc [v [Hin Hobs]]]] H]]]].
  - left. exists newSt. split; [apply in_or_app; left; exact Hin | exact H].
  - right. exists c, p. split; [|exact H].
    exists epoch, dsc, v. split; [apply in_or_app; left; exact Hin | exact Hobs].
Qed.

Lemma kmTurn_accounted seen s e c s' out :
  inv seen s -> turn s e = Done (c, s', out) -> Forall (known (seen ++ [e])) out.
Proof.
  intros Hinv Hturn.
  assert (Hinv' : inv (seen ++ [e]) s')
    by (eapply kmTurn_inv; [exact Hinv | exact Hturn]).
  destruct Hinv' as [Hst' Hsc'].
  destruct Hinv as [Hst Hsc].
  unfold kmTurn in Hturn. destruct e as [|newSt|epoch dsc|ev].
  - injection Hturn as _ _ <-. constructor.
  - destruct (Namespace_Equal (keymanager.ID newSt) kmRtID) eqn:E; cbn in Hturn;
      injection Hturn as _ _ <-; [|constructor].
    constructor; [|constructor]. left. exists newSt.
    split; [apply in_or_app; right; left; reflexivity|]. split; [exact E | reflexivity].
  - destruct (KeyManagerQuotePolicyUpdates (Features_ rtInfo)); cbn in Hturn;
      [|injection Hturn as _ _ <-; constructor].
    destruct dsc as [dsc|err]; [|injection Hturn as _ _ <-; constructor].
    destruct (registry.TEEHardware dsc);
      try (injection Hturn as _ _ <-; constructor).
    destruct (VersionInfo_Equal (ActiveDeployment dsc epoch) (vi s));
      [injection Hturn as _ _ <-; constructor|].
    cbn in Hturn.
    destruct (ActiveDeployment dsc epoch) as [v|] eqn:Hv; [|discriminate Hturn].
    destruct (cbor_Unmarshal (registry.TEE v)) as [newSc|err] eqn:Hdec;
      [|injection Hturn as _ _ <-; constructor].
    unfold updateKeyManagerQuotePolicy in Hturn.
    destruct (node.Policy newSc) as [p|] eqn:Hp; [|discriminate Hturn].
    injection Hturn as _ <- <-.
    constructor; [|constructor]. right. exists newSc, p.
    split; [|split; [exact Hp | reflexivity]].
    exact (proj2 (Hsc' newSc eq_refl)).
  - assert (Hpolicy : forall x, st s = Some x ->
              known (seen ++ [onHostEvent ev])
                (policyUpdate cbor_Marshal (keymanager.Policy x))).
    { intros x Hx. rewrite Hst in Hx. destruct (lastStatus_origin _ Hx) as [Hin Heq].
      left. exists x. split; [apply in_or_app; left; exact Hin|].
      split; [exact Heq | reflexivity]. }
    assert (Hquote : forall c0 p, sc s = Some c0 -> node.Policy c0 = Some p ->
              known (seen ++ [onHostEvent ev]) (quotePolicyUpdate p)).
    { intros c0 p Hc Hp. right. exists c0, p.
      split; [|split; [exact Hp | reflexivity]].
      apply observedConstraints_snoc. exact (proj2 (Hsc c0 Hc)). }
    unfold updateKeyManagerPolicy, updateKeyManagerQuotePolicy in Hturn.
    assert (Hboth :
      forall out',
        match sc s with
        | Some sc0 =>
            match match node.Policy sc0 with
                  | Some p => Done [quotePolicyUpdate p]
                  | None => Panic "nil pointer dereference"
                  end with
            | Done calls2 =>
                Done (Continue, s,
                      (match st s with
                       | Some st0 => [policyUpdate cbor_Marshal (keymanager.Policy st0)]
                       | None => []
                       end ++ calls2)%list)
            | Panic msg => Panic msg
            end
        | None =>
            Done (Continue, s,
                  match st s with
                  | Some st0 => [policyUpdate cbor_Marshal (keymanager.Policy st0)]
                  | None => []
                  end)
        end = Done (c, s', out') ->
        Forall (known (seen ++ [onHostEvent ev])) out').
    { intros out' H.
      destruct (sc s) as [c0|] eqn:Hc0.
      - destruct (node.Policy c0) as [p|] eqn:Hp; [|discriminate H].
        injection H as _ _ <-.
        apply Forall_app. split.
        + destruct (st s) as [x|] eqn:Hx; constructor; [|constructor].
          apply Hpolicy. reflexivity.
        + constructor; [|constructor]. eapply Hquote; [reflexivity | exact Hp].
      - injection H as _ _ <-.
        destruct (st s) as [x|] eqn:Hx; constructor; [|constructor].
        apply Hpolicy. reflexivity. }
    destruct (host.Started ev), (host.Updated ev);
      try (apply Hboth; exact Hturn).
    injection Hturn as _ _ <-. constructor.
Qed.

Lemma kmLoop_accounted events : forall seen s calls c s' calls',
  inv seen s ->
  Forall (known seen) calls ->
  loop s calls events = Done (c, s', calls') ->
  Forall (known (seen ++ events)) calls'.
Proof.
  induction events as [|e events IH]; intros seen s calls c s' calls' Hinv Hcalls; cbn.
  - intro H; injection H as _ _ <-. rewrite app_nil_r. exact Hcalls.
  - destruct (turn s e) as [[[c1 s1] out]|msg] eqn:Hturn; [|intro H; discriminate H].
    assert (Hall : Forall (known (seen ++ [e])) (calls ++ out)).
    { apply Forall_app. split.
      - eapply Forall_impl; [|exact Hcalls]. intros req Hreq.
        apply accounted_more. exact Hreq.
      - eapply kmTurn_accounted; [exact Hinv | exact Hturn]. }
    replace (seen ++ e :: events)%list with ((seen ++ [e]) ++ events)%list
      by (rewrite <- app_assoc; reflexivity).
    destruct c1.
    + intro H. eapply IH; [|exact Hall|exact H].
      eapply kmTurn_inv; [exact Hinv | exact Hturn].
    + intro H; injection H as _ _ <-.
      eapply Forall_impl; [|exact Hall]. intros req Hreq.
      apply accounted_more. exact Hreq.
Qed.

End PolicyWatchTraces.

(** X18. Every request that [watchKmPolicyUpdates] sends to the hosted runtime is
    accounted for by the events it received: a policy update carries the
    encoded policy of a status that was received for the tracked key manager,
    never that of another key manager, and a quote policy update carries the
    policy of constraints decoded from the active deployment reported at an
    epoch. The loop sends nothing else. *)
Theorem watchKmPolicyUpdates_requests_accounted
  (cbor_Marshal : option keymanager.SignedPolicySGX -> bytes)
  (cbor_Unmarshal : bytes -> result node.SGXConstraints)
  (ActiveDeployment : registry.Runtime -> Z -> option registry.VersionInfo)
  (VersionInfo_Equal : option registry.VersionInfo -> option registry.VersionInfo -> bool)
  (kmRtID : Namespace) (setup : kmSetup) (events : list kmEvent)
  (c : control) (s : kmVars) (calls : list protocol.Body.t) :
  watchKmPolicyUpdates cbor_Marshal cbor_Unmarshal ActiveDeployment VersionInfo_Equal
    (Some kmRtID) setup events = Done (c, s, calls) ->
  Forall (accounted cbor_Marshal cbor_Unmarshal ActiveDeployment kmRtID events) calls.
Proof.
  unfold watchKmPolicyUpdates.
  destruct (WatchEpochs setup); [intro H; injection H as _ _ <-; constructor|].
  destruct (WatchEvents setup); [intro H; injection H as _ _ <-; constructor|].
  destruct (GetInfo setup) as [info|err]; [|intro H; injection H as _ _ <-; constructor].
  intro H.
  eapply kmLoop_accounted with (seen := []) (calls := []);
    [apply kmInv_start | constructor | exact H].
Qed.

(** On the example: a status of another key manager, one of the tracked key
    manager, an epoch and a restart. *)
Lemma watchKmPolicyUpdates_requests_accounted_witness :
  exists calls,
    List.length calls = 4%nat
    /\ Forall (accounted Example.marshal Example.unmarshal Example.activeDeployment
                 Example.kmRtID
                 [onStatus {| keymanager.ID := Example.b 8;
                              keymanager.IsInitialized := true;
                              keymanager.Policy := None |};
                  onStatus Example.status;
                  onEpoch 1 (Ok (Example.descriptor (Example.b 5)));
                  onHostEvent Example.restarted]) calls.
Proof.
  eexists. split; [|
    refine (@watchKmPolicyUpdates_requests_accounted Example.marshal Example.unmarshal
              Example.activeDeployment Example.versionInfoEqual Example.kmRtID
              Example.setup _ _ _ _ _); reflexivity].
  reflexivity.
Defined.

(** X19. When the constraints of a new deployment do not decode, the loop records
    the deployment and keeps the constraints it had. At later epochs it sends
    nothing as long as the active deployment equals the recorded one: the
    constraints are not decoded again. On a host event it sends what it would
    have sent before that epoch, the quote policy of the older deployment
    included. *)
Theorem undecodable_constraints_keep_old_policy
  (cbor_Marshal : option keymanager.SignedPolicySGX -> bytes)
  (cbor_Unmarshal : bytes -> result node.SGXConstraints)
  (ActiveDeployment : registry.Runtime -> Z -> option registry.VersionInfo)
  (VersionInfo_Equal : option registry.VersionInfo -> option registry.VersionInfo -> bool)
  (rtInfo : RuntimeInfoResponse) (kmRtID : Namespace)
  (s : kmVars) (epoch : Z) (dsc : registry.Runtime) (v : registry.VersionInfo)
  (err : error) :
  KeyManagerQuotePolicyUpdates (Features_ rtInfo) = true ->
  registry.TEEHardware dsc = node.TEEHardwareIntelSGX ->
  ActiveDeployment dsc epoch = Some v ->
  VersionInfo_Equal (Some v) (vi s) = false ->
  cbor_Unmarshal (registry.TEE v) = Err err ->
  let turn := kmTurn cbor_Marshal cbor_Unmarshal ActiveDeployment VersionInfo_Equal
                rtInfo kmRtID in
  let s1 := {| st := st s; sc := sc s; vi := Some v |} in
  turn s (onEpoch epoch (Ok dsc)) = Done (Continue, s1, [])
  /\ (forall epoch' dsc',
        VersionInfo_Equal (ActiveDeployment dsc' epoch') (Some v) = true ->
        turn s1 (onEpoch epoch' (Ok dsc')) = Done (Continue, s1, []))
  /\ (forall ev ctl out,
        turn s (onHostEvent ev) = Done (ctl, s, out) ->
        turn s1 (onHostEvent ev) = Done (ctl, s1, out)).
Proof.
  intros Hflag Hsgx Hv Hneq Hdec turn s1. subst turn. unfold kmTurn.
  split; [|split].
  - rewrite Hflag, Hsgx, Hv, Hneq. cbn. rewrite Hdec. reflexivity.
  - intros epoch' dsc' Heq. rewrite Hflag. cbn.
    destruct (registry.TEEHardware dsc'); try reflexivity.
    rewrite Heq. reflexivity.
  - intros ev ctl out. cbn [st sc s1].
    destruct (host.Started ev), (host.Updated ev), (sc s) as [c0|];
      try destruct (updateKeyManagerQuotePolicy (node.Policy c0));
      intro H; try discriminate H; injection H as <- <-; reflexivity.
Qed.

(** On the example: constraints 5 decode, those of the next deployment do
    not; a restart then sends the quote policy of constraints 5 again. *)
Lemma undecodable_constraints_keep_old_policy_witness :
  kmLoop Example.marshal Example.unmarshal Example.activeDeployment
    Example.versionInfoEqual Example.rtInfo Example.kmRtID kmVars0 []
    [onEpoch 1 (Ok (Example.descriptor (Example.b 5)));
     onEpoch 2 (Ok (Example.descriptor []));
     onEpoch 3 (Ok (Example.descriptor []));
     onHostEvent Example.restarted]
  = Done (Continue,
          {| st := None;
             sc := Some {| node.Enclaves := [];
                           node.Policy := Some (quote.MkPolicy (Example.b 5)) |};
             vi := Some (Example.deployment []) |},
          [quotePolicyUpdate (quote.MkPolicy (Example.b 5));
           quotePolicyUpdate (quote.MkPolicy (Example.b 5))]).
Proof.
  pose (s := {| st := None;
                sc := Some {| node.Enclaves := [];
                              node.Policy := Some (quote.MkPolicy (Example.b 5)) |};
                vi := Some (Example.deployment (Example.b 5)) |}).
  destruct (@undecodable_constraints_keep_old_policy Example.marshal Example.unmarshal
              Example.activeDeployment Example.versionInfoEqual Example.rtInfo
              Example.kmRtID s 2 (Example.descriptor []) (Example.deployment [])
              "EOF"%string eq_refl eq_refl eq_refl eq_refl eq_refl)
    as [H2 [H3 H4]].
  cbn [kmLoop].
  change (kmTurn Example.marshal Example.unmarshal Example.activeDeployment
            Example.versionInfoEqual Example.rtInfo Example.kmRtID kmVars0
            (onEpoch 1 (Ok (Example.descriptor (Example.b 5)))))
    with (Done (Continue, s, [quotePolicyUpdate (quote.MkPolicy (Example.b 5))])).
  cbn iota beta. rewrite H2. cbn iota beta.
  rewrite (H3 3%Z (Example.descriptor []) eq_refl). cbn iota beta.
  rewrite (H4 Example.restarted Continue
              [quotePolicyUpdate (quote.MkPolicy (Example.b 5))] eq_refl).
  reflexivity.
Defined.

(** ** The descriptor loop and the block loop *)


Lemma lastStarted_app log1 : forall log2 acc,
  lastStarted (log1 ++ log2) acc = lastStarted log2 (lastStarted log1 acc).
Proof.
  induction log1 as [|e log1 IH]; intros log2 acc; cbn; [reflexivity|].
  destruct e; apply IH.
Qed.



Lemma last_cons (A : Type) (l : list A) : forall x d, last (x :: l) d = last l x.
Proof.
  induction l as [|y l IH]; intros x d; [reflexivity|].
  change (last (x :: y :: l) d) with (last (y :: l) d).
  rewrite (IH y d), (IH y x). reflexivity.
Qed.

Lemma descriptorLoop_tracks_last Equal :
  (forall a b, Equal a b = true <-> a = b) ->
  forall kms kmRtID log,
    lastStarted log None = Some kmRtID ->
    exists log',
      Notifier.descriptorLoop Equal kmRtID (map (onDescriptor KindCompute) kms) log
      = (Continue, last kms kmRtID, log')
      /\ lastStarted log' None = Some (last kms kmRtID).
Proof.
  intros Hequal. induction kms as [|km kms IH]; intros kmRtID log Hlast.
  - exists log. split; [reflexivity | exact Hlast].
  - cbn [map Notifier.descriptorLoop].
    rewrite last_cons.
    destruct (Equal kmRtID km) eqn:E.
    + apply Hequal in E. subst km. apply IH. exact Hlast.
    + apply IH. rewrite lastStarted_app. reflexivity.
Qed.

(** X21. When [Namespace.Equal] decides equality and only descriptors of kind
    compute arrive, [watchPolicyUpdates] stays in its loop, and the goroutine
    that runs is the one for the key manager of the latest descriptor (for no
    key manager when the latest descriptor names none, or when no descriptor
    has arrived). *)
Theorem watchPolicyUpdates_tracks_latest
  (Equal : option Namespace -> option Namespace -> bool)
  (kms : list (option Namespace)) :
  (forall a b, Equal a b = true <-> a = b) ->
  exists log,
    Notifier.watchPolicyUpdates Equal None (map (onDescriptor KindCompute) kms)
    = (Continue, last kms None, log)
    /\ lastStarted log None = Some (last kms None).
Proof.
  intro Hequal. unfold Notifier.watchPolicyUpdates.
  apply descriptorLoop_tracks_last; [exact Hequal | reflexivity].
Qed.

Lemma Namespace_Equal_eq a b : Namespace_Equal a b = true <-> a = b.
Proof.
  unfold Namespace_Equal. destruct (list_eq_dec Byte.byte_eq_dec a b); split; intro H;
    try reflexivity; try assumption; try discriminate H; contradiction.
Qed.

Lemma LoopsExample_equal_eq a b : LoopsExample.equal a b = true <-> a = b.
Proof.
  destruct a as [x|], b as [y|]; cbn; split; intro H;
    try reflexivity; try discriminate H.
  - apply Namespace_Equal_eq in H. subst. reflexivity.
  - injection H as ->. apply Namespace_Equal_eq. reflexivity.
Qed.

(** Key manager 9 is set, confirmed, and replaced by key manager 7. *)
Lemma watchPolicyUpdates_tracks_latest_witness :
  exists log,
    Notifier.watchPolicyUpdates LoopsExample.equal None
      (map (onDescriptor KindCompute)
         [Some (Example.b 9); Some (Example.b 9); Some (Example.b 7)])
    = (Continue, Some (Example.b 7), log)
    /\ lastStarted log None = Some (Some (Example.b 7)).
Proof.
  exact (@watchPolicyUpdates_tracks_latest LoopsExample.equal
           [Some (Example.b 9); Some (Example.b 9); Some (Example.b 7)]
           LoopsExample_equal_eq).
Defined.

Lemma blockLoop_blocks blocks : forall rest calls,
  Notifier.blockLoop (map (fun b => Notifier.onBlock (fst b) (snd b)) blocks ++ rest) calls
  = Notifier.blockLoop rest (calls ++ map (fun b => uint64_of_int64 (fst b)) blocks).
Proof.
  induction blocks as [|[height sync] blocks IH]; intros rest calls; cbn.
  - rewrite app_nil_r. reflexivity.
  - destruct sync; rewrite IH, <- app_assoc; reflexivity.
Qed.

(** X22. [watchConsensusLightBlocks] passes the height of every block that it takes
    from the ring channel to [ConsensusSync], converted to an unsigned 64-bit
    number, once and in the order taken, whether or not the calls before
    failed: a failed call neither ends the loop nor is it repeated, and the
    loop is back in its [select] afterwards. *)
Theorem watchConsensusLightBlocks_notifies_each_block
  (blocks : list (Z * option error)) :
  Notifier.watchConsensusLightBlocks None
    (map (fun b => Notifier.onBlock (fst b) (snd b)) blocks)
  = (Continue, map (fun b => uint64_of_int64 (fst b)) blocks).
Proof.
  unfold Notifier.watchConsensusLightBlocks.
  rewrite <- (app_nil_r (map _ blocks)) at 1. rewrite blockLoop_blocks. reflexivity.
Qed.

(** ** The latest-block cell *)

Lemma cellAfter_app steps1 : forall ch steps2,
  cellAfter ch (steps1 ++ steps2) = cellAfter (cellAfter ch steps1) steps2.
Proof.
  induction steps1 as [|step steps1 IH]; intros ch steps2; cbn [cellAfter app];
    [reflexivity|].
  destruct step; try apply IH.
  - destruct (RingChannel.closed ch); apply IH.
  - destruct (RingChannel.Out ch) as [[blk ch']|]; apply IH.
Qed.

Lemma taken_app steps1 : forall ch steps2,
  taken ch (steps1 ++ steps2)
  = (taken ch steps1 ++ taken (cellAfter ch steps1) steps2)%list.
Proof.
  induction steps1 as [|step steps1 IH]; intros ch steps2;
    cbn [taken cellAfter app]; [reflexivity|].
  destruct step; try (rewrite IH; reflexivity).
  - destruct (RingChannel.closed ch); apply IH.
  - destruct (RingChannel.Out ch) as [[[blk|] ch']|]; rewrite IH; reflexivity.
Qed.

Lemma taken_forwards heights : forall ch, taken ch (map forward heights) = [].
Proof.
  induction heights as [|h heights IH]; intro ch; cbn [taken map]; [reflexivity|].
  destruct (RingChannel.closed ch); apply IH.
Qed.

Lemma cellAfter_forwards earlier : forall ch latest,
  RingChannel.closed ch = false ->
  cellAfter ch (map forward (earlier ++ [latest]))
  = {| RingChannel.slot := Some latest; RingChannel.closed := false |}.
Proof.
  induction earlier as [|h earlier IH]; intros ch latest Hopen;
    cbn [cellAfter map app]; rewrite Hopen.
  - unfold RingChannel.In. rewrite Hopen. reflexivity.
  - apply IH. exact Hopen.
Qed.

Lemma blockLoop_app events1 : forall calls0 calls events2,
  Notifier.blockLoop events1 calls0 = (Continue, calls) ->
  Notifier.blockLoop (events1 ++ events2) calls0 = Notifier.blockLoop events2 calls.
Proof.
  induction events1 as [|e events1 IH]; intros calls0 calls events2;
    cbn [Notifier.blockLoop app].
  - intro H; injection H as <-. reflexivity.
  - destruct e as [| | |height sync]; try (intro H; discriminate H).
    destruct sync; apply IH.
Qed.

Lemma blockLoop_calls events : forall calls,
  Notifier.blockLoop events calls
  = (fst (Notifier.blockLoop events []),
     (calls ++ snd (Notifier.blockLoop events []))%list).
Proof.
  induction events as [|e events IH]; intro calls; cbn [Notifier.blockLoop].
  - cbn. rewrite app_nil_r. reflexivity.
  - destruct e as [| | |height sync]; cbn [fst snd]; try (rewrite app_nil_r; reflexivity).
    destruct sync; rewrite IH, (IH ([] ++ [uint64_of_int64 height])%list);
      cbn [fst snd app]; rewrite <- app_assoc; reflexivity.
Qed.

(** Every height passed to [ConsensusSync] is that of the block pending at the
    start or of a block forwarded during the steps. *)
Lemma taken_origin steps : forall ch h,
  List.In h (snd (Notifier.blockLoop (taken ch steps) [])) ->
  (exists x, RingChannel.slot ch = Some x /\ h = uint64_of_int64 x)
  \/ (exists x, List.In (forward x) steps /\ h = uint64_of_int64 x).
Proof.
  induction steps as [|step steps IH]; intros ch h; cbn [taken].
  - intros [].
  - destruct step as [x| | | |sync].
    + destruct (RingChannel.closed ch).
      * intro H. destruct (IH ch h H) as [Hl|[y [Hin Hy]]]; [left; exact Hl|].
        right. exists y. split; [right; exact Hin | exact Hy].
      * intro H. destruct (IH _ h H) as [[y [Hslot Hy]]|[y [Hin Hy]]].
        -- cbn in Hslot. injection Hslot as <-.
           right. exists x. split; [left; reflexivity | exact Hy].
        -- right. exists y. split; [right; exact Hin | exact Hy].
    + intro H. destruct (IH _ h H) as [Hl|[y [Hin Hy]]]; [left; exact Hl|].
      right. exists y. split; [right; exact Hin | exact Hy].
    + intros [].
    + intros [].
    + unfold RingChannel.Out. destruct (RingChannel.slot ch) as [x|] eqn:Hslot.
      * cbn [Notifier.blockLoop].
        assert (Hloop : forall events calls,
                   match sync with
                   | Some _ => Notifier.blockLoop events calls
                   | None => Notifier.blockLoop events calls
                   end = Notifier.blockLoop events calls)
          by (intros; destruct sync; reflexivity).
        rewrite Hloop, blockLoop_calls. cbn [snd app].
        intros [Hh|Hin].
        -- left. exists x. split; [reflexivity | symmetry; exact Hh].
        -- destruct (IH _ h Hin) as [[y [Hy _]]|[y [Hy1 Hy2]]]; [discriminate Hy|].
           right. exists y. split; [right; exact Hy1 | exact Hy2].
      * destruct (RingChannel.closed ch); [intros []|].
        intro H. destruct (IH ch h H) as [[y [Hy _]]|[y [Hy1 Hy2]]].
        -- rewrite Hslot in Hy. discriminate Hy.
        -- right. exists y. split; [right; exact Hy1 | exact Hy2].
Qed.

(** C7. Let the loop of [watchConsensusLightBlocks] be in its [select], with
    [rawCh] open. Sending into the ring channel always completes: when the
    forwarding goroutine sends one block after the other before the loop takes
    the next one, the ring channel holds the block sent last and no other. The
    loop then takes that block and passes its height to [ConsensusSync]; the
    blocks sent before it are passed on neither then nor later, since
    whatever is passed on afterwards is a block forwarded afterwards. *)
Theorem C7_latest_block_only (before after : list blkStep)
  (earlier : list Z) (latest : Z) (sync : option error) (calls : list Z) :
  RingChannel.closed (cellAfter RingChannel.New before) = false ->
  lightBlockWatch None before = (Continue, calls) ->
  cellAfter RingChannel.New (before ++ map forward (earlier ++ [latest]))
  = {| RingChannel.slot := Some latest; RingChannel.closed := false |}
  /\ exists ctl more,
       lightBlockWatch None
         (before ++ map forward (earlier ++ [latest]) ++ selectBlock sync :: after)
       = (ctl, (calls ++ uint64_of_int64 latest :: more)%list)
       /\ lightBlockWatch None after = (ctl, more)
       /\ forall h, List.In h more ->
                    exists x, List.In (forward x) after /\ h = uint64_of_int64 x.
Proof.
  unfold lightBlockWatch, Notifier.watchConsensusLightBlocks. intros Hopen Hbefore.
  assert (Hcell : cellAfter RingChannel.New (before ++ map forward (earlier ++ [latest]))
                  = {| RingChannel.slot := Some latest; RingChannel.closed := false |})
    by (rewrite cellAfter_app; apply cellAfter_forwards; exact Hopen).
  split; [exact Hcell|].
  exists (fst (Notifier.blockLoop (taken RingChannel.New after) [])),
         (snd (Notifier.blockLoop (taken RingChannel.New after) [])).
  split; [|split].
  - rewrite app_assoc, taken_app, Hcell, taken_app, taken_forwards, app_nil_r.
    rewrite (@blockLoop_app _ _ _ _ Hbefore).
    cbn [taken RingChannel.Out RingChannel.slot RingChannel.closed Notifier.blockLoop].
    fold RingChannel.New.
    assert (Hloop : forall events calls,
               match sync with
               | Some _ => Notifier.blockLoop events calls
               | None => Notifier.blockLoop events calls
               end = Notifier.blockLoop events calls)
      by (intros; destruct sync; reflexivity).
    rewrite Hloop, blockLoop_calls, <- app_assoc. reflexivity.
  - destruct (Notifier.blockLoop (taken RingChannel.New after) []); reflexivity.
  - intros h Hin.
    destruct (taken_origin after RingChannel.New h Hin) as [[x [Hx _]]|Hafter];
      [discriminate Hx | exact Hafter].
Qed.

(** C7 on the blocks of heights 100, 101 and 102, forwarded before the loop
    takes one: the loop passes on 102, and later 103, never 100 or 101. *)
Lemma C7_latest_block_only_witness :
  lightBlockWatch None
    ([] ++ map forward ([100; 101] ++ [102])%Z
        ++ selectBlock None :: [selectBlock None; forward 103; selectBlock (Some "timeout"%string)])
  = (Continue, [102; 103]%Z).
Proof.
  destruct (@C7_latest_block_only []
              [selectBlock None; forward 103; selectBlock (Some "timeout"%string)]
              [100; 101]%Z 102%Z None [] eq_refl eq_refl)
    as [_ [ctl [more [Hrun [Hafter _]]]]].
  injection Hafter as <- <-. exact Hrun.
Defined.

(** ** The node tracker *)

Section TrackerProperties.

Variable PublicKeyToPeerID : bytes -> result p2p.PeerID.

Lemma addPeer_spec m peerID p :
  p2p.addPeer m peerID p = true <-> p = peerID \/ m p = true.
Proof.
  unfold p2p.addPeer. destruct (bytes_Equal p peerID) eqn:E.
  - apply bytes_Equal_eq in E. split; [intros _; left; exact E | reflexivity].
  - split; [intro H; right; exact H|].
    intros [H|H]; [|exact H]. apply bytes_Equal_eq in H. rewrite H in E. discriminate E.
Qed.

Lemma collectPeers_spec GetNode nodes : forall m p,
  p2p.collectPeers PublicKeyToPeerID GetNode nodes m p = true
  <-> m p = true \/ peerOf PublicKeyToPeerID GetNode nodes p.
Proof.
  induction nodes as [|nodeID nodes IH]; intros m p; cbn.
  - split; [intro H; left; exact H|].
    intros [H|[n [k [[] _]]]]. exact H.
  - assert (Hskip : (m p = true \/ peerOf PublicKeyToPeerID GetNode nodes p)
                    -> m p = true \/ peerOf PublicKeyToPeerID GetNode (nodeID :: nodes) p).
    { intros [H|[n [k [Hin H]]]]; [left; exact H|].
      right. exists n, k. split; [right; exact Hin | exact H]. }
    destruct (GetNode nodeID) as [key|err] eqn:Hnode.
    + destruct (PublicKeyToPeerID key) as [peerID|err] eqn:Hpeer.
      * rewrite IH, addPeer_spec. split.
        -- intros [[->|H]|[n [k [Hin H]]]].
           ++ right. exists nodeID, key. split; [left; reflexivity|]. split; assumption.
           ++ left. exact H.
           ++ right. exists n, k. split; [right; exact Hin | exact H].
        -- intros [H|[n [k [[<-|Hin] [Hn Hk]]]]].
           ++ left. right. exact H.
           ++ rewrite Hnode in Hn. injection Hn as <-. rewrite Hpeer in Hk.
              injection Hk as <-. left. left. reflexivity.
           ++ right. exists n, k. split; [exact Hin|]. split; assumption.
      * rewrite IH. split; [exact Hskip|].
        intros [H|[n [k [[<-|Hin] [Hn Hk]]]]].
        -- left. exact H.
        -- rewrite Hnode in Hn. injection Hn as <-. rewrite Hpeer in Hk. discriminate Hk.
        -- right. exists n, k. split; [exact Hin|]. split; assumption.
    + rewrite IH. split; [exact Hskip|].
      intros [H|[n [k [[<-|Hin] [Hn Hk]]]]].
      * left. exact H.
      * rewrite Hnode in Hn. discriminate Hn.
      * right. exists n, k. split; [exact Hin|]. split; assumption.
Qed.

Lemma usableStatus_split id st nodes GetNode :
  usableStatus id (p2p.trackStatus st nodes GetNode) = false ->
  negb (Namespace_Equal (keymanager.ID st) id) = true
  \/ (Namespace_Equal (keymanager.ID st) id = true
      /\ negb (keymanager.IsInitialized st) || (List.length nodes =? 0)%nat = true).
Proof.
  cbn. destruct (Namespace_Equal (keymanager.ID st) id); [|left; reflexivity].
  destruct (keymanager.IsInitialized st), (List.length nodes =? 0)%nat;
    cbn; intro H; try discriminate H; right; split; reflexivity.
Qed.

Lemma trackTurn_unusable id nt e :
  p2p.keymanagerID nt = id ->
  isStop e = false ->
  usableStatus id e = false ->
  p2p.trackTurn PublicKeyToPeerID nt e = Done (Continue, nt).
Proof.
  intros Hid Hstop Huse. destruct e as [|st nodes GetNode]; [discriminate Hstop|].
  unfold p2p.trackTurn. rewrite Hid.
  destruct (usableStatus_split _ _ _ _ Huse) as [H|[H1 H2]].
  - rewrite H. reflexivity.
  - rewrite H1, H2. reflexivity.
Qed.

Lemma trackTurn_usable id nt st nodes GetNode :
  p2p.keymanagerID nt = id ->
  (p2p.initialized nt = true <-> p2p.initCh nt = Closed) ->
  usableStatus id (p2p.trackStatus st nodes GetNode) = true ->
  exists nt',
    p2p.trackTurn PublicKeyToPeerID nt (p2p.trackStatus st nodes GetNode)
    = Done (Continue, nt')
    /\ p2p.keymanagerID nt' = id
    /\ p2p.initialized nt' = true
    /\ p2p.initCh nt' = Closed
    /\ p2p.peers nt' = p2p.collectPeers PublicKeyToPeerID GetNode nodes p2p.emptyPeers.
Proof.
  intros Hid Hinit Huse. cbn in Huse.
  apply andb_prop in Huse. destruct Huse as [Huse Hnodes].
  apply andb_prop in Huse. destruct Huse as [Heq Hst].
  unfold p2p.trackTurn. rewrite Hid, Heq, Hst. cbn [negb orb].
  apply negb_true_iff in Hnodes. rewrite Hnodes.
  destruct (p2p.initialized nt) eqn:Hi.
  - eexists. split; [reflexivity|]. cbn.
    split; [first [exact Hid | reflexivity]|]. split; [reflexivity|].
    split; [apply Hinit; reflexivity | reflexivity].
  - destruct (p2p.initCh nt) eqn:Hch.
    + eexists. split; [reflexivity|]. cbn.
      split; [first [exact Hid | reflexivity]|]. split; [reflexivity|].
      split; reflexivity.
    + assert (H : false = true) by (apply Hinit; reflexivity). discriminate H.
Qed.

Lemma trackTurn_inv id seen nt e :
  trackInv id seen nt ->
  isStop e = false ->
  exists nt',
    p2p.trackTurn PublicKeyToPeerID nt e = Done (Continue, nt')
    /\ trackInv id (seen ++ [e]) nt'.
Proof.
  intros [Hid [Hinit Hseen]] Hstop.
  destruct (usableStatus id e) eqn:Huse.
  - destruct e as [|st nodes GetNode]; [discriminate Hstop|].
    destruct (@trackTurn_usable id nt st nodes GetNode Hid Hinit Huse)
      as [nt' [Hturn [Hid' [Hi' [Hch' _]]]]].
    exists nt'. split; [exact Hturn|]. split; [exact Hid'|]. split.
    + rewrite Hi', Hch'. split; reflexivity.
    + rewrite Hch', existsb_app. cbn [existsb]. rewrite Huse, orb_true_r.
      split; reflexivity.
  - exists nt. split; [exact (@trackTurn_unusable id nt e Hid Hstop Huse)|].
    split; [exact Hid|]. split; [exact Hinit|].
    rewrite existsb_app. cbn [existsb]. rewrite Huse, orb_false_r. exact Hseen.
Qed.

Lemma trackKeymanagerNodes_inv id events : forall seen nt,
  trackInv id seen nt ->
  exists c nt',
    p2p.trackKeymanagerNodes PublicKeyToPeerID nt events = Done (c, nt')
    /\ trackInv id (seen ++ beforeStop events) nt'
    /\ (c = Return <-> existsb isStop events = true).
Proof.
  induction events as [|e events IH]; intros seen nt Hinv; cbn.
  - exists Continue, nt. rewrite app_nil_r.
    split; [reflexivity|]. split; [exact Hinv|]. split; intro H; discriminate H.
  - destruct (isStop e) eqn:Hstop.
    + destruct e; [|discriminate Hstop]. cbn.
      exists Return, nt. rewrite app_nil_r.
      split; [reflexivity|]. split; [exact Hinv|]. split; reflexivity.
    + destruct (@trackTurn_inv id seen nt e Hinv Hstop) as [nt1 [Hturn Hinv1]].
      rewrite Hturn. destruct (IH (seen ++ [e])%list nt1 Hinv1) as [c [nt' [Hrun [Hinv' Hc]]]].
      exists c, nt'. rewrite <- app_assoc in Hinv'. cbn in Hinv'.
      split; [exact Hrun|]. split; [exact Hinv' | exact Hc].
Qed.

Lemma trackInv_start id : trackInv id [] (p2p.newTracker id).
Proof.
  split; [reflexivity|]. split; split; intro H; discriminate H.
Qed.

(** X23. [trackKeymanagerNodes] never panics: from the tracker that [NewClient]
    makes and for all events, the channel [initCh] is closed once, at the first
    status for the tracked key manager that is initialized and lists nodes,
    and the loop's flag is set exactly when the channel is closed. The loop
    returns exactly when a stop was received. *)
Theorem trackKeymanagerNodes_closes_initCh_once (id : Namespace)
  (events : list p2p.trackEvent) :
  exists c nt,
    p2p.trackKeymanagerNodes PublicKeyToPeerID (p2p.newTracker id) events = Done (c, nt)
    /\ (p2p.initCh nt = Closed <-> existsb (usableStatus id) (beforeStop events) = true)
    /\ (p2p.initialized nt = true <-> p2p.initCh nt = Closed)
    /\ (c = Return <-> existsb isStop events = true).
Proof.
  destruct (@trackKeymanagerNodes_inv id events [] (p2p.newTracker id) (trackInv_start id))
    as [c [nt [Hrun [[_ [Hinit Hseen]] Hc]]]].
  exists c, nt. cbn [app] in Hseen. repeat split; try assumption;
    try apply Hseen; try apply Hinit; try apply Hc.
Qed.

Lemma trackKeymanagerNodes_app events1 : forall nt nt1 events2,
  p2p.trackKeymanagerNodes PublicKeyToPeerID nt events1 = Done (Continue, nt1) ->
  p2p.trackKeymanagerNodes PublicKeyToPeerID nt (events1 ++ events2)
  = p2p.trackKeymanagerNodes PublicKeyToPeerID nt1 events2.
Proof.
  induction events1 as [|e events1 IH]; intros nt nt1 events2; cbn.
  - intro H; injection H as <-. reflexivity.
  - destruct (p2p.trackTurn PublicKeyToPeerID nt e) as [[[|] nt']|msg];
      try (intro H; discriminate H).
    apply IH.
Qed.

Lemma trackKeymanagerNodes_unusable id events : forall nt,
  p2p.keymanagerID nt = id ->
  existsb isStop events = false ->
  existsb (usableStatus id) events = false ->
  p2p.trackKeymanagerNodes PublicKeyToPeerID nt events = Done (Continue, nt).
Proof.
  induction events as [|e events IH]; intros nt Hid Hstop Huse; cbn; [reflexivity|].
  cbn in Hstop, Huse. apply orb_false_elim in Hstop, Huse.
  destruct Hstop as [Hs Hstop], Huse as [Hu Huse].
  rewrite (@trackTurn_unusable id nt e Hid Hs Hu). apply IH; assumption.
Qed.

(** X24. The peers that [IsPeerAcceptable] accepts are those of the latest status
    that the tracker acted on, and of no status before it: after a status for
    the tracked key manager that is initialized and lists nodes, followed by
    any statuses that are for another key manager, not initialized or without
    nodes, a peer is acceptable exactly when it is the peer of a listed node
    whose descriptor the registry returned and whose key has a peer ID. *)
Theorem IsPeerAcceptable_latest_status (id : Namespace)
  (before : list p2p.trackEvent) (st : keymanager.Status) (nodes : list bytes)
  (GetNode : bytes -> result bytes) (after : list p2p.trackEvent) :
  existsb isStop before = false ->
  usableStatus id (p2p.trackStatus st nodes GetNode) = true ->
  existsb isStop after = false ->
  existsb (usableStatus id) after = false ->
  exists nt,
    p2p.trackKeymanagerNodes PublicKeyToPeerID (p2p.newTracker id)
      (before ++ p2p.trackStatus st nodes GetNode :: after)
    = Done (Continue, nt)
    /\ forall p, p2p.IsPeerAcceptable nt p = true
                 <-> peerOf PublicKeyToPeerID GetNode nodes p.
Proof.
  intros Hbefore Huse Hstop Hafter.
  destruct (@trackKeymanagerNodes_inv id before [] (p2p.newTracker id) (trackInv_start id))
    as [c [nt0 [Hrun0 [[Hid [Hinit _]] Hc]]]].
  assert (c = Continue) as ->.
  { destruct c; [reflexivity|].
    assert (H : existsb isStop before = true) by (apply Hc; reflexivity).
    rewrite Hbefore in H. discriminate H. }
  destruct (@trackTurn_usable id nt0 st nodes GetNode Hid Hinit Huse)
    as [nt1 [Hturn [Hid1 [_ [_ Hpeers]]]]].
  exists nt1. split.
  - rewrite (@trackKeymanagerNodes_app before (p2p.newTracker id) nt0 _ Hrun0).
    cbn [p2p.trackKeymanagerNodes]. rewrite Hturn.
    exact (@trackKeymanagerNodes_unusable id after nt1 Hid1 Hstop Hafter).
  - intro p. unfold p2p.IsPeerAcceptable. rewrite Hpeers, collectPeers_spec.
    split; [intros [H|H]; [discriminate H | exact H] | intro H; right; exact H].
Qed.

End TrackerProperties.

(** On the example: a first status lists node 1; the latest lists nodes 2, 3
    (unknown to the registry) and 0 (whose key has no peer ID); a status of
    another key manager follows. *)
Lemma IsPeerAcceptable_latest_status_witness :
  exists nt,
    p2p.trackKeymanagerNodes TrackerExample.toPeerID (p2p.newTracker Example.kmRtID)
      ([p2p.trackStatus Example.status [Example.b 1] TrackerExample.registryNodes]
       ++ p2p.trackStatus Example.status [Example.b 2; Example.b 3; Example.b 0]
            TrackerExample.registryNodes
       :: [p2p.trackStatus
             {| keymanager.ID := Example.b 8; keymanager.IsInitialized := true;
                keymanager.Policy := None |}
             [Example.b 4] TrackerExample.registryNodes])
    = Done (Continue, nt)
    /\ forall p, p2p.IsPeerAcceptable nt p = true
                 <-> peerOf TrackerExample.toPeerID TrackerExample.registryNodes
                       [Example.b 2; Example.b 3; Example.b 0] p.
Proof.
  exact (@IsPeerAcceptable_latest_status TrackerExample.toPeerID Example.kmRtID
           [p2p.trackStatus Example.status [Example.b 1] TrackerExample.registryNodes]
           Example.status [Example.b 2; Example.b 3; Example.b 0]
           TrackerExample.registryNodes
           [p2p.trackStatus
              {| keymanager.ID := Example.b 8; keymanager.IsInitialized := true;
                 keymanager.Policy := None |}
              [Example.b 4] TrackerExample.registryNodes]
           eq_refl eq_refl eq_refl eq_refl).
Defined.
